(** * Coverage Gutters: the coverage service and its status-bar presenter

    A shallow embedding of [src/coverage-system/coverageservice.ts]
    (class [CoverageService]) and [src/extension/statusbartoggler.ts]
    (class [StatusBarToggler]), and the properties of the refresh cycle,
    of the percentage arithmetic and of the status-bar state that the
    specification states about them, followed by further properties of
    the two classes read off the code.

    Layout: JavaScript numbers (binary64, rounding written out over [Q]),
    the data model, the presenter, asynchronous tasks as resumptions, the
    service, an interleaving scheduler, then the theorems. *)

From Stdlib Require Import ZArith QArith Qround Qabs Qcanon Lia Lqa Bool List.
From Stdlib Require Import Ascii String DecimalString.
From Stdlib Require Import Floats.SpecFloat.
Import ListNotations.

Local Open Scope string_scope.
Local Open Scope Z_scope.

(* ================================================================= *)
(** ** JavaScript numbers *)

(** A JS [number] is an IEEE-754 binary64 value.  Finite values are kept as
    the exact rational they denote; the two zeros are identified (no count
    or percentage of this program is ever [-0], and [-0] prints, compares
    and tests like [0]).  Every arithmetic result goes through [rnd], the
    round-to-nearest, ties-to-even rounding of binary64. *)
Module JS.

Inductive number : Type :=
| NaN
| Infinity (negative : bool)
| Fin (q : Q).

(** [number | undefined]. *)
Inductive value : Type :=
| undefined
| Num (n : number).

Definition of_Z (z : Z) : number := Fin (inject_Z z).
Definition of_N (n : N) : number := of_Z (Z.of_N n).

(** *** Rounding to binary64 *)

(** [floor (log2 (n / d))] for positive [n], [d]. *)
Definition ilog2 (n d : Z) : Z :=
  let e0 := Z.log2 n - Z.log2 d in
  let below := if 0 <=? e0 then n <? d * 2 ^ e0 else n * 2 ^ (- e0) <? d in
  if below then e0 - 1 else e0.

(** Nearest integer to [n / d] ([d > 0]), ties to even. *)
Definition rne (n d : Z) : Z :=
  let q := n / d in
  let r := n mod d in
  match 2 * r ?= d with
  | Lt => q
  | Gt => q + 1
  | Eq => if Z.even q then q else q + 1
  end.

Definition prec : Z := 53.
Definition emax : Z := 1024.
Definition emin : Z := -1022.

(** The binary64 value nearest to the positive rational [n / d]:
    a 53-bit significand above [2^emin], a fixed quantum [2^-1074] below
    it, and overflow to infinity from [2^1024] on. *)
Definition rnd_pos (n d : Z) : number :=
  let e := Z.max (ilog2 n d) emin in
  let sh := (prec - 1) - e in
  if 0 <=? sh then
    let m := rne (n * 2 ^ sh) d in
    Fin (Qred (Qmake m (Z.to_pos (2 ^ sh))))
  else
    let m := rne n (d * 2 ^ (- sh)) in
    if 2 ^ emax <=? m * 2 ^ (- sh) then Infinity false
    else Fin (inject_Z (m * 2 ^ (- sh))).

Definition neg (x : number) : number :=
  match x with
  | NaN => NaN
  | Infinity s => Infinity (negb s)
  | Fin q => Fin (Qred (- q))
  end.

Definition rnd (q : Q) : number :=
  match Qnum q with
  | Z0 => Fin 0
  | Zpos n => rnd_pos (Zpos n) (Zpos (Qden q))
  | Zneg n => neg (rnd_pos (Zpos n) (Zpos (Qden q)))
  end.

(** *** Operators *)

Definition is_zero (q : Q) : bool := Qeq_bool q 0.
Definition is_neg (q : Q) : bool := (Qnum q <? 0)%Z.

(** [a + b]. *)
Definition add (a b : number) : number :=
  match a, b with
  | NaN, _ | _, NaN => NaN
  | Infinity s, Infinity t => if Bool.eqb s t then Infinity s else NaN
  | Infinity s, Fin _ | Fin _, Infinity s => Infinity s
  | Fin x, Fin y => rnd (x + y)
  end.

(** [a * b]. *)
Definition mul (a b : number) : number :=
  match a, b with
  | NaN, _ | _, NaN => NaN
  | Infinity s, Infinity t => Infinity (xorb s t)
  | Infinity s, Fin y | Fin y, Infinity s =>
      if is_zero y then NaN else Infinity (xorb s (is_neg y))
  | Fin x, Fin y => rnd (x * y)
  end.

(** [a / b]. *)
Definition div (a b : number) : number :=
  match a, b with
  | NaN, _ | _, NaN => NaN
  | Infinity _, Infinity _ => NaN
  | Infinity s, Fin y => Infinity (xorb s (is_neg y))
  | Fin _, Infinity _ => Fin 0
  | Fin x, Fin y =>
      if is_zero y then
        if is_zero x then NaN else Infinity (is_neg x)
      else rnd (x / y)
  end.

(** [a < b]. *)
Definition lt (a b : number) : bool :=
  match a, b with
  | NaN, _ | _, NaN => false
  | Infinity s, Infinity t => s && negb t
  | Infinity s, Fin _ => s
  | Fin _, Infinity t => negb t
  | Fin x, Fin y =>
      match Qcompare x y with Lt => true | _ => false end
  end.

(** [a == 0] on a number. *)
Definition eq_zero (a : number) : bool :=
  match a with
  | Fin q => is_zero q
  | _ => false
  end.

(** [ToNumber] on [number | undefined]. *)
Definition ToNumber (v : value) : number :=
  match v with
  | undefined => NaN
  | Num n => n
  end.

(** [ToBoolean] on [number | undefined]: [undefined], [NaN] and zero are
    falsy. *)
Definition truthy (v : value) : bool :=
  match v with
  | undefined => false
  | Num NaN => false
  | Num (Infinity _) => true
  | Num (Fin q) => negb (is_zero q)
  end.

(** [v || d] with a numeric default. *)
Definition or_default (v : value) (d : number) : number :=
  if truthy v then ToNumber v else d.

(** [Math.round]: the nearest integer, ties towards [+Infinity]; exact on
    every finite double. *)
Definition Math_round (a : number) : number :=
  match a with
  | Fin q => of_Z (Qfloor (q + (1 # 2)))
  | other => other
  end.

(** [Number.isFinite]. *)
Definition Number_isFinite (v : value) : bool :=
  match v with
  | Num (Fin _) => true
  | _ => false
  end.

(** *** Conversion to string *)

(** [Number::toString] in radix 10 (ECMA-262): the shortest decimal
    [s * 10^(n-k)], [k] digits, that reads back as the same double; the one
    closest to it when several do, the even [s] on a tie. *)
Definition pow10 (e : Z) : Q :=
  if 0 <=? e then inject_Z (10 ^ e) else Qmake 1 (Z.to_pos (10 ^ (- e))).

(** [floor (log10 q)] for positive [q]. *)
Definition ilog10 (q : Q) : Z :=
  let e0 := (ilog2 (Qnum q) (Zpos (Qden q)) * 1233) / 4096 in
  let e1 := if Qle_bool (pow10 (e0 + 1)) q then e0 + 1 else e0 in
  if Qle_bool (pow10 e1) q then e1 else e1 - 1.

Definition same (a : number) (x : Q) : bool :=
  match a with
  | Fin q => Qeq_bool q x
  | _ => false
  end.

(** The [k]-digit significands [s] with [s * 10^(n-k)] reading back as [x]. *)
Definition significands (x : Q) (k n : Z) : list (Z * Z) :=
  let scale := pow10 (n - k) in
  let s0 := Qfloor (x / scale) in
  map (fun s => (s, n))
    (filter (fun s => (10 ^ (k - 1) <=? s) && (s <? 10 ^ k)
                      && same (rnd (inject_Z s * scale)) x)
            [s0; s0 + 1]).

Definition closer (x : Q) (k : Z) (a b : Z * Z) : Z * Z :=
  let dist c := Qabs (inject_Z (fst c) * pow10 (snd c - k) - x) in
  match Qcompare (dist a) (dist b) with
  | Lt => a
  | Gt => b
  | Eq => if Z.even (fst a) then a else b
  end.

Fixpoint shortest (fuel : nat) (k : Z) (x : Q) (e10 : Z) : Z * Z * Z :=
  match (significands x k (e10 + 1) ++ significands x k (e10 + 2))%list with
  | c :: cs =>
      let best := fold_left (closer x k) cs c in (fst best, snd best, k)
  | [] =>
      match fuel with
      | O => (Qfloor (x / pow10 (e10 + 1 - k)), e10 + 1, k)
      | S fuel' => shortest fuel' (k + 1) x e10
      end
  end.

Definition decimal (z : Z) : string := NilZero.string_of_int (Z.to_int z).

Fixpoint zeros (n : nat) : string :=
  match n with
  | O => EmptyString
  | S n' => String "0" (zeros n')
  end.

Definition substring_from (n : nat) (s : string) : string :=
  substring n (String.length s - n) s.

Definition toString_pos (x : Q) : string :=
  let '(s, n, k) := shortest 17 1 x (ilog10 x) in
  let ds := decimal s in
  if (k <=? n) && (n <=? 21) then
    ds ++ zeros (Z.to_nat (n - k))
  else if (0 <? n) && (n <=? 21) then
    substring 0 (Z.to_nat n) ds ++ "." ++ substring_from (Z.to_nat n) ds
  else if (-6 <? n) && (n <=? 0) then
    "0." ++ zeros (Z.to_nat (- n)) ++ ds
  else
    let e := n - 1 in
    let tail := "e" ++ (if 0 <=? e then "+" else "-") ++ decimal (Z.abs e) in
    if k =? 1 then ds ++ tail
    else substring 0 1 ds ++ "." ++ substring_from 1 ds ++ tail.

Definition Number_toString (a : number) : string :=
  match a with
  | NaN => "NaN"
  | Infinity false => "Infinity"
  | Infinity true => "-Infinity"
  | Fin q =>
      match rnd q with
      | Fin x =>
          match Qnum x with
          | Z0 => "0"
          | Zpos _ => toString_pos x
          | Zneg _ => "-" ++ toString_pos (- x)
          end
      | Infinity false => "Infinity"
      | _ => "-Infinity"
      end
  end.

(** A template-literal hole [${v}] holding a [number | undefined]. *)
Definition template (v : value) : string :=
  match v with
  | undefined => "undefined"
  | Num n => Number_toString n
  end.

(** *** The library's binary64 *)

(** The value of a [spec_float] of the Standard Library, whose operations
    at precision 53 and [emax = 1024] are binary64's; used to compare [rnd]
    with them. *)
Definition of_spec_float (x : spec_float) : number :=
  match x with
  | S754_zero _ => Fin 0
  | S754_infinity s => Infinity s
  | S754_nan => NaN
  | S754_finite s m e =>
      let mag :=
        if 0 <=? e then inject_Z (Zpos m * 2 ^ e)
        else Qred (Qmake (Zpos m) (Z.to_pos (2 ^ (- e)))) in
      Fin (if s then Qred (- mag) else mag)
  end.

(** A positive integer as a [spec_float]. *)
Definition to_spec_float (p : positive) : spec_float :=
  SFmul 53 1024 (S754_finite false p 0) (S754_finite false 1 0).

End JS.

(* ================================================================= *)
(** ** Configuration and the status-bar presenter *)

(** [Array.prototype.join] on strings. *)
Definition join (sep : string) (parts : list string) : string :=
  String.concat sep parts.

(** The part of [Config] the two classes read. *)
Record Config : Type := mkConfig {
  showStatusBarToggler : bool;
  manualCoverageFilePaths : list string;
  coverageFileNames : list string;
  coverageBaseDir : string
}.

(** [vscode.StatusBarItem]: the properties the presenter assigns.
    [backgroundColor] holds the id of a [ThemeColor], if any. *)
Record StatusBarItem : Type := mkItem {
  text : string;
  command : string;
  tooltip : string;
  backgroundColor : option string;
  visible : bool;
  disposed : bool
}.

Module StatusBarToggler.

Definition coverageText : string := "Cov".
Definition loadingText : string := join " " ["$(loading~spin)"; coverageText].
Definition idleIcon : string := "$(circle-large-outline)".
Definition watchCommand : string :=
  "coverage-gutters.watchCoverageAndVisibleEditors".
Definition watchText : string := join " " [idleIcon; "Watch"].
Definition watchToolTip : string :=
  "Coverage Gutters: Click to watch workspace.".
Definition removeCommand : string := "coverage-gutters.removeWatch".
Definition removeWatchToolTip : string :=
  "Coverage Gutters: Click to remove watch from workspace.".

(** The fields of a [StatusBarToggler]. *)
Record t : Type := mk {
  isActive : option bool;
  isLoading : bool;
  lineCoverage : option string;
  statusBarItem : StatusBarItem;
  configStore : Config;
  isWarn : bool
}.

Definition with_item (i : StatusBarItem) (b : t) : t :=
  mk (isActive b) (isLoading b) (lineCoverage b) i (configStore b) (isWarn b).

(** Truthiness of [this.isActive : boolean | undefined]. *)
Definition active (b : t) : bool :=
  match isActive b with
  | Some true => true
  | _ => false
  end.

(** [this.lineCoverage || "No"]: the empty string is falsy too. *)
Definition lineCoverage_or (b : t) (d : string) : string :=
  match lineCoverage b with
  | Some (String c s) => String c s
  | _ => d
  end.

Definition getStatusBarText (b : t) : string :=
  if isLoading b then loadingText
  else if active b then
    join " " [idleIcon; lineCoverage_or b "No"; coverageText]
  else watchText.

(** [update]: text, command, tooltip and background recomputed from the
    fields.  A fresh [ThemeColor] is never [===] the stored one, so the
    background is assigned whenever a colour is due, and assigning
    [undefined] over [undefined] changes nothing. *)
Definition update (b : t) : t :=
  let i := statusBarItem b in
  let txt := getStatusBarText b in
  let cmd := if active b then removeCommand else watchCommand in
  let tip := if active b then removeWatchToolTip else watchToolTip in
  let bgColor :=
    if isWarn b && active b then Some "statusBarItem.errorBackground"
    else None in
  with_item (mkItem txt cmd tip bgColor (visible i) (disposed i)) b.

(** [new StatusBarToggler(configStore)]. *)
Definition new (configStore : Config) : t :=
  mk None false None
     (mkItem watchText watchCommand watchToolTip None
             (showStatusBarToggler configStore) false)
     configStore false.

Definition statusText (b : t) : string := text (statusBarItem b).

Definition toggle (active : bool) (b : t) : t :=
  update (mk (Some active) (isLoading b) (lineCoverage b) (statusBarItem b)
             (configStore b) (isWarn b)).

(** [setLoading(loading = !this.isLoading)]. *)
Definition setLoading (loading : option bool) (b : t) : t :=
  let l := match loading with Some l => l | None => negb (isLoading b) end in
  update (mk (isActive b) l (lineCoverage b) (statusBarItem b)
             (configStore b) (isWarn b)).

Definition set_isWarn (w : bool) (b : t) : t :=
  mk (isActive b) (isLoading b) (lineCoverage b) (statusBarItem b)
     (configStore b) w.

Definition set_lineCoverage (c : option string) (b : t) : t :=
  mk (isActive b) (isLoading b) c (statusBarItem b) (configStore b) (isWarn b).

(** [setCoverage(linePercentage, totalLinePercentage = undefined,
    branchPercentage = undefined, totalBranchPercentage = undefined)]. *)
Definition setCoverage
  (linePercentage totalLinePercentage branchPercentage
     totalBranchPercentage : JS.value) (b : t) : t :=
  let b := set_isWarn false b in
  let b :=
    if JS.Number_isFinite linePercentage then
      if JS.Number_isFinite totalLinePercentage then
        if JS.Number_isFinite branchPercentage
           && JS.Number_isFinite totalBranchPercentage then
          let b :=
            if JS.lt (JS.or_default totalLinePercentage (JS.of_Z 0))
                     (JS.of_Z 60)
               || JS.lt (JS.or_default totalBranchPercentage (JS.of_Z 0))
                        (JS.of_Z 40)
            then set_isWarn true b else b in
          set_lineCoverage
            (Some (JS.template linePercentage ++ ","
                   ++ JS.template branchPercentage ++ "%/"
                   ++ JS.template totalLinePercentage ++ ","
                   ++ JS.template totalBranchPercentage ++ "%")) b
        else
          set_lineCoverage
            (Some (JS.template linePercentage ++ "%/"
                   ++ JS.template totalLinePercentage ++ "%")) b
      else
        set_lineCoverage (Some (JS.template linePercentage ++ "%")) b
    else set_lineCoverage None b in
  update b.

Definition dispose (b : t) : t :=
  let i := statusBarItem b in
  with_item (mkItem (text i) (command i) (tooltip i) (backgroundColor i)
                    (visible i) true) b.

End StatusBarToggler.

(* ================================================================= *)
(** ** Data model *)

(** [{ hit, found }] of a [Section]; a count a parser left out reads
    [undefined]. *)
Record Counts : Type := mkCounts {
  hit : JS.value;
  found : JS.value
}.

(** [lcov-parse]'s [Section], with the fields this code reads.  The code
    reads [lines] and [branches] through [?.], so either may be absent. *)
Record Section : Type := mkSection {
  title : string;
  file : string;
  lines : option Counts;
  branches : option Counts
}.

(** [Map<string, Section>], in insertion order (the order of [forEach]). *)
Definition Cache : Type := list (string * Section).

Record TextEditor : Type := mkEditor {
  fileName : string
}.

(** A thrown value or promise rejection. *)
Inductive Error : Type :=
| JsError (message : string).

Inductive Status : Type :=
| ready
| initializing
| loading
| rendering
| error.

Definition Status_value (s : Status) : string :=
  match s with
  | ready => "READY"
  | initializing => "INITIALIZING"
  | loading => "LOADING"
  | rendering => "RENDERING"
  | error => "ERROR"
  end.

(** A line appended to the output channel: the state lines written by
    [updateServiceState] and the other diagnostics, each stamped with
    [Date.now()]. *)
Inductive LogEntry : Type :=
| StateLine (stamp : Z) (state : Status)
| InfoLine (stamp : Z) (message : string).

(** The text [appendLine] receives. *)
Definition line (e : LogEntry) : string :=
  match e with
  | StateLine t s =>
      "[" ++ JS.decimal t ++ "][coverageservice]: " ++ Status_value s
  | InfoLine t m => "[" ++ JS.decimal t ++ "][coverageservice]: " ++ m
  end.

(** The states written to the channel, oldest first. *)
Fixpoint states (log : list LogEntry) : list Status :=
  match log with
  | [] => []
  | StateLine _ s :: rest => s :: states rest
  | InfoLine _ _ :: rest => states rest
  end.

(** A call received by [Renderer.renderCoverage]. *)
Definition RenderCall : Type := (Cache * option (list TextEditor))%type.

(** One [CoverageService] and the host it runs in.  The collaborators that
    are called synchronously are fields holding their behaviour:
    [renderer] says whether [renderCoverage] throws, [sectionFinder] is
    [findSectionsForEditor].  The host part is the [window] and
    [workspace] state the service reads, the clock and the calls the
    renderer received.

    [coverageWatcher] and [editorWatcher] are the two fields of the
    class, holding a watcher that is live.  The service overwrites them
    without disposing what they held, so a watcher may be live while no
    field holds it: [leakedWatchers] are the file-system watchers in that
    state, each by the pattern it watches, and [leakedListeners] counts
    the editor listeners. *)
Record World : Type := mkWorld {
  statusBar : StatusBarToggler.t;
  configStore : Config;
  outputChannel : list LogEntry;
  renderer : Cache -> option (list TextEditor) -> option Error;
  isCoverageDisplayed : bool;
  coverageWatcher : option string;
  editorWatcher : bool;
  sectionFinder : TextEditor -> Cache -> Error + list Section;
  cache : Cache;
  visibleTextEditors : option (list TextEditor);
  activeTextEditor : option TextEditor;
  workspaceFolders : option (list string);
  now : Z;
  rendered : list RenderCall;
  leakedWatchers : list string;
  leakedListeners : nat
}.

Definition with_statusBar (f : StatusBarToggler.t -> StatusBarToggler.t)
  (w : World) : World :=
  mkWorld (f (statusBar w)) (configStore w) (outputChannel w) (renderer w)
    (isCoverageDisplayed w) (coverageWatcher w) (editorWatcher w)
    (sectionFinder w) (cache w) (visibleTextEditors w) (activeTextEditor w)
    (workspaceFolders w) (now w) (rendered w)
    (leakedWatchers w) (leakedListeners w).

Definition appendLine (e : LogEntry) (w : World) : World :=
  mkWorld (statusBar w) (configStore w) (outputChannel w ++ [e]) (renderer w)
    (isCoverageDisplayed w) (coverageWatcher w) (editorWatcher w)
    (sectionFinder w) (cache w) (visibleTextEditors w) (activeTextEditor w)
    (workspaceFolders w) (now w) (rendered w)
    (leakedWatchers w) (leakedListeners w).

Definition with_isCoverageDisplayed (b : bool) (w : World) : World :=
  mkWorld (statusBar w) (configStore w) (outputChannel w) (renderer w)
    b (coverageWatcher w) (editorWatcher w)
    (sectionFinder w) (cache w) (visibleTextEditors w) (activeTextEditor w)
    (workspaceFolders w) (now w) (rendered w)
    (leakedWatchers w) (leakedListeners w).

Definition with_watchers (c : option string) (e : bool) (w : World) : World :=
  mkWorld (statusBar w) (configStore w) (outputChannel w) (renderer w)
    (isCoverageDisplayed w) c e
    (sectionFinder w) (cache w) (visibleTextEditors w) (activeTextEditor w)
    (workspaceFolders w) (now w) (rendered w)
    (leakedWatchers w) (leakedListeners w).

Definition with_cache (c : Cache) (w : World) : World :=
  mkWorld (statusBar w) (configStore w) (outputChannel w) (renderer w)
    (isCoverageDisplayed w) (coverageWatcher w) (editorWatcher w)
    (sectionFinder w) c (visibleTextEditors w) (activeTextEditor w)
    (workspaceFolders w) (now w) (rendered w)
    (leakedWatchers w) (leakedListeners w).

Definition with_rendered (r : RenderCall) (w : World) : World :=
  mkWorld (statusBar w) (configStore w) (outputChannel w) (renderer w)
    (isCoverageDisplayed w) (coverageWatcher w) (editorWatcher w)
    (sectionFinder w) (cache w) (visibleTextEditors w) (activeTextEditor w)
    (workspaceFolders w) (now w) (rendered w ++ [r])
    (leakedWatchers w) (leakedListeners w).

(** What the host may change behind the service's back: editors, folders
    and the clock. *)
Definition with_host (visible : option (list TextEditor))
  (active : option TextEditor) (t : Z) (w : World) : World :=
  mkWorld (statusBar w) (configStore w) (outputChannel w) (renderer w)
    (isCoverageDisplayed w) (coverageWatcher w) (editorWatcher w)
    (sectionFinder w) (cache w) visible active
    (workspaceFolders w) t (rendered w)
    (leakedWatchers w) (leakedListeners w).

(** A watcher drops out of its field while live. *)
Definition with_leaked (watchers : list string) (listeners : nat)
  (w : World) : World :=
  mkWorld (statusBar w) (configStore w) (outputChannel w) (renderer w)
    (isCoverageDisplayed w) (coverageWatcher w) (editorWatcher w)
    (sectionFinder w) (cache w) (visibleTextEditors w) (activeTextEditor w)
    (workspaceFolders w) (now w) (rendered w) watchers listeners.

(* ================================================================= *)
(** ** Asynchronous functions *)

(** The promises the service awaits from [FilesLoader] and
    [CoverageParser]; [Set<string>] and [Map<string, string>] as lists in
    insertion order. *)
Inductive Request : Type -> Type :=
| findCoverageFiles : Request (list string)
| loadDataFiles (files : list string) : Request (list (string * string))
| filesToSections (dataFiles : list (string * string)) : Request Cache.

(** The body of a method.  [Atomic] is synchronous code: it runs on the
    current world without interruption.  [Await] suspends on a
    collaborator's promise and resumes with its outcome.  [Resume] is the
    suspension of [await] on the promise of one of the service's own
    [async] methods, which has settled already: the rest runs in a later
    microtask. *)
Inductive Async (A : Type) : Type :=
| Return (a : A)
| Throw (e : Error)
| Atomic {X : Type} (f : World -> World * X) (k : X -> Async A)
| Await {X : Type} (r : Request X) (k : Error + X -> Async A)
| Resume (k : Async A).

Arguments Return {A} a.
Arguments Throw {A} e.
Arguments Atomic {A X} f k.
Arguments Await {A X} r k.
Arguments Resume {A} k.

Fixpoint bind {A B : Type} (m : Async A) (f : A -> Async B) : Async B :=
  match m with
  | Return a => f a
  | Throw e => Throw e
  | Atomic g k => Atomic g (fun x => bind (k x) f)
  | Await r k => Await r (fun x => bind (k x) f)
  | Resume k => Resume (bind k f)
  end.

Declare Scope async_scope.
Delimit Scope async_scope with async.
Notation "x <- m ;; k" := (bind m (fun x => k))
  (at level 61, m at next level, right associativity) : async_scope.
Notation "m ;; k" := (bind m (fun _ => k))
  (at level 61, right associativity) : async_scope.
Local Open Scope async_scope.

(** [try { body } finally { final }]: [final] runs on both exits, and an
    exception of [final] replaces the outcome of [body]. *)
Fixpoint try_finally {A : Type} (body : Async A) (final : Async unit)
  : Async A :=
  match body with
  | Return a => final ;; Return a
  | Throw e => final ;; Throw e
  | Atomic g k => Atomic g (fun x => try_finally (k x) final)
  | Await r k => Await r (fun x => try_finally (k x) final)
  | Resume k => Resume (try_finally k final)
  end.

(** [try { body } catch { handler }]. *)
Fixpoint try_catch {A : Type} (body : Async A) (handler : Error -> Async A)
  : Async A :=
  match body with
  | Return a => Return a
  | Throw e => handler e
  | Atomic g k => Atomic g (fun x => try_catch (k x) handler)
  | Await r k => Await r (fun x => try_catch (k x) handler)
  | Resume k => Resume (try_catch k handler)
  end.

Definition settle {X : Type} (outcome : Error + X) : Async X :=
  match outcome with
  | inl e => Throw e
  | inr x => Return x
  end.

(** A statement that updates the world. *)
Definition exec (f : World -> World) : Async unit :=
  Atomic (fun w => (f w, tt)) Return.

(** An expression read from the world. *)
Definition read {X : Type} (f : World -> X) : Async X :=
  Atomic (fun w => (w, f w)) Return.

(** A synchronous call that may throw. *)
Definition call {X : Type} (f : World -> World * (Error + X)) : Async X :=
  Atomic f settle.

(** [await] on a collaborator's promise. *)
Definition await {X : Type} (r : Request X) : Async X :=
  Await r settle.

(** [await this.m()] for an [async] method [m] of the service: [m] runs up
    to its own suspensions, and once it has settled the caller goes on in
    a later microtask. *)
Fixpoint await_own {A : Type} (m : Async A) : Async A :=
  match m with
  | Return a => Resume (Return a)
  | Throw e => Resume (Throw e)
  | Atomic g k => Atomic g (fun x => await_own (k x))
  | Await r k => Await r (fun x => await_own (k x))
  | Resume k => Resume (await_own k)
  end.

(** Where a method stands when control returns to the event loop. *)
Inductive Paused (A : Type) : Type :=
| Finished (outcome : Error + A)
| Pending {X : Type} (r : Request X) (k : Error + X -> Async A)
| Queued (k : Async A).

Arguments Finished {A} outcome.
Arguments Pending {A X} r k.
Arguments Queued {A} k.

(** Run the synchronous code up to the next suspension. *)
Fixpoint run_sync {A : Type} (p : Async A) (w : World) : World * Paused A :=
  match p with
  | Return a => (w, Finished (inr a))
  | Throw e => (w, Finished (inl e))
  | Atomic f k => let (w', x) := f w in run_sync (k x) w'
  | Await r k => (w, Pending r k)
  | Resume k => (w, Queued k)
  end.

(** How the collaborators' promises settle. *)
Definition Oracle : Type := forall X : Type, Request X -> Error + X.

(** An oracle for methods that never ask it. *)
Definition silent : Oracle := fun X _ => inl (JsError "").

(** Run a method to its end with nothing else scheduled in between. *)
Fixpoint run {A : Type} (o : Oracle) (p : Async A) (w : World)
  : World * (Error + A) :=
  match p with
  | Return a => (w, inr a)
  | Throw e => (w, inl e)
  | Atomic f k => let (w', x) := f w in run o (k x) w'
  | Await r k => run o (k (o _ r)) w
  | Resume k => run o k w
  end.

(* ================================================================= *)
(** ** The coverage service *)

Module CoverageService.

(** [new CoverageService(configStore, outputChannel, statusBar)] in a host
    with the given collaborators. *)
Definition new (configStore : Config) (outputChannel : list LogEntry)
  (statusBar : StatusBarToggler.t)
  (renderer : Cache -> option (list TextEditor) -> option Error)
  (sectionFinder : TextEditor -> Cache -> Error + list Section)
  (visible : option (list TextEditor)) (active : option TextEditor)
  (folders : option (list string)) (now : Z) : World :=
  mkWorld statusBar configStore
    (outputChannel ++ [StateLine now initializing]) renderer false None false
    sectionFinder [] visible active folders now [] [] O.

Definition updateServiceState (state : Status) : Async unit :=
  exec (fun w => appendLine (StateLine (now w) state) w).

(** [this.outputChannel.appendLine(`[${Date.now()}][coverageservice]: ...`)]. *)
Definition log (message : string) : Async unit :=
  exec (fun w => appendLine (InfoLine (now w) message) w).

(** [${collection.size}]. *)
Definition size {X : Type} (l : list X) : string :=
  JS.decimal (Z.of_nat (List.length l)).

(** [this.renderer.renderCoverage(sections, editors)], arguments read when
    the call is made. *)
Definition renderCoverage (sections : World -> Cache)
  (editors : World -> option (list TextEditor)) : Async unit :=
  call (fun w =>
          (with_rendered (sections w, editors w) w,
           match renderer w (sections w) (editors w) with
           | Some e => inl e
           | None => inr tt
           end)).

Definition loadCache : Async unit :=
  updateServiceState loading ;;
  files <- await findCoverageFiles ;;
  log ("Loading " ++ size files ++ " file(s)") ;;
  log (join "," files) ;;
  dataFiles <- await (loadDataFiles files) ;;
  log ("Loaded " ++ size dataFiles ++ " data file(s)") ;;
  dataCoverage <- await (filesToSections dataFiles) ;;
  log ("Caching " ++ size dataCoverage ++ " coverage(s)") ;;
  exec (with_cache dataCoverage) ;;
  updateServiceState ready.

(** [section?.lines?.hit] and the like. *)
Definition lines_hit (s : option Section) : JS.value :=
  match s with
  | Some {| lines := Some c |} => hit c
  | _ => JS.undefined
  end.

Definition lines_found (s : option Section) : JS.value :=
  match s with
  | Some {| lines := Some c |} => found c
  | _ => JS.undefined
  end.

Definition branches_hit (s : option Section) : JS.value :=
  match s with
  | Some {| branches := Some c |} => hit c
  | _ => JS.undefined
  end.

Definition branches_found (s : option Section) : JS.value :=
  match s with
  | Some {| branches := Some c |} => found c
  | _ => JS.undefined
  end.

(** The four accumulators of [setStatusBarCoverage]. *)
Record Totals : Type := mkTotals {
  total_lines_hit : JS.number;
  total_lines_found : JS.number;
  total_branches_hit : JS.number;
  total_branches_found : JS.number
}.

(** The body of [sections.forEach(it => ...)]. *)
Definition accumulate (t : Totals) (it : Section) : Totals :=
  mkTotals
    (JS.add (total_lines_hit t) (JS.ToNumber (lines_hit (Some it))))
    (JS.add (total_lines_found t) (JS.ToNumber (lines_found (Some it))))
    (JS.add (total_branches_hit t)
            (JS.or_default (branches_hit (Some it)) (JS.of_Z 0)))
    (JS.add (total_branches_found t)
            (JS.or_default (branches_found (Some it)) (JS.of_Z 0))).

Definition totals (sections : Cache) : Totals :=
  fold_left accumulate (map snd sections)
    (mkTotals (JS.of_Z 0) (JS.of_Z 0) (JS.of_Z 0) (JS.of_Z 0)).

(** [Math.round((a / b) * 100)]. *)
Definition percent (a b : JS.number) : JS.number :=
  JS.Math_round (JS.mul (JS.div a b) (JS.of_Z 100)).

(** [const coverage], from the first section found for the editor. *)
Definition coverage (fileCoverage : option Section) : JS.number :=
  percent (JS.ToNumber (lines_hit fileCoverage))
          (JS.ToNumber (lines_found fileCoverage)).

(** [const b_coverage]. *)
Definition b_coverage (fileCoverage : option Section) : JS.number :=
  percent (JS.or_default (branches_hit fileCoverage) (JS.of_Z 0))
          (JS.or_default (branches_found fileCoverage) (JS.of_Z 1)).

(** [const total_coverage]. *)
Definition total_coverage (sections : Cache) : JS.number :=
  let t := totals sections in
  if JS.eq_zero (total_lines_found t) then JS.of_Z 0
  else percent (total_lines_hit t) (total_lines_found t).

(** [const b_total_coverage]. *)
Definition b_total_coverage (sections : Cache) : JS.number :=
  let t := totals sections in
  if JS.eq_zero (total_branches_found t) then JS.of_Z 0
  else percent (total_branches_hit t) (total_branches_found t).

(** [this.statusBar.setCoverage(undefined)]. *)
Definition no_coverage : StatusBarToggler.t -> StatusBarToggler.t :=
  StatusBarToggler.setCoverage JS.undefined JS.undefined JS.undefined
    JS.undefined.

Definition setStatusBarCoverage (sections : Cache)
  (textEditor : option TextEditor) : Async unit :=
  try_catch
    match textEditor with
    | None => exec (with_statusBar no_coverage)
    | Some editor =>
        matches <- call (fun w => (w, sectionFinder w editor sections)) ;;
        let fileCoverage := hd_error matches in
        exec (with_statusBar
                (StatusBarToggler.setCoverage
                   (JS.Num (coverage fileCoverage))
                   (JS.Num (total_coverage sections))
                   (JS.Num (b_coverage fileCoverage))
                   (JS.Num (b_total_coverage sections))))
    end
    (fun _ => exec (with_statusBar no_coverage)).

Definition setLoading (l : bool) : Async unit :=
  exec (with_statusBar (StatusBarToggler.setLoading (Some l))).

Definition loadCacheAndProcess : Async unit :=
  try_finally
    (setLoading true ;;
     await_own loadCache ;;
     updateServiceState rendering ;;
     renderCoverage cache visibleTextEditors ;;
     sections <- read cache ;;
     editor <- read activeTextEditor ;;
     setStatusBarCoverage sections editor ;;
     updateServiceState ready)
    (setLoading false).

Definition handleEditorEvents : Async unit :=
  try_finally
    (updateServiceState rendering ;;
     setLoading true ;;
     renderCoverage cache
       (fun w => Some (match visibleTextEditors w with
                       | Some editors => editors
                       | None => []
                       end)) ;;
     sections <- read cache ;;
     editor <- read activeTextEditor ;;
     setStatusBarCoverage sections editor ;;
     updateServiceState ready)
    (setLoading false).

Definition removeCoverageForCurrentEditor : Async unit :=
  try_finally
    (setLoading true ;;
     renderCoverage (fun _ => []) visibleTextEditors)
    (setLoading false ;;
     exec (with_isCoverageDisplayed false)).

Definition displayForFile : Async unit :=
  await_own loadCacheAndProcess ;;
  exec (with_isCoverageDisplayed true).

(** A call of an [async] method that is not awaited: what it throws
    rejects its promise and does not reach the caller.  Used for
    [removeCoverageForCurrentEditor] only, which never suspends. *)
Definition unawaited (m : Async unit) : Async unit :=
  try_catch m (fun _ => Return tt).

Definition toggleCoverage : Async unit :=
  displayed <- read isCoverageDisplayed ;;
  if displayed : bool then unawaited removeCoverageForCurrentEditor
  else await_own displayForFile.

(** [let blobPattern] of [listenToFileSystem]; an array in a template
    literal reads as its elements joined by commas. *)
Definition blobPattern (config : Config) (folders : option (list string))
  : string :=
  match manualCoverageFilePaths config with
  | _ :: _ => "{" ++ join "," (manualCoverageFilePaths config) ++ "}"
  | [] =>
      let fileNames := join "," (coverageFileNames config) in
      let baseDir :=
        match folders with
        | Some workspaceFolders =>
            "{" ++ join "," workspaceFolders ++ "}/"
                ++ coverageBaseDir config
        | None => coverageBaseDir config
        end in
      baseDir ++ "/{" ++ fileNames ++ "}"
  end.

(** [this.coverageWatcher = ...]: the field takes the new watcher, and
    the watcher it held is not disposed. *)
Definition set_coverageWatcher (pattern : string) (w : World) : World :=
  with_watchers (Some pattern) (editorWatcher w)
    (with_leaked
       (leakedWatchers w ++ match coverageWatcher w with
                            | Some held => [held]
                            | None => []
                            end)%list
       (leakedListeners w) w).

(** [this.editorWatcher = ...], likewise. *)
Definition set_editorWatcher (w : World) : World :=
  with_watchers (coverageWatcher w) true
    (with_leaked (leakedWatchers w)
       (if editorWatcher w then S (leakedListeners w) else leakedListeners w)
       w).

(** The watcher is recorded by the pattern it watches; its three
    callbacks are [loadCacheAndProcess]. *)
Definition listenToFileSystem : Async unit :=
  config <- read configStore ;;
  folders <- read workspaceFolders ;;
  let blobPattern := blobPattern config folders in
  log ("Listening to file system at " ++ blobPattern) ;;
  exec (set_coverageWatcher blobPattern).

Definition listenToEditorEvents : Async unit :=
  exec set_editorWatcher.

Definition watchWorkspace : Async unit :=
  await_own displayForFile ;;
  listenToFileSystem ;;
  listenToEditorEvents.

(** The watchers the two fields hold are disposed, and a disposed watcher
    calls back no more; the watchers no field holds stay live. *)
Definition dispose : Async unit :=
  exec (with_watchers None false) ;;
  exec (with_cache []) ;;
  renderCoverage cache visibleTextEditors.

End CoverageService.

(* ================================================================= *)
(** ** The event loop *)

(** What a task was told by the event loop, oldest first: the outcome of a
    promise it awaited, or that it went on after a settled one. *)
Inductive Exchange : Type :=
| Heard {X : Type} (r : Request X) (outcome : Error + X)
| Continued.

(** A started call of [loadCacheAndProcess]: where it stands and what it
    was told so far. *)
Record Task : Type := mkTask {
  pc : Paused unit;
  heard : list Exchange
}.

Record System : Type := mkSystem {
  world : World;
  tasks : list Task
}.

(** What the host does between two pieces of synchronous code: it calls
    a callback of a live file-system watcher, a coverage file having been
    created, changed or deleted; it calls a live listener, the active
    editor having changed; the promise task [i] waits for settles as [o]
    says (or task [i] goes on after a settled one); the clock advances.
    A change that several live watchers observe is as many events. *)
Inductive Event : Type :=
| FileChanged
| EditorChanged (visible : option (list TextEditor))
                (active : option TextEditor)
| Settled (i : nat) (o : Oracle)
| Elapsed (t : Z).

Fixpoint replace {X : Type} (i : nat) (x : X) (l : list X) : list X :=
  match l, i with
  | [], _ => []
  | _ :: rest, O => x :: rest
  | y :: rest, S j => y :: replace j x rest
  end.

(** A callback registered by [listenToFileSystem] is called: a new cycle
    runs up to its first suspension and joins the tasks. *)
Definition spawn (p : Async unit) (s : System) : System :=
  let (w, stop) := run_sync p (world s) in
  mkSystem w (tasks s ++ [mkTask stop []]).

(** Task [i] is resumed, with the outcome of the promise it waits for. *)
Definition wake (i : nat) (o : Oracle) (s : System) : System :=
  match nth_error (tasks s) i with
  | Some t =>
      match pc t with
      | Finished _ => s
      | Pending r k =>
          let (w, stop) := run_sync (k (o _ r)) (world s) in
          mkSystem w
            (replace i (mkTask stop (heard t ++ [Heard r (o _ r)])) (tasks s))
      | Queued k =>
          let (w, stop) := run_sync k (world s) in
          mkSystem w (replace i (mkTask stop (heard t ++ [Continued])) (tasks s))
      end
  | None => s
  end.

(** Some file-system watcher of the service is live: the one the field
    holds or a leaked one. *)
Definition watched (w : World) : bool :=
  match coverageWatcher w, leakedWatchers w with
  | None, [] => false
  | _, _ => true
  end.

(** Some editor listener of the service is live. *)
Definition listened (w : World) : bool :=
  editorWatcher w || negb (Nat.eqb (leakedListeners w) 0).

Definition step (e : Event) (s : System) : System :=
  match e with
  | FileChanged =>
      if watched (world s) then spawn CoverageService.loadCacheAndProcess s
      else s
  | EditorChanged visible active =>
      let w := with_host visible active (now (world s)) (world s) in
      if listened w then
        mkSystem (fst (run_sync CoverageService.handleEditorEvents w)) (tasks s)
      else mkSystem w (tasks s)
  | Settled i o => wake i o s
  | Elapsed t =>
      let w := world s in
      mkSystem (with_host (visibleTextEditors w) (activeTextEditor w) t w)
               (tasks s)
  end.

(** The system after a sequence of events. *)
Definition play (events : list Event) (s : System) : System :=
  fold_left (fun s e => step e s) events s.

(** Every piece of synchronous code of [p] satisfies [P]: [P h w w' stop]
    relates the world [w] a piece starts in, after the exchanges [h], to
    the world [w'] it leaves and says whether the method ended there
    ([stop] is its outcome then).  A later piece may start in any world. *)
Fixpoint pieces {A : Type}
  (P : list Exchange -> World -> World -> option (Error + A) -> Prop)
  (h : list Exchange) (w0 : World) (p : Async A) (w : World) : Prop :=
  match p with
  | Return a => P h w0 w (Some (inr a))
  | Throw e => P h w0 w (Some (inl e))
  | Atomic f k => pieces P h w0 (k (snd (f w))) (fst (f w))
  | Await r k =>
      P h w0 w None
      /\ forall a w', pieces P (h ++ [Heard r a]) w' (k a) w'
  | Resume k =>
      P h w0 w None /\ forall w', pieces P (h ++ [Continued]) w' k w'
  end.

(** The same for a method that is suspended. *)
Definition paused_pieces {A : Type}
  (P : list Exchange -> World -> World -> option (Error + A) -> Prop)
  (h : list Exchange) (stop : Paused A) : Prop :=
  match stop with
  | Finished _ => True
  | Pending r k => forall a w, pieces P (h ++ [Heard r a]) w (k a) w
  | Queued k => forall w, pieces P (h ++ [Continued]) w k w
  end.

Definition outcome_of {A : Type} (stop : Paused A) : option (Error + A) :=
  match stop with
  | Finished r => Some r
  | _ => None
  end.

(** A method body without suspension points. *)
Fixpoint synchronous {A : Type} (p : Async A) : Prop :=
  match p with
  | Return _ | Throw _ => True
  | Atomic f k => forall x, synchronous (k x)
  | Await _ _ | Resume _ => False
  end.

(* ================================================================= *)
(** ** Vocabulary of the specification *)

(** A percentage is present when it is a finite number; [undefined], [NaN]
    and the infinities count as absent. *)
Definition present (v : JS.value) : Prop :=
  match v with
  | JS.Num (JS.Fin _) => True
  | _ => False
  end.

Definition absent (v : JS.value) : Prop := ~ present v.

(** The presenter shows "no coverage": it is in the state
    [setCoverage(undefined)] leaves it in. *)
Definition presents_no_coverage (before after : StatusBarToggler.t) : Prop :=
  after = CoverageService.no_coverage before.

(** The status bar after [setStatusBarCoverage(sections, textEditor)]. *)
Definition bar_after (w : World) (sections : Cache)
  (textEditor : option TextEditor) : StatusBarToggler.t :=
  statusBar
    (fst (run_sync (CoverageService.setStatusBarCoverage sections textEditor)
                   w)).

(** A section without line data. *)
Definition malformed (s : Section) : Prop := lines s = None.

(** The cases in which there is no per-file percentage to show: no editor,
    a failing lookup, no section for the editor, or a first section whose
    line data is missing, has a missing count or has found zero lines. *)
Inductive no_data (w : World) (sections : Cache)
  : option TextEditor -> Prop :=
| missing_editor : no_data w sections None
| lookup_throws (editor : TextEditor) (e : Error) :
    sectionFinder w editor sections = inl e ->
    no_data w sections (Some editor)
| no_match (editor : TextEditor) :
    sectionFinder w editor sections = inr [] ->
    no_data w sections (Some editor)
| malformed_match (editor : TextEditor) (s : Section) (rest : list Section) :
    sectionFinder w editor sections = inr (s :: rest) ->
    malformed s ->
    no_data w sections (Some editor)
| missing_count (editor : TextEditor) (s : Section) (rest : list Section)
    (c : Counts) :
    sectionFinder w editor sections = inr (s :: rest) ->
    lines s = Some c ->
    hit c = JS.undefined \/ found c = JS.undefined ->
    no_data w sections (Some editor)
| zero_found (editor : TextEditor) (s : Section) (rest : list Section)
    (c : Counts) (q : Q) :
    sectionFinder w editor sections = inr (s :: rest) ->
    lines s = Some c ->
    found c = JS.Num (JS.Fin q) ->
    (q == 0)%Q ->
    no_data w sections (Some editor).

(** Natural-number counts, as a coverage report gives them. *)
Definition counts (h f : N) : Counts :=
  mkCounts (JS.Num (JS.of_N h)) (JS.Num (JS.of_N f)).

(** A section with line counts [h] of [f] and no branch data. *)
Definition line_section (name : string) (h f : N) : Section :=
  mkSection name name (Some (counts h f)) None.

(** [v] is a finite number below [bound]. *)
Definition below (v : JS.value) (bound : Z) : Prop :=
  match v with
  | JS.Num (JS.Fin q) => (q < inject_Z bound)%Q
  | _ => False
  end.

(** The section under key [kv] carries the natural line counts [hf]
    (hit, found). *)
Definition counted (kv : string * Section) (hf : N * N) : Prop :=
  lines (snd kv) = Some (counts (fst hf) (snd hf)).

(** The sums of the hit and of the found line counts. *)
Definition sum_hit (tallies : list (N * N)) : Z :=
  fold_right (fun hf acc => Z.of_N (fst hf) + acc) 0 tallies.

Definition sum_found (tallies : list (N * N)) : Z :=
  fold_right (fun hf acc => Z.of_N (snd hf) + acc) 0 tallies.

(** Rounding of an exact rational to the nearest integer, ties up. *)
Definition rounded (q : Q) : Z := Qfloor (q + (1 # 2)).

(** [100 * h / f], exactly. *)
Definition exact_percentage (h f : Z) : Q :=
  (inject_Z (100 * h) / inject_Z f)%Q.

(** [2^-51]: twice the relative error of the two roundings of
    [(h / f) * 100]. *)
Definition slack : Q := 1 # 2251799813685248.


(** The step of a cycle run in [w] under [o] that failed with [e]:
    discovery, reading, parsing or rendering. *)
Definition failure_of (o : Oracle) (w : World) (e : Error) : Prop :=
  o _ findCoverageFiles = inl e
  \/ exists files,
       o _ findCoverageFiles = inr files
       /\ (o _ (loadDataFiles files) = inl e
           \/ exists dataFiles,
                o _ (loadDataFiles files) = inr dataFiles
                /\ (o _ (filesToSections dataFiles) = inl e
                    \/ exists dataCoverage,
                         o _ (filesToSections dataFiles) = inr dataCoverage
                         /\ renderer w dataCoverage (visibleTextEditors w)
                            = Some e)).

(** Discovery, reading or parsing, whichever comes first to reject, does
    so with [e]. *)
Definition loading_fails (o : Oracle) (e : Error) : Prop :=
  o _ findCoverageFiles = inl e
  \/ exists files,
       o _ findCoverageFiles = inr files
       /\ (o _ (loadDataFiles files) = inl e
           \/ exists dataFiles,
                o _ (loadDataFiles files) = inr dataFiles
                /\ o _ (filesToSections dataFiles) = inl e).

(** The three promises resolve, with the sections [dataCoverage] last. *)
Definition loads (o : Oracle) (dataCoverage : Cache) : Prop :=
  exists files dataFiles,
    o _ findCoverageFiles = inr files
    /\ o _ (loadDataFiles files) = inr dataFiles
    /\ o _ (filesToSections dataFiles) = inr dataCoverage.

(** The three promises resolve and the renderer throws [e] on the
    sections parsed. *)
Definition rendering_fails (o : Oracle) (w : World) (e : Error) : Prop :=
  exists dataCoverage,
    loads o dataCoverage
    /\ renderer w dataCoverage (visibleTextEditors w) = Some e.

(** The three promises resolve and the renderer does not throw. *)
Definition cycle_succeeds (o : Oracle) (w : World) : Prop :=
  exists dataCoverage,
    loads o dataCoverage
    /\ renderer w dataCoverage (visibleTextEditors w) = None.

(** Task [i] of the system has run to its end. *)
Definition ended (s : System) (i : nat) : Prop :=
  match nth_error (tasks s) i with
  | Some t => outcome_of (pc t) <> None
  | None => False
  end.

(** [window.visibleTextEditors || []]. *)
Definition visible_or_none (w : World) : option (list TextEditor) :=
  Some (match visibleTextEditors w with
        | Some editors => editors
        | None => []
        end).

(** The exchanges of a cycle whose three promises resolved, with the
    sections its parser returned: it discovered [files], read exactly
    those, and parsed exactly what it read. *)
Definition snapshot (h : list Exchange) (c : Cache) : Prop :=
  exists files dataFiles,
    h = [Heard findCoverageFiles (inr files);
         Heard (loadDataFiles files) (inr dataFiles);
         Heard (filesToSections dataFiles) (inr c)].

(** Task [t] produced the cache [c] by its own discovery, reading and
    parsing. *)
Definition produced_by (t : Task) (c : Cache) : Prop :=
  snapshot (firstn 3 (heard t)) c.

(** What one piece of a cycle does, started in [w0] after the exchanges
    [h] and leaving [w']: the piece that follows the resolved parse
    stores the parsed sections and every other piece leaves the cache
    alone; the first piece sets the loading indicator and suspends; a
    piece that ends the cycle clears the indicator; and a cycle ends
    without error only after its three promises resolved. *)
Definition cycle_piece (h : list Exchange) (w0 w' : World)
  (stop : option (Error + unit)) : Prop :=
  ((exists c, snapshot h c /\ cache w' = c)
   \/ ((forall c, ~ snapshot h c) /\ cache w' = cache w0))
  /\ (stop <> None -> StatusBarToggler.isLoading (statusBar w') = false)
  /\ (h = [] ->
      stop = None /\ StatusBarToggler.isLoading (statusBar w') = true)
  /\ (stop = Some (inr tt) -> exists c, snapshot (firstn 3 h) c).

(** The promise of the exchange was rejected. *)
Definition rejected (x : Exchange) : bool :=
  match x with
  | Heard _ (inl _) => true
  | _ => false
  end.

(** A task whose remaining pieces all satisfy [cycle_piece]. *)
Definition task_ok (t : Task) : Prop :=
  paused_pieces cycle_piece (heard t) (pc t).

(** The cache of the system is the one some task produced. *)
Definition from_a_cycle (s : System) : Prop :=
  exists i t,
    nth_error (tasks s) i = Some t /\ produced_by t (cache (world s)).

(** Task [i] has ended without error. *)
Definition ended_well (s : System) (i : nat) : Prop :=
  match nth_error (tasks s) i with
  | Some t => outcome_of (pc t) = Some (inr tt)
  | None => False
  end.

(** What holds of the system after any events, [c0] being the cache
    before them: the tasks are cycles; the cache is [c0] or the one some
    task produced, and the latter as soon as any task has had its three
    promises resolved; and a task that ended without error has. *)
Definition invariant (c0 : Cache) (s : System) : Prop :=
  Forall task_ok (tasks s)
  /\ (cache (world s) = c0 \/ from_a_cycle s)
  /\ ((exists i t c, nth_error (tasks s) i = Some t /\ produced_by t c) ->
      from_a_cycle s)
  /\ Forall (fun t => outcome_of (pc t) = Some (inr tt) ->
                      exists c, produced_by t c) (tasks s).

(** What one event does to the tasks and to the cache: nothing; or a new
    task that has heard nothing and is suspended; or one more piece of a
    task that had not ended. *)
Inductive effect (s s' : System) : Prop :=
| quiet :
    tasks s' = tasks s ->
    cache (world s') = cache (world s) ->
    effect s s'
| started (t' : Task) :
    tasks s' = (tasks s ++ [t'])%list ->
    heard t' = [] ->
    task_ok t' ->
    outcome_of (pc t') = None ->
    cache (world s') = cache (world s) ->
    effect s s'
| resumed (i : nat) (t t' : Task) (x : Exchange) :
    nth_error (tasks s) i = Some t ->
    outcome_of (pc t) = None ->
    tasks s' = replace i t' (tasks s) ->
    heard t' = (heard t ++ [x])%list ->
    task_ok t' ->
    cycle_piece (heard t') (world s) (world s') (outcome_of (pc t')) ->
    effect s s'.

(* ================================================================= *)
(** ** Sample inputs *)

Module Sample.

Definition config : Config := mkConfig true [] ["lcov.info"] "**".

Definition bar : StatusBarToggler.t :=
  StatusBarToggler.toggle true (StatusBarToggler.new config).

(** A presenter left in the warn state by [setCoverage(10, 10, 10, 10)]. *)
Definition warned : StatusBarToggler.t :=
  StatusBarToggler.setCoverage (JS.Num (JS.of_Z 10)) (JS.Num (JS.of_Z 10))
    (JS.Num (JS.of_Z 10)) (JS.Num (JS.of_Z 10)) bar.

Definition editor : TextEditor := mkEditor "a.ts".

(** A lookup by file name. *)
Definition finder (e : TextEditor) (c : Cache) : Error + list Section :=
  inr (map snd (filter (fun kv => String.eqb (fst kv) (fileName e)) c)).

Definition world (c : Cache) : World :=
  mkWorld bar config [] (fun _ _ => None) false None false finder c
    (Some [editor]) (Some editor) None 1700000000000 [] [] O.

(** The same service once [watchWorkspace] has registered its watchers. *)
Definition watching (c : Cache) : World :=
  mkWorld bar config [] (fun _ _ => None) true (Some "**/{lcov.info}") true
    finder c (Some [editor]) (Some editor) None 1700000000000 [] [] O.

(** The same host with a renderer that throws. *)
Definition broken_renderer (c : Cache) : World :=
  mkWorld bar config [] (fun _ _ => Some (JsError "render")) false None
    false finder c (Some [editor]) (Some editor) None 1700000000000 [] [] O.

Definition half : Cache := [("a.ts", line_section "a.ts" 5 10)].

(** One good section and one without line data. *)
Definition mixed : Cache :=
  [("a.ts", line_section "a.ts" 5 10);
   ("b.ts", mkSection "b.ts" "b.ts" None None)].

(** 23 lines hit of 40. *)
Definition tie : Cache := [("a.ts", line_section "a.ts" 23 40)].

(** Collaborators whose promises all resolve: one file, one section. *)
Definition resolves : Oracle :=
  fun X r =>
    match r in Request X return Error + X with
    | findCoverageFiles => inr ["lcov.info"]
    | loadDataFiles files => inr (map (fun f => (f, "SF:a.ts")) files)
    | filesToSections _ => inr half
    end.

(** Discovery rejects. *)
Definition rejects : Oracle :=
  fun X r =>
    match r in Request X return Error + X with
    | findCoverageFiles => inl (JsError "glob")
    | loadDataFiles _ => inl (JsError "read")
    | filesToSections _ => inl (JsError "parse")
    end.

(** Two file-change notifications in a burst; the second cycle overtakes
    the first, and both run to their end. *)
Definition burst : list Event :=
  [FileChanged; FileChanged;
   Settled 0 resolves; Settled 1 resolves; Settled 1 resolves;
   Settled 1 resolves; Settled 0 resolves; Settled 0 resolves;
   Settled 1 resolves; Settled 0 resolves].

End Sample.

(* ================================================================= *)
(** ** Clients of the presenter *)

(** A call of one of the public methods of the presenter that change it. *)
Inductive Call : Type :=
| Toggle (active : bool)
| SetLoading (flag : option bool)
| SetCoverage (linePercentage totalLinePercentage branchPercentage
                 totalBranchPercentage : JS.value).

Definition perform (c : Call) (b : StatusBarToggler.t) : StatusBarToggler.t :=
  match c with
  | Toggle active => StatusBarToggler.toggle active b
  | SetLoading flag => StatusBarToggler.setLoading flag b
  | SetCoverage l tl br tb => StatusBarToggler.setCoverage l tl br tb b
  end.

(** The presenter after a sequence of calls, oldest first. *)
Definition after (calls : list Call) (b : StatusBarToggler.t)
  : StatusBarToggler.t :=
  fold_left (fun b c => perform c b) calls b.

(* ================================================================= *)
(** ** Reports with natural counts *)

(** The section under key [kv] carries the natural branch counts [hf]
    (hit, found), or it has no branch data and [hf] is 0 of 0. *)
Definition branch_counted (kv : string * Section) (hf : N * N) : Prop :=
  match branches (snd kv) with
  | Some c => c = counts (fst hf) (snd hf)
  | None => hf = (0%N, 0%N)
  end.

(** No more hit than found. *)
Definition sound (hf : N * N) : Prop := (fst hf <= snd hf)%N.

(* ================================================================= *)
(** ** Cycles in the event loop *)

(** A task whose remaining pieces all satisfy [P]. *)
Definition task_follows
  (P : list Exchange -> World -> World -> option (Error + unit) -> Prop)
  (t : Task) : Prop :=
  paused_pieces P (heard t) (pc t).

(** What one piece of a cycle asks of the renderer: nothing; or, in the
    piece that ends a cycle whose three promises resolved, one call with
    the cache and the visible editors as the piece finds them. *)
Definition render_piece (h : list Exchange) (w0 w' : World)
  (stop : option (Error + unit)) : Prop :=
  rendered w' = rendered w0
  \/ (rendered w' = (rendered w0 ++ [(cache w0, visibleTextEditors w0)])%list
      /\ (exists c, snapshot (firstn 3 h) c)
      /\ stop <> None).

(* ================================================================= *)
(** ** The presenter *)

Lemma present_isFinite (v : JS.value) :
  present v <-> JS.Number_isFinite v = true.
Proof.
  destruct v as [|[| |q]]; simpl; split; intros H;
    try exact I; try reflexivity; try contradiction; discriminate.
Qed.

Lemma absent_isFinite (v : JS.value) :
  absent v <-> JS.Number_isFinite v = false.
Proof.
  unfold absent. rewrite present_isFinite.
  destruct (JS.Number_isFinite v); split; intros H;
    try reflexivity; try discriminate; try (intros H'; discriminate).
  exfalso. apply H. reflexivity.
Qed.

Lemma setCoverage_absent (v a b c : JS.value) (bar : StatusBarToggler.t) :
  JS.Number_isFinite v = false ->
  StatusBarToggler.setCoverage v a b c bar = CoverageService.no_coverage bar.
Proof.
  intros H. unfold CoverageService.no_coverage, StatusBarToggler.setCoverage.
  rewrite H. reflexivity.
Qed.

Lemma or_default_present (q : Q) :
  JS.or_default (JS.Num (JS.Fin q)) (JS.of_Z 0)
  = if Qeq_bool q 0 then JS.of_Z 0 else JS.Fin q.
Proof.
  unfold JS.or_default, JS.truthy, JS.is_zero, JS.ToNumber.
  destruct (Qeq_bool q 0); reflexivity.
Qed.

Lemma lt_Fin (x y : Q) : JS.lt (JS.Fin x) (JS.Fin y) = true <-> (x < y)%Q.
Proof.
  unfold JS.lt. rewrite Qlt_alt.
  destruct (x ?= y)%Q; split; intros H; try reflexivity; discriminate.
Qed.

Lemma lt_below (v : JS.value) (bound : Z) :
  present v ->
  JS.lt (JS.or_default v (JS.of_Z 0)) (JS.of_Z bound) = true ->
  below v bound.
Proof.
  destruct v as [|[| |q]]; try contradiction. intros _.
  rewrite or_default_present. unfold JS.of_Z, below.
  destruct (Qeq_bool q 0) eqn:Hz; rewrite lt_Fin; intros H; [|exact H].
  apply Qeq_bool_eq in Hz. now rewrite Hz.
Qed.

Lemma below_lt (v : JS.value) (bound : Z) :
  below v bound ->
  JS.lt (JS.or_default v (JS.of_Z 0)) (JS.of_Z bound) = true.
Proof.
  destruct v as [|[| |q]]; try contradiction. unfold below. intros Hq.
  rewrite or_default_present. unfold JS.of_Z.
  destruct (Qeq_bool q 0) eqn:Hz; rewrite lt_Fin; [|exact Hq].
  apply Qeq_bool_eq in Hz. now rewrite <- Hz.
Qed.

(** C6.  [setCoverage] by cases: with four finite percentages the text is
    "{line},{branch}%/{totalLine},{totalBranch}%" and [isWarn] holds
    exactly when the total line percentage is below 60 or the total branch
    percentage below 40; with a branch percentage missing the text is
    "{line}%/{totalLine}%", with the total line percentage missing it is
    "{line}%", with the line percentage missing it is cleared, and
    [isWarn] is false in those three cases.  [isWarn] after the call does
    not depend on the presenter before it, and [setCoverage(55, 55, 70,
    70)] gives the warn state and the text "55,70%/55,70%". *)
Theorem setCoverage_cases
  (b : StatusBarToggler.t) (line totalLine branch totalBranch : JS.value) :
  let b' :=
    StatusBarToggler.setCoverage line totalLine branch totalBranch b in
  (present line -> present totalLine ->
   present branch -> present totalBranch ->
   StatusBarToggler.lineCoverage b'
   = Some (JS.template line ++ "," ++ JS.template branch ++ "%/"
           ++ JS.template totalLine ++ "," ++ JS.template totalBranch
           ++ "%")
   /\ (StatusBarToggler.isWarn b' = true
       <-> below totalLine 60 \/ below totalBranch 40))
  /\ (present line -> present totalLine ->
      absent branch \/ absent totalBranch ->
      StatusBarToggler.lineCoverage b'
      = Some (JS.template line ++ "%/" ++ JS.template totalLine ++ "%")
      /\ StatusBarToggler.isWarn b' = false)
  /\ (present line -> absent totalLine ->
      StatusBarToggler.lineCoverage b' = Some (JS.template line ++ "%")
      /\ StatusBarToggler.isWarn b' = false)
  /\ (absent line ->
      StatusBarToggler.lineCoverage b' = None
      /\ StatusBarToggler.isWarn b' = false)
  /\ (forall b0 : StatusBarToggler.t,
        StatusBarToggler.isWarn
          (StatusBarToggler.setCoverage line totalLine branch totalBranch b0)
        = StatusBarToggler.isWarn b')
  /\ (let shown :=
        StatusBarToggler.setCoverage (JS.Num (JS.of_Z 55))
          (JS.Num (JS.of_Z 55)) (JS.Num (JS.of_Z 70)) (JS.Num (JS.of_Z 70))
          b in
      StatusBarToggler.isWarn shown = true
      /\ StatusBarToggler.lineCoverage shown = Some "55,70%/55,70%").
Proof.
  intros b'. subst b'. unfold StatusBarToggler.setCoverage.
  split; [intros H1 H2 H3 H4
         |split; [intros H1 H2 H3
                 |split; [intros H1 H2
                         |split; [intros H1|split; [intros b0|]]]]].
  - pose proof H2 as P2. pose proof H4 as P4.
    apply present_isFinite in H1, H2, H3, H4. rewrite H1, H2, H3, H4.
    simpl andb. cbv iota.
    destruct (JS.lt (JS.or_default totalLine (JS.of_Z 0)) (JS.of_Z 60))
      eqn:E1;
      [|destruct (JS.lt (JS.or_default totalBranch (JS.of_Z 0))
                        (JS.of_Z 40)) eqn:E2];
      simpl orb; cbv iota; (split; [reflexivity|]).
    + split; [intros _|reflexivity]. left. now apply lt_below.
    + split; [intros _|reflexivity]. right. now apply lt_below.
    + split; [discriminate|]. intros [Hw|Hw]; apply below_lt in Hw; congruence.
  - apply present_isFinite in H1, H2. rewrite H1, H2.
    rewrite !absent_isFinite in H3.
    destruct H3 as [H3|H3]; rewrite H3; rewrite ?andb_false_r;
      split; reflexivity.
  - apply present_isFinite in H1. apply absent_isFinite in H2.
    rewrite H1, H2. split; reflexivity.
  - apply absent_isFinite in H1. rewrite H1. split; reflexivity.
  - destruct (JS.Number_isFinite line); [|reflexivity].
    destruct (JS.Number_isFinite totalLine); [|reflexivity].
    destruct (JS.Number_isFinite branch
              && JS.Number_isFinite totalBranch)%bool; [|reflexivity].
    destruct (_ || _)%bool; reflexivity.
  - split; vm_compute; reflexivity.
Qed.

(** The four cases of [setCoverage] at concrete percentages, the last three
    on a presenter left in the warn state by an earlier call. *)
Lemma setCoverage_cases_witness :
  (StatusBarToggler.lineCoverage
     (StatusBarToggler.setCoverage (JS.Num (JS.of_Z 90)) (JS.Num (JS.of_Z 80))
        (JS.Num (JS.of_Z 70)) (JS.Num (JS.of_Z 30)) Sample.bar)
   = Some "90,70%/80,30%"
   /\ StatusBarToggler.isWarn
        (StatusBarToggler.setCoverage (JS.Num (JS.of_Z 90))
           (JS.Num (JS.of_Z 80)) (JS.Num (JS.of_Z 70)) (JS.Num (JS.of_Z 30))
           Sample.bar) = true)
  /\ (StatusBarToggler.isWarn Sample.warned = true
      /\ StatusBarToggler.lineCoverage
           (StatusBarToggler.setCoverage (JS.Num (JS.of_Z 80))
              (JS.Num (JS.of_Z 90)) JS.undefined JS.undefined Sample.warned)
         = Some "80%/90%"
      /\ StatusBarToggler.isWarn
           (StatusBarToggler.setCoverage (JS.Num (JS.of_Z 80))
              (JS.Num (JS.of_Z 90)) JS.undefined JS.undefined Sample.warned)
         = false)
  /\ (StatusBarToggler.lineCoverage
        (StatusBarToggler.setCoverage (JS.Num (JS.of_Z 80)) JS.undefined
           JS.undefined JS.undefined Sample.warned) = Some "80%"
      /\ StatusBarToggler.isWarn
           (StatusBarToggler.setCoverage (JS.Num (JS.of_Z 80)) JS.undefined
              JS.undefined JS.undefined Sample.warned) = false)
  /\ (StatusBarToggler.lineCoverage
        (StatusBarToggler.setCoverage (JS.Num JS.NaN) (JS.Num (JS.of_Z 90))
           JS.undefined JS.undefined Sample.warned) = None
      /\ StatusBarToggler.isWarn
           (StatusBarToggler.setCoverage (JS.Num JS.NaN)
              (JS.Num (JS.of_Z 90)) JS.undefined JS.undefined Sample.warned)
         = false).
Proof.
  split; [|split; [|split]].
  - destruct (setCoverage_cases Sample.bar (JS.Num (JS.of_Z 90))
                (JS.Num (JS.of_Z 80)) (JS.Num (JS.of_Z 70))
                (JS.Num (JS.of_Z 30))) as (H & _).
    destruct (H I I I I) as (Ht & Hw). split; [exact Ht|].
    apply Hw. right. reflexivity.
  - destruct (setCoverage_cases Sample.warned (JS.Num (JS.of_Z 80))
                (JS.Num (JS.of_Z 90)) JS.undefined JS.undefined)
      as (_ & H & _).
    destruct (H I I (or_introl (fun F : False => F))) as (Ht & Hw).
    split; [reflexivity|]. split; [exact Ht|exact Hw].
  - destruct (setCoverage_cases Sample.warned (JS.Num (JS.of_Z 80))
                JS.undefined JS.undefined JS.undefined)
      as (_ & _ & H & _).
    exact (H I (fun F : False => F)).
  - destruct (setCoverage_cases Sample.warned (JS.Num JS.NaN)
                (JS.Num (JS.of_Z 90)) JS.undefined JS.undefined)
      as (_ & _ & _ & H & _).
    exact (H (fun F : False => F)).
Defined.

(* ================================================================= *)
(** ** Rounding to binary64 *)

Lemma rne_bounds (n d : Z) :
  0 < d -> - d <= 2 * (JS.rne n d * d - n) <= d.
Proof.
  intros Hd. unfold JS.rne. cbv zeta.
  pose proof (Z.div_mod n d ltac:(lia)) as E.
  pose proof (Z.mod_pos_bound n d Hd) as B.
  set (q := n / d) in *. set (r := n mod d) in *. clearbody q r. subst n.
  destruct (2 * r ?= d) eqn:C.
  - apply Z.compare_eq in C. destruct (Z.even q); lia.
  - rewrite Z.compare_lt_iff in C. lia.
  - rewrite Z.compare_gt_iff in C. lia.
Qed.

Lemma rne_exact (k d : Z) : 0 < d -> JS.rne (k * d) d = k.
Proof.
  intros Hd. unfold JS.rne. cbv zeta.
  rewrite Z.div_mul, Z.mod_mul by lia.
  assert (C : (2 * 0 ?= d) = Lt) by (apply Z.compare_lt_iff; lia).
  rewrite C. reflexivity.
Qed.

Lemma rne_mono_bound (n d b : Z) :
  0 < d -> n <= b * d -> JS.rne n d <= b.
Proof.
  intros Hd H. pose proof (rne_bounds n d Hd). nia.
Qed.

(** [ilog2 n d] is the exponent of [n / d]. *)
Lemma ilog2_spec (n d : Z) :
  0 < n -> 0 < d ->
  let e := JS.ilog2 n d in
  (0 <= e -> d * 2 ^ e <= n < d * 2 ^ (e + 1))
  /\ (e < 0 -> d <= n * 2 ^ (- e) /\ n * 2 ^ (- e - 1) < d).
Proof.
  intros Hn Hd. cbv zeta. unfold JS.ilog2.
  pose proof (Z.log2_spec n Hn) as Ln.
  pose proof (Z.log2_spec d Hd) as Ld.
  pose proof (Z.log2_nonneg n) as Nn.
  pose proof (Z.log2_nonneg d) as Nd.
  set (a := Z.log2 n) in *. set (b := Z.log2 d) in *.
  replace (Z.succ a) with (a + 1) in Ln by lia.
  replace (Z.succ b) with (b + 1) in Ld by lia.
  rewrite Z.pow_add_r in Ln, Ld by lia. change (2 ^ 1) with 2 in *.
  destruct (0 <=? a - b) eqn:S0.
  - apply Z.leb_le in S0.
    assert (Ea : 2 ^ a = 2 ^ b * 2 ^ (a - b)).
    { rewrite <- Z.pow_add_r by lia. f_equal. lia. }
    pose proof (Z.pow_pos_nonneg 2 b ltac:(lia) Nd) as Pb.
    pose proof (Z.pow_pos_nonneg 2 (a - b) ltac:(lia) S0) as Pab.
    destruct (n <? d * 2 ^ (a - b)) eqn:T.
    + apply Z.ltb_lt in T.
      destruct (Z.eq_dec (a - b) 0) as [F|F].
      * rewrite F in *. change (2 ^ 0) with 1 in *. split; [intros; lia|].
        intros _. change (- (0 - 1)) with 1. change (- (0 - 1) - 1) with 0.
        change (2 ^ 1) with 2. change (2 ^ 0) with 1. lia.
      * assert (Eab : 2 ^ (a - b) = 2 * 2 ^ (a - b - 1)).
        { replace (a - b) with (1 + (a - b - 1)) at 1 by lia.
          rewrite Z.pow_add_r by lia. reflexivity. }
        pose proof (Z.pow_pos_nonneg 2 (a - b - 1) ltac:(lia) ltac:(lia)).
        split; [|intros; lia].
        intros _. replace (a - b - 1 + 1) with (a - b) by lia.
        split; [|lia]. nia.
    + apply Z.ltb_ge in T. split; [|intros; lia]. intros _.
      split; [lia|]. rewrite Z.pow_add_r by lia. change (2 ^ 1) with 2. nia.
  - apply Z.leb_gt in S0.
    assert (Eb : 2 ^ b = 2 ^ a * 2 ^ (- (a - b))).
    { rewrite <- Z.pow_add_r by lia. f_equal. lia. }
    pose proof (Z.pow_pos_nonneg 2 a ltac:(lia) Nn) as Pa.
    pose proof (Z.pow_pos_nonneg 2 (- (a - b)) ltac:(lia) ltac:(lia)) as Pab.
    destruct (n * 2 ^ (- (a - b)) <? d) eqn:T.
    + apply Z.ltb_lt in T. split; [intros; lia|]. intros _.
      replace (- (a - b - 1) - 1) with (- (a - b)) by lia.
      replace (- (a - b - 1)) with (- (a - b) + 1) by lia.
      rewrite Z.pow_add_r by lia. change (2 ^ 1) with 2.
      split; [|lia]. nia.
    + apply Z.ltb_ge in T. split; [intros; lia|]. intros _.
      split; [lia|].
      assert (E2 : 2 ^ (- (a - b)) = 2 * 2 ^ (- (a - b) - 1)).
      { replace (- (a - b)) with (1 + (- (a - b) - 1)) at 1 by lia.
        rewrite Z.pow_add_r by lia. reflexivity. }
      pose proof (Z.pow_pos_nonneg 2 (- (a - b) - 1) ltac:(lia) ltac:(lia)).
      nia.
Qed.

(** Rounding a positive rational whose exponent is in the normal range
    gives a double within [2^-53] of it, relatively. *)
Lemma rnd_pos_error (pn pd : positive) :
  JS.emin <= JS.ilog2 (Zpos pn) (Zpos pd) <= 1022 ->
  exists r : Q,
    JS.rnd_pos (Zpos pn) (Zpos pd) = JS.Fin r
    /\ (Qabs (r - (Zpos pn # pd)) * inject_Z (2 ^ 53) <= Zpos pn # pd)%Q.
Proof.
  intros He. unfold JS.rnd_pos.
  destruct (ilog2_spec (Zpos pn) (Zpos pd) ltac:(lia) ltac:(lia)) as (Hp & Hm).
  set (n := Zpos pn) in *. set (d := Zpos pd) in *.
  assert (Hd : 0 < d) by (unfold d; lia).
  set (e := JS.ilog2 n d) in *.
  rewrite Z.max_l by lia. unfold JS.prec.
  destruct (0 <=? 53 - 1 - e) eqn:S.
  - apply Z.leb_le in S.
    set (sh := 53 - 1 - e) in *.
    pose proof (Z.pow_pos_nonneg 2 sh ltac:(lia) S) as Psh.
    pose proof (rne_bounds (n * 2 ^ sh) d ltac:(lia)) as B.
    set (M := JS.rne (n * 2 ^ sh) d) in *.
    assert (N : d * 2 ^ 52 <= n * 2 ^ sh).
    { destruct (Z_lt_le_dec e 0) as [l|l].
      - destruct (Hm l) as (H1 & _).
        replace sh with (52 + - e) by (unfold sh; lia).
        rewrite Z.pow_add_r by lia.
        pose proof (Z.pow_pos_nonneg 2 52 ltac:(lia) ltac:(lia)). nia.
      - destruct (Hp l) as (H1 & _).
        assert (E : 2 ^ 52 = 2 ^ sh * 2 ^ e).
        { rewrite <- Z.pow_add_r by lia. f_equal. unfold sh. lia. }
        rewrite E. nia. }
    eexists. split; [reflexivity|].
    rewrite Qred_correct.
    unfold Qle, Qabs, Qminus, Qplus, Qopp, Qmult, inject_Z. cbn [Qnum Qden].
    rewrite !Pos2Z.inj_mul, !Z2Pos.id by lia. fold d.
    change (2 ^ 53) with (2 * 2 ^ 52).
    set (P := 2 ^ sh) in *. set (T := 2 ^ 52) in *.
    assert (A : 2 * Z.abs (M * d + - n * P) <= d) by lia.
    nia.
  - apply Z.leb_gt in S.
    set (k := - (53 - 1 - e)) in *.
    assert (Hk : 0 < k) by (unfold k; lia).
    assert (He0 : 0 <= e) by lia.
    destruct (Hp He0) as (H1 & H2).
    pose proof (Z.pow_pos_nonneg 2 k ltac:(lia) ltac:(lia)) as Pk.
    assert (Ee : 2 ^ e = 2 ^ k * 2 ^ 52).
    { rewrite <- Z.pow_add_r by lia. f_equal. unfold k. lia. }
    assert (Ee1 : 2 ^ (e + 1) = 2 ^ 53 * 2 ^ k).
    { rewrite <- Z.pow_add_r by lia. f_equal. unfold k. lia. }
    pose proof (rne_bounds n (d * 2 ^ k) ltac:(nia)) as B.
    pose proof (rne_mono_bound n (d * 2 ^ k) (2 ^ 53) ltac:(nia)
                  ltac:(rewrite Ee1 in H2; nia)) as MB.
    set (M := JS.rne n (d * 2 ^ k)) in *.
    assert (O : (2 ^ JS.emax <=? M * 2 ^ k) = false).
    { apply Z.leb_gt.
      apply Z.le_lt_trans with (2 ^ (e + 1)).
      - rewrite Ee1. nia.
      - apply Z.pow_lt_mono_r; unfold JS.emax; lia. }
    rewrite O. eexists. split; [reflexivity|].
    unfold Qle, Qabs, Qminus, Qplus, Qopp, Qmult, inject_Z. cbn [Qnum Qden].
    rewrite ?Pos2Z.inj_mul, ?Z2Pos.id by lia. fold d.
    rewrite Ee in H1.
    change (2 ^ 53) with (2 * 2 ^ 52).
    set (P := 2 ^ k) in *. set (T := 2 ^ 52) in *.
    assert (A : 2 * Z.abs (M * P * d + - n * 1) <= d * P) by lia.
    assert (0 < T) by (unfold T; lia).
    nia.
Qed.

Lemma ilog2_range (n d A B : Z) :
  0 < n -> 0 < d -> 0 <= A -> 0 <= B ->
  d <= n * 2 ^ A -> n < d * 2 ^ B ->
  - A <= JS.ilog2 n d < B.
Proof.
  intros Hn Hd HA HB Hlo Hhi.
  destruct (ilog2_spec n d Hn Hd) as (Hp & Hm).
  set (e := JS.ilog2 n d) in *. split.
  - destruct (Z_lt_le_dec e (- A)) as [l|l]; [exfalso|exact l].
    destruct (Hm ltac:(lia)) as (_ & H).
    assert (2 ^ A <= 2 ^ (- e - 1)) by (apply Z.pow_le_mono_r; lia).
    nia.
  - destruct (Z_lt_le_dec e B) as [l|l]; [exact l|exfalso].
    destruct (Hp ltac:(lia)) as (H & _).
    assert (2 ^ B <= 2 ^ e) by (apply Z.pow_le_mono_r; lia).
    nia.
Qed.

(** Rounding a positive rational of the normal range moves it by at most
    [2^-53] of itself. *)
Lemma rnd_error (q : Q) (A B : Z) :
  0 <= A <= 1022 -> 0 <= B <= 1023 ->
  (1 # Z.to_pos (2 ^ A) <= q)%Q -> (q < inject_Z (2 ^ B))%Q ->
  exists r : Q,
    JS.rnd q = JS.Fin r
    /\ ((r - q) * inject_Z (2 ^ 53) <= q)%Q
    /\ ((q - r) * inject_Z (2 ^ 53) <= q)%Q.
Proof.
  intros HA HB Hlo Hhi. destruct q as [n d].
  pose proof (Z.pow_pos_nonneg 2 A ltac:(lia) ltac:(lia)) as PA.
  pose proof (Z.pow_pos_nonneg 2 B ltac:(lia) ltac:(lia)) as PB.
  unfold Qle in Hlo. unfold Qlt in Hhi. cbn [Qnum Qden inject_Z] in Hlo, Hhi.
  rewrite Z2Pos.id in Hlo by lia.
  destruct n as [|pn|pn]; try lia.
  assert (R : JS.emin <= JS.ilog2 (Zpos pn) (Zpos d) <= 1022).
  { pose proof (ilog2_range (Zpos pn) (Zpos d) A B ltac:(lia) ltac:(lia)
                  ltac:(lia) ltac:(lia) ltac:(lia) ltac:(lia)).
    unfold JS.emin. lia. }
  destruct (rnd_pos_error pn d R) as (r & Hr & He).
  exists r. split; [exact Hr|].
  assert (P53 : (0 < inject_Z (2 ^ 53))%Q) by reflexivity.
  split.
  - eapply Qle_trans; [|exact He].
    apply Qmult_le_compat_r; [apply Qle_Qabs|now apply Qlt_le_weak].
  - eapply Qle_trans; [|exact He].
    apply Qmult_le_compat_r; [|now apply Qlt_le_weak].
    rewrite <- Qabs_opp.
    setoid_replace ((Z.pos pn # d) - r)%Q with (- (r - (Z.pos pn # d)))%Q by ring.
    apply Qle_Qabs.
Qed.

Lemma Qred_scaled (n P : Z) :
  0 < P -> Qred (n * P # Z.to_pos P) = inject_Z n.
Proof.
  intros HP.
  rewrite <- (Qred_identity (inject_Z n)) by (simpl; apply Z.gcd_1_r).
  apply Qred_complete. unfold Qeq, inject_Z. cbn [Qnum Qden].
  rewrite Z2Pos.id by lia. lia.
Qed.

(** Integers below [2^53] are doubles. *)
Lemma rnd_inject_Z (z : Z) :
  0 <= z < 2 ^ 53 -> JS.rnd (inject_Z z) = JS.of_Z z.
Proof.
  intros Hz. unfold JS.rnd, JS.of_Z, inject_Z. cbn [Qnum Qden].
  destruct z as [|p|p]; try lia; [reflexivity|].
  unfold JS.rnd_pos.
  pose proof (ilog2_range (Zpos p) 1 0 53 ltac:(lia) ltac:(lia) ltac:(lia)
                ltac:(lia) ltac:(lia) ltac:(lia)) as R.
  set (e := JS.ilog2 (Zpos p) 1) in *.
  rewrite Z.max_l by (unfold JS.emin; lia). unfold JS.prec.
  assert (S : (0 <=? 53 - 1 - e) = true) by (apply Z.leb_le; lia).
  rewrite S.
  pose proof (Z.pow_pos_nonneg 2 (53 - 1 - e) ltac:(lia) ltac:(lia)) as PP.
  replace (Z.pos p * 2 ^ (53 - 1 - e)) with (Z.pos p * 2 ^ (53 - 1 - e) * 1)
    by lia.
  rewrite rne_exact by lia.
  f_equal. now apply Qred_scaled.
Qed.

Lemma add_exact (a b : Z) :
  0 <= a -> 0 <= b -> a + b < 2 ^ 53 ->
  JS.add (JS.of_Z a) (JS.of_Z b) = JS.of_Z (a + b).
Proof.
  intros Ha Hb Hs. rewrite <- (rnd_inject_Z (a + b)) by lia.
  unfold JS.add, JS.of_Z, JS.rnd, Qplus, inject_Z. cbn [Qnum Qden].
  rewrite !Z.mul_1_r. reflexivity.
Qed.

Lemma sum_hit_nonneg tallies : 0 <= sum_hit tallies.
Proof. induction tallies; simpl; lia. Qed.

Lemma sum_found_nonneg tallies : 0 <= sum_found tallies.
Proof. induction tallies; simpl; lia. Qed.

Lemma totals_lines (sections : Cache) (tallies : list (N * N)) :
  Forall2 counted sections tallies ->
  forall (t : CoverageService.Totals) (a b : Z),
    CoverageService.total_lines_hit t = JS.of_Z a ->
    CoverageService.total_lines_found t = JS.of_Z b ->
    0 <= a -> 0 <= b ->
    a + sum_hit tallies < 2 ^ 53 -> b + sum_found tallies < 2 ^ 53 ->
    let r := fold_left CoverageService.accumulate (map snd sections) t in
    CoverageService.total_lines_hit r = JS.of_Z (a + sum_hit tallies)
    /\ CoverageService.total_lines_found r = JS.of_Z (b + sum_found tallies).
Proof.
  induction 1 as [|[k s] [h f] sections tallies Hc _ IH];
    intros t a b Ha Hb Na Nb Sa Sb; cbn [map fold_left snd].
  - simpl. now rewrite !Z.add_0_r.
  - cbn [sum_hit sum_found fold_right fst snd] in Sa, Sb |- *.
    fold (sum_hit tallies) in *. fold (sum_found tallies) in *.
    pose proof (sum_hit_nonneg tallies). pose proof (sum_found_nonneg tallies).
    unfold counted in Hc. cbn [fst snd] in Hc.
    destruct s as [ti fi li bi]. cbn [lines] in Hc. subst li.
    rewrite !Z.add_assoc. apply IH; try lia.
    + cbn. rewrite Ha. apply add_exact; lia.
    + cbn. rewrite Hb. apply add_exact; lia.
Qed.

Lemma eq_zero_of_Z (z : Z) : JS.eq_zero (JS.of_Z z) = (z =? 0).
Proof.
  unfold JS.eq_zero, JS.is_zero, JS.of_Z, Qeq_bool, inject_Z. cbn [Qnum Qden].
  rewrite Z.mul_1_r. reflexivity.
Qed.

Lemma window (x r : Q) :
  (x - x * slack <= r)%Q -> (r <= x + x * slack)%Q ->
  rounded (x - x * slack) <= Qfloor (r + (1 # 2))
  /\ Qfloor (r + (1 # 2)) <= rounded (x + x * slack).
Proof.
  intros H1 H2. unfold rounded. split; apply Qfloor_resp_le; lra.
Qed.

Lemma exact_percentage_eq (h f : Z) :
  (exact_percentage h f == (100 # 1) * (inject_Z h / inject_Z f))%Q.
Proof.
  unfold exact_percentage. rewrite inject_Z_mult.
  change (inject_Z 100) with (100 # 1). unfold Qdiv. ring.
Qed.

Lemma percent_of_counts (h f : Z) :
  0 <= h < 2 ^ 53 -> 0 < f < 2 ^ 53 ->
  exists z : Z,
    CoverageService.percent (JS.of_Z h) (JS.of_Z f) = JS.of_Z z
    /\ rounded (exact_percentage h f - exact_percentage h f * slack) <= z
    /\ z <= rounded (exact_percentage h f + exact_percentage h f * slack).
Proof.
  intros Hh Hf.
  assert (Z0 : JS.is_zero (inject_Z f) = false).
  { change (JS.is_zero (inject_Z f)) with (JS.eq_zero (JS.of_Z f)).
    rewrite eq_zero_of_Z. apply Z.eqb_neq. lia. }
  assert (P : CoverageService.percent (JS.of_Z h) (JS.of_Z f)
              = JS.Math_round
                  (JS.mul (JS.rnd (inject_Z h / inject_Z f)) (JS.of_Z 100))).
  { unfold CoverageService.percent, JS.div.
    change (JS.of_Z h) with (JS.Fin (inject_Z h)).
    change (JS.of_Z f) with (JS.Fin (inject_Z f)). cbv iota.
    now rewrite Z0. }
  rewrite P. clear P.
  assert (F1 : (1 <= inject_Z f)%Q)
    by (change 1%Q with (inject_Z 1); rewrite <- Zle_Qle; lia).
  assert (F2 : (inject_Z f < 9007199254740992 # 1)%Q)
    by (change (9007199254740992 # 1) with (inject_Z (2 ^ 53));
        rewrite <- Zlt_Qlt; lia).
  destruct (Z.eq_dec h 0) as [E|E].
  - subst h. exists 0.
    assert (R : JS.Math_round
                  (JS.mul (JS.rnd (inject_Z 0 / inject_Z f)) (JS.of_Z 100))
                = JS.of_Z 0).
    { destruct f; try lia. reflexivity. }
    split; [exact R|].
    assert (X0 : (exact_percentage 0 f == 0)%Q)
      by (rewrite exact_percentage_eq; unfold Qdiv; ring).
    set (x := exact_percentage 0 f) in *. clearbody x.
    assert (W : rounded (x - x * slack) <= Qfloor (0 + (1 # 2))
                /\ Qfloor (0 + (1 # 2)) <= rounded (x + x * slack))
      by (apply window; unfold slack; lra).
    exact W.
  - assert (H1 : (1 <= inject_Z h)%Q)
      by (change 1%Q with (inject_Z 1); rewrite <- Zle_Qle; lia).
    assert (H2 : (inject_Z h < 9007199254740992 # 1)%Q)
      by (change (9007199254740992 # 1) with (inject_Z (2 ^ 53));
          rewrite <- Zlt_Qlt; lia).
    pose proof (exact_percentage_eq h f) as Ex.
    set (x := exact_percentage h f) in *. clearbody x.
    set (fq := inject_Z f) in *. set (hq := inject_Z h) in *.
    clearbody fq hq. revert Ex.
    assert (L1 : (1 # Z.to_pos (2 ^ 53) <= hq / fq)%Q).
    { apply Qle_shift_div_l; [lra|].
      change (1 # Z.to_pos (2 ^ 53)) with (1 # 9007199254740992). lra. }
    assert (U1 : (hq / fq < inject_Z (2 ^ 53))%Q).
    { apply Qlt_shift_div_r; [lra|].
      change (inject_Z (2 ^ 53)) with (9007199254740992 # 1). lra. }
    set (q1 := (hq / fq)%Q) in *. clearbody q1. intros Ex.
    destruct (rnd_error q1 53 53 ltac:(lia) ltac:(lia) L1 U1)
      as (r1 & R1 & E1 & E1').
    rewrite R1. unfold JS.mul, JS.of_Z.
    change (1 # Z.to_pos (2 ^ 53)) with (1 # 9007199254740992) in L1.
    change (inject_Z (2 ^ 53)) with (9007199254740992 # 1) in U1, E1, E1'.
    assert (L2 : (1 # Z.to_pos (2 ^ 54) <= r1 * inject_Z 100)%Q).
    { change (1 # Z.to_pos (2 ^ 54)) with (1 # 18014398509481984).
      change (inject_Z 100) with (100 # 1). lra. }
    assert (U2 : (r1 * inject_Z 100 < inject_Z (2 ^ 61))%Q).
    { change (inject_Z (2 ^ 61)) with (2305843009213693952 # 1).
      change (inject_Z 100) with (100 # 1). lra. }
    destruct (rnd_error _ 54 61 ltac:(lia) ltac:(lia) L2 U2)
      as (r2 & R2 & E2 & E2').
    rewrite R2. unfold JS.Math_round, JS.of_Z.
    exists (Qfloor (r2 + (1 # 2))). split; [reflexivity|].
    change (inject_Z (2 ^ 53)) with (9007199254740992 # 1) in E2, E2'.
    change (inject_Z 100) with (100 # 1) in E2, E2'.
    apply window; unfold slack; lra.
Qed.

(* ================================================================= *)
(** ** Percentages *)

Lemma run_sync_setStatusBarCoverage (w : World) (sections : Cache)
  (textEditor : option TextEditor) :
  run_sync (CoverageService.setStatusBarCoverage sections textEditor) w
  = (with_statusBar (fun _ => bar_after w sections textEditor) w,
     Finished (inr tt)).
Proof.
  unfold bar_after, CoverageService.setStatusBarCoverage.
  destruct textEditor as [editor|];
    cbn [try_catch bind exec call settle run_sync fst snd]; [|reflexivity].
  destruct (sectionFinder w editor sections) as [e|found_sections];
    reflexivity.
Qed.

Lemma bar_after_eq (w : World) (sections : Cache)
  (textEditor : option TextEditor) :
  bar_after w sections textEditor
  = match textEditor with
    | None => CoverageService.no_coverage (statusBar w)
    | Some editor =>
        match sectionFinder w editor sections with
        | inl _ => CoverageService.no_coverage (statusBar w)
        | inr m =>
            StatusBarToggler.setCoverage
              (JS.Num (CoverageService.coverage (hd_error m)))
              (JS.Num (CoverageService.total_coverage sections))
              (JS.Num (CoverageService.b_coverage (hd_error m)))
              (JS.Num (CoverageService.b_total_coverage sections))
              (statusBar w)
        end
    end.
Proof.
  unfold bar_after, CoverageService.setStatusBarCoverage.
  destruct textEditor as [editor|];
    cbn [try_catch bind exec call settle run_sync fst snd]; [|reflexivity].
  destruct (sectionFinder w editor sections) as [e|found_sections];
    reflexivity.
Qed.

(** [Math.round((a / b) * 100)] is not finite when [a] is not a number. *)
Lemma percent_NaN_l (b : JS.number) : CoverageService.percent JS.NaN b = JS.NaN.
Proof. reflexivity. Qed.

Lemma percent_NaN_r (a : JS.number) : CoverageService.percent a JS.NaN = JS.NaN.
Proof. destruct a; reflexivity. Qed.

(** Nor when the divisor is zero. *)
Lemma percent_zero_divisor (a : JS.number) (q : Q) :
  (q == 0)%Q ->
  JS.Number_isFinite (JS.Num (CoverageService.percent a (JS.Fin q))) = false.
Proof.
  intros Hq. apply Qeq_bool_iff in Hq.
  unfold CoverageService.percent, JS.div, JS.is_zero.
  destruct a as [| s |x]; try reflexivity; rewrite Hq.
  destruct (Qeq_bool x 0); reflexivity.
Qed.

(** C3, as amended.  [setStatusBarCoverage] never throws, and it leaves the
    presenter in the "no coverage" state whenever there is no editor, the
    lookup throws or finds no section, or the first section found lacks
    line data, lacks a count or has found zero lines; a percentage is
    shown only when it is a finite number. *)
Theorem setStatusBarCoverage_no_data
  (w : World) (sections : Cache) (textEditor : option TextEditor) :
  snd (run_sync (CoverageService.setStatusBarCoverage sections textEditor) w)
  = Finished (inr tt)
  /\ (no_data w sections textEditor ->
      presents_no_coverage (statusBar w) (bar_after w sections textEditor))
  /\ (presents_no_coverage (statusBar w) (bar_after w sections textEditor)
      \/ exists editor m q,
           textEditor = Some editor
           /\ sectionFinder w editor sections = inr m
           /\ CoverageService.coverage (hd_error m) = JS.Fin q).
Proof.
  split; [now rewrite run_sync_setStatusBarCoverage|].
  unfold presents_no_coverage. rewrite bar_after_eq. split.
  - intros H.
    destruct H as [ | editor e H | editor H | editor s rest H Hs
                  | editor s rest c H Hs Hc | editor s rest c q H Hs Hc Hq ];
      try rewrite H; try reflexivity; apply setCoverage_absent;
      cbn [hd_error]; unfold CoverageService.coverage,
        CoverageService.lines_hit, CoverageService.lines_found.
    + unfold malformed in Hs. destruct s as [t f l b]. simpl in Hs.
      subst l. reflexivity.
    + destruct s as [t f l b]. simpl in Hs. subst l.
      destruct Hc as [Hc|Hc]; rewrite Hc; cbn [JS.ToNumber].
      * reflexivity.
      * now rewrite percent_NaN_r.
    + destruct s as [t f l b]. simpl in Hs. subst l.
      rewrite Hc. cbn [JS.ToNumber]. now apply percent_zero_divisor.
  - destruct textEditor as [editor|]; [|now left].
    destruct (sectionFinder w editor sections) as [e|m] eqn:Hm; [now left|].
    destruct (CoverageService.coverage (hd_error m)) as [| s |q] eqn:Hc.
    + left. now apply setCoverage_absent.
    + left. now apply setCoverage_absent.
    + right. exists editor, m, q. auto.
Qed.

(** No editor, and an editor whose file has no section in the cache. *)
Lemma setStatusBarCoverage_no_data_witness :
  presents_no_coverage (statusBar (Sample.world Sample.half))
    (bar_after (Sample.world Sample.half) Sample.half None)
  /\ presents_no_coverage (statusBar (Sample.world Sample.half))
       (bar_after (Sample.world Sample.half) Sample.half
          (Some (mkEditor "other.ts"))).
Proof.
  split.
  - apply (setStatusBarCoverage_no_data (Sample.world Sample.half)
             Sample.half None).
    apply missing_editor.
  - apply (setStatusBarCoverage_no_data (Sample.world Sample.half)
             Sample.half (Some (mkEditor "other.ts"))).
    apply no_match. reflexivity.
Defined.

(** C3, as stated, fails: with a section without line data elsewhere in the
    cache the aggregate is [NaN], yet the presenter shows "50%" for the
    editor's own file. *)
Lemma malformed_section_still_shows_percentage :
  ~ (forall (w : World) (sections : Cache) (editor : TextEditor),
        Exists malformed (map snd sections) ->
        presents_no_coverage (statusBar w)
          (bar_after w sections (Some editor))).
Proof.
  intros H.
  specialize (H (Sample.world Sample.mixed) Sample.mixed Sample.editor).
  assert (E : Exists malformed (map snd Sample.mixed)).
  { apply Exists_cons_tl. apply Exists_cons_hd. reflexivity. }
  apply H in E. unfold presents_no_coverage in E.
  apply (f_equal StatusBarToggler.lineCoverage) in E.
  vm_compute in E. discriminate E.
Qed.

(** C7.  For a section without branch data the per-file branch percentage
    is computed from hit 0 and found 1 and is 0; the section adds 0 to
    both branch totals; a cache of such sections has both totals 0; and
    the aggregate branch percentage is 0 whenever the total found is 0. *)
Theorem branch_defaults (s : Section) :
  branches s = None ->
  CoverageService.b_coverage (Some s)
  = CoverageService.percent (JS.of_Z 0) (JS.of_Z 1)
  /\ CoverageService.b_coverage (Some s) = JS.of_Z 0
  /\ (forall t : CoverageService.Totals,
        CoverageService.total_branches_hit (CoverageService.accumulate t s)
        = JS.add (CoverageService.total_branches_hit t) (JS.of_Z 0)
        /\ CoverageService.total_branches_found
             (CoverageService.accumulate t s)
           = JS.add (CoverageService.total_branches_found t) (JS.of_Z 0))
  /\ (forall sections : Cache,
        Forall (fun kv => branches (snd kv) = None) sections ->
        CoverageService.total_branches_hit (CoverageService.totals sections)
        = JS.of_Z 0
        /\ CoverageService.total_branches_found
             (CoverageService.totals sections) = JS.of_Z 0
        /\ CoverageService.b_total_coverage sections = JS.of_Z 0)
  /\ (forall sections : Cache,
        JS.eq_zero (CoverageService.total_branches_found
                      (CoverageService.totals sections)) = true ->
        CoverageService.b_total_coverage sections = JS.of_Z 0).
Proof.
  intros Hs. destruct s as [t f l b]. simpl in Hs. subst b.
  split; [reflexivity|]. split; [reflexivity|].
  split; [intros t0; split; reflexivity|]. split.
  - intros sections Hall.
    assert (G : forall t0,
               CoverageService.total_branches_hit t0 = JS.of_Z 0 ->
               CoverageService.total_branches_found t0 = JS.of_Z 0 ->
               let r := fold_left CoverageService.accumulate
                          (map snd sections) t0 in
               CoverageService.total_branches_hit r = JS.of_Z 0
               /\ CoverageService.total_branches_found r = JS.of_Z 0).
    { induction Hall as [|[k s] rest Hk _ IH]; intros t0 H1 H2.
      - now split.
      - cbn [map fold_left snd]. apply IH.
        + destruct s as [t' f' l' b']. simpl in Hk. subst b'.
          cbn. rewrite H1. reflexivity.
        + destruct s as [t' f' l' b']. simpl in Hk. subst b'.
          cbn. rewrite H2. reflexivity. }
    destruct (G (CoverageService.mkTotals (JS.of_Z 0) (JS.of_Z 0)
                   (JS.of_Z 0) (JS.of_Z 0)) eq_refl eq_refl) as (G1 & G2).
    split; [exact G1|]. split; [exact G2|].
    unfold CoverageService.b_total_coverage.
    fold (CoverageService.totals sections) in G2. rewrite G2. reflexivity.
  - intros sections Hz. unfold CoverageService.b_total_coverage.
    now rewrite Hz.
Qed.

(** A section without branch data in a cache of such sections. *)
Lemma branch_defaults_witness :
  CoverageService.b_coverage (Some (line_section "a.ts" 5 10)) = JS.of_Z 0
  /\ CoverageService.b_total_coverage Sample.half = JS.of_Z 0.
Proof.
  destruct (branch_defaults (line_section "a.ts" 5 10) eq_refl)
    as (_ & H2 & _ & H4 & _).
  split; [exact H2|].
  apply H4. repeat constructor.
Defined.

(** On the operands of the sample caches, [JS.div] and [JS.mul] give what
    the Standard Library's binary64 division and multiplication give. *)
Lemma binary64_agrees :
  JS.of_spec_float
    (SFmul 53 1024
       (SFdiv 53 1024 (JS.to_spec_float 23) (JS.to_spec_float 40))
       (JS.to_spec_float 100))
  = JS.mul (JS.div (JS.of_Z 23) (JS.of_Z 40)) (JS.of_Z 100)
  /\ JS.of_spec_float
       (SFmul 53 1024
          (SFdiv 53 1024 (JS.to_spec_float 1) (JS.to_spec_float 3))
          (JS.to_spec_float 100))
     = JS.mul (JS.div (JS.of_Z 1) (JS.of_Z 3)) (JS.of_Z 100)
  /\ JS.of_spec_float
       (SFadd 53 1024 (JS.to_spec_float 9007199254740992)
          (JS.to_spec_float 1))
     = JS.add (JS.of_Z 9007199254740992) (JS.of_Z 1)
  /\ JS.Number_toString (JS.mul (JS.div (JS.of_Z 23) (JS.of_Z 40))
                                (JS.of_Z 100))
     = "57.49999999999999".
Proof. repeat split; vm_compute; reflexivity. Qed.

Lemma total_coverage_counted (sections : Cache) (tallies : list (N * N)) :
  Forall2 counted sections tallies ->
  sum_hit tallies < 2 ^ 53 -> sum_found tallies < 2 ^ 53 ->
  CoverageService.total_coverage sections
  = if sum_found tallies =? 0 then JS.of_Z 0
    else CoverageService.percent (JS.of_Z (sum_hit tallies))
           (JS.of_Z (sum_found tallies)).
Proof.
  intros Hc Hh Hf. unfold CoverageService.total_coverage.
  destruct (totals_lines sections tallies Hc
              (CoverageService.mkTotals (JS.of_Z 0) (JS.of_Z 0) (JS.of_Z 0)
                 (JS.of_Z 0)) 0 0 eq_refl eq_refl ltac:(lia) ltac:(lia)
              ltac:(lia) ltac:(lia)) as (T1 & T2).
  fold (CoverageService.totals sections) in T1, T2.
  rewrite T1, T2, !Z.add_0_l, eq_zero_of_Z. reflexivity.
Qed.

(** C2, as amended.  For a cache whose sections carry natural line counts
    with sums below [2^53], the aggregate line percentage is 0 when the
    found counts sum to 0 (so for the empty cache), and otherwise it is
    [Math.round] of the double [(hit / found) * 100]: an integer, never
    [NaN], that lies between the exact percentage rounded after lowering
    it by [2^-51] of itself and after raising it by as much. *)
Theorem total_coverage_rounding
  (sections : Cache) (tallies : list (N * N)) :
  Forall2 counted sections tallies ->
  sum_hit tallies < 2 ^ 53 ->
  sum_found tallies < 2 ^ 53 ->
  let x := exact_percentage (sum_hit tallies) (sum_found tallies) in
  CoverageService.total_coverage [] = JS.of_Z 0
  /\ (sum_found tallies = 0 ->
      CoverageService.total_coverage sections = JS.of_Z 0)
  /\ (0 < sum_found tallies ->
      CoverageService.total_coverage sections
      = JS.Math_round
          (JS.mul (JS.div (JS.of_Z (sum_hit tallies))
                          (JS.of_Z (sum_found tallies)))
                  (JS.of_Z 100)))
  /\ exists z : Z,
       CoverageService.total_coverage sections = JS.of_Z z
       /\ (0 < sum_found tallies ->
           rounded (x - x * slack) <= z <= rounded (x + x * slack)).
Proof.
  intros Hc Hh Hf x. subst x.
  pose proof (total_coverage_counted sections tallies Hc Hh Hf) as T.
  pose proof (sum_hit_nonneg tallies) as Nh.
  pose proof (sum_found_nonneg tallies) as Nf.
  split; [reflexivity|]. split; [|split].
  - intros E. rewrite T, E. reflexivity.
  - intros P. rewrite T.
    destruct (sum_found tallies =? 0) eqn:E; [|reflexivity].
    apply Z.eqb_eq in E. lia.
  - destruct (sum_found tallies =? 0) eqn:E.
    + exists 0. split; [now rewrite T|]. apply Z.eqb_eq in E. lia.
    + apply Z.eqb_neq in E.
      destruct (percent_of_counts (sum_hit tallies) (sum_found tallies)
                  ltac:(lia) ltac:(lia)) as (z & Hz & Hlo & Hhi).
      exists z. split; [now rewrite T|]. intros _. split; assumption.
Qed.

(** 23 lines hit of 40. *)
Lemma total_coverage_rounding_witness :
  exists z : Z,
    CoverageService.total_coverage Sample.tie = JS.of_Z z
    /\ rounded (exact_percentage 23 40 - exact_percentage 23 40 * slack) <= z
    /\ z <= rounded (exact_percentage 23 40 + exact_percentage 23 40 * slack).
Proof.
  assert (Hc : Forall2 counted Sample.tie [(23%N, 40%N)])
    by (repeat constructor).
  destruct (total_coverage_rounding Sample.tie [(23%N, 40%N)] Hc
              eq_refl eq_refl) as (_ & _ & _ & z & Hz & Hw).
  exists z. split; [exact Hz|]. apply Hw. reflexivity.
Defined.

(** C2, as stated, fails: for 23 lines hit of 40 the exact percentage is
    57.5, which rounds to 58, but [23 / 40] is the double
    0.57499999999999996 and 100 times it is the double 57.49999999999999,
    so [Math.round] gives 57. *)
Lemma aggregate_is_not_the_exact_rounding :
  ~ (forall (sections : Cache) (tallies : list (N * N)),
        Forall2 counted sections tallies ->
        CoverageService.total_coverage sections
        = JS.of_Z (rounded (exact_percentage (sum_hit tallies)
                                             (sum_found tallies)))).
Proof.
  intros H.
  assert (Hc : Forall2 counted Sample.tie [(23%N, 40%N)])
    by (repeat constructor).
  specialize (H Sample.tie [(23%N, 40%N)] Hc).
  vm_compute in H. discriminate H.
Qed.

(* ================================================================= *)
(** ** Running a method *)

Local Open Scope list_scope.

Lemma run_bind {A B : Type} (o : Oracle) (m : Async A) (k : A -> Async B)
  (w : World) :
  run o (bind m k) w
  = match run o m w with
    | (w1, inr a) => run o (k a) w1
    | (w1, inl e) => (w1, inl e)
    end.
Proof.
  revert w. induction m as [a|e|X f k' IH|X r k' IH|k' IH]; intros w;
    cbn [bind run]; try reflexivity.
  - destruct (f w) as [w1 x]. apply IH.
  - apply IH.
  - apply IH.
Qed.

Lemma run_try_finally {A : Type} (o : Oracle) (m : Async A)
  (final : Async unit) (w : World) :
  run o (try_finally m final) w
  = match run o m w with
    | (w1, r) =>
        match run o final w1 with
        | (w2, inr _) => (w2, r)
        | (w2, inl e) => (w2, inl e)
        end
    end.
Proof.
  revert w. induction m as [a|e|X f k' IH|X r k' IH|k' IH]; intros w;
    cbn [try_finally run].
  - rewrite run_bind. destruct (run o final w) as [w2 [e|[]]]; reflexivity.
  - rewrite run_bind. destruct (run o final w) as [w2 [e'|[]]]; reflexivity.
  - destruct (f w) as [w1 x]. apply IH.
  - apply IH.
  - apply IH.
Qed.

Lemma run_try_catch {A : Type} (o : Oracle) (m : Async A)
  (handler : Error -> Async A) (w : World) :
  run o (try_catch m handler) w
  = match run o m w with
    | (w1, inl e) => run o (handler e) w1
    | (w1, inr a) => (w1, inr a)
    end.
Proof.
  revert w. induction m as [a|e|X f k' IH|X r k' IH|k' IH]; intros w;
    cbn [try_catch run]; try reflexivity.
  - destruct (f w) as [w1 x]. apply IH.
  - apply IH.
  - apply IH.
Qed.

Lemma run_await_own {A : Type} (o : Oracle) (m : Async A) (w : World) :
  run o (await_own m) w = run o m w.
Proof.
  revert w. induction m as [a|e|X f k' IH|X r k' IH|k' IH]; intros w;
    cbn [await_own run]; try reflexivity.
  - destruct (f w) as [w1 x]. apply IH.
  - apply IH.
  - apply IH.
Qed.

Lemma run_exec (o : Oracle) (f : World -> World) (w : World) :
  run o (exec f) w = (f w, inr tt).
Proof. reflexivity. Qed.

Lemma run_read {X : Type} (o : Oracle) (f : World -> X) (w : World) :
  run o (read f) w = (w, inr (f w)).
Proof. reflexivity. Qed.

Lemma run_await {X : Type} (o : Oracle) (r : Request X) (w : World) :
  run o (await r) w = (w, o X r).
Proof. unfold await. cbn [run]. destruct (o X r); reflexivity. Qed.

Lemma run_updateServiceState (o : Oracle) (s : Status) (w : World) :
  run o (CoverageService.updateServiceState s) w
  = (appendLine (StateLine (now w) s) w, inr tt).
Proof. reflexivity. Qed.

Lemma run_log (o : Oracle) (m : string) (w : World) :
  run o (CoverageService.log m) w
  = (appendLine (InfoLine (now w) m) w, inr tt).
Proof. reflexivity. Qed.

Lemma run_setLoading (o : Oracle) (l : bool) (w : World) :
  run o (CoverageService.setLoading l) w
  = (with_statusBar (StatusBarToggler.setLoading (Some l)) w, inr tt).
Proof. reflexivity. Qed.

Lemma run_renderCoverage (o : Oracle) (sections : World -> Cache)
  (editors : World -> option (list TextEditor)) (w : World) :
  run o (CoverageService.renderCoverage sections editors) w
  = (with_rendered (sections w, editors w) w,
     match renderer w (sections w) (editors w) with
     | Some e => inl e
     | None => inr tt
     end).
Proof.
  unfold CoverageService.renderCoverage, call. cbn [run].
  destruct (renderer w (sections w) (editors w)); reflexivity.
Qed.

Lemma run_setStatusBarCoverage (o : Oracle) (w : World) (sections : Cache)
  (textEditor : option TextEditor) :
  run o (CoverageService.setStatusBarCoverage sections textEditor) w
  = (with_statusBar (fun _ => bar_after w sections textEditor) w, inr tt).
Proof.
  unfold bar_after, CoverageService.setStatusBarCoverage.
  destruct textEditor as [editor|];
    cbn [try_catch bind exec call settle run run_sync fst snd];
    [|reflexivity].
  destruct (sectionFinder w editor sections) as [e|found_sections];
    reflexivity.
Qed.

(** A method without suspension points runs to its end in one piece. *)
Lemma run_sync_synchronous {A : Type} (o : Oracle) (p : Async A) (w : World) :
  synchronous p ->
  run_sync p w = (fst (run o p w), Finished (snd (run o p w))).
Proof.
  revert w. induction p as [a|e|X f k IH|X r k IH|k IH]; intros w S;
    cbn [run_sync run synchronous] in *; try reflexivity; try contradiction.
  destruct (f w) as [w1 x]. apply IH, S.
Qed.

Lemma synchronous_bind {A B : Type} (m : Async A) (k : A -> Async B) :
  synchronous m -> (forall a, synchronous (k a)) -> synchronous (bind m k).
Proof.
  induction m as [a|e|X f k' IH|X r k' IH|k' IH]; intros S K;
    cbn [bind synchronous] in *; auto.
Qed.

Lemma synchronous_try_finally {A : Type} (m : Async A) (final : Async unit) :
  synchronous m -> synchronous final -> synchronous (try_finally m final).
Proof.
  induction m as [a|e|X f k' IH|X r k' IH|k' IH]; intros S F;
    cbn [try_finally synchronous] in *; auto.
  - apply synchronous_bind; [exact F|intros; exact I].
  - apply synchronous_bind; [exact F|intros; exact I].
Qed.

Lemma synchronous_try_catch {A : Type} (m : Async A)
  (handler : Error -> Async A) :
  synchronous m -> (forall e, synchronous (handler e)) ->
  synchronous (try_catch m handler).
Proof.
  induction m as [a|e|X f k' IH|X r k' IH|k' IH]; intros S H;
    cbn [try_catch synchronous] in *; auto.
Qed.

Lemma synchronous_exec (f : World -> World) : synchronous (exec f).
Proof. intros x. exact I. Qed.

Lemma synchronous_read {X : Type} (f : World -> X) : synchronous (read f).
Proof. intros x. exact I. Qed.

Lemma synchronous_call {X : Type} (f : World -> World * (Error + X)) :
  synchronous (call f).
Proof. intros [e|x]; exact I. Qed.

Lemma synchronous_setStatusBarCoverage (sections : Cache)
  (textEditor : option TextEditor) :
  synchronous (CoverageService.setStatusBarCoverage sections textEditor).
Proof.
  unfold CoverageService.setStatusBarCoverage.
  apply synchronous_try_catch; [|intros; apply synchronous_exec].
  destruct textEditor; [|apply synchronous_exec].
  apply synchronous_bind; [apply synchronous_call|].
  intros; apply synchronous_exec.
Qed.

(* ================================================================= *)
(** ** One refresh cycle, run alone *)

(** [loadCache] by the outcomes of its three promises. *)
Lemma run_loadCache (o : Oracle) (w : World) :
  run o CoverageService.loadCache w
  = let t := now w in
    let w1 := appendLine (StateLine t loading) w in
    match o _ findCoverageFiles with
    | inl e => (w1, inl e)
    | inr files =>
        let w2 :=
          appendLine (InfoLine t (join "," files))
            (appendLine
               (InfoLine t ("Loading " ++ CoverageService.size files
                            ++ " file(s)")%string) w1) in
        match o _ (loadDataFiles files) with
        | inl e => (w2, inl e)
        | inr dataFiles =>
            let w3 :=
              appendLine
                (InfoLine t ("Loaded " ++ CoverageService.size dataFiles
                             ++ " data file(s)")%string) w2 in
            match o _ (filesToSections dataFiles) with
            | inl e => (w3, inl e)
            | inr dataCoverage =>
                (appendLine (StateLine t ready)
                   (with_cache dataCoverage
                      (appendLine
                         (InfoLine t
                            ("Caching " ++ CoverageService.size dataCoverage
                             ++ " coverage(s)")%string) w3)),
                 inr tt)
            end
        end
    end.
Proof.
  unfold CoverageService.loadCache. cbv zeta.
  rewrite run_bind, run_updateServiceState.
  rewrite run_bind, run_await.
  destruct (o _ findCoverageFiles) as [e|files]; [reflexivity|].
  rewrite run_bind, run_log. rewrite run_bind, run_log.
  rewrite run_bind, run_await.
  destruct (o _ (loadDataFiles files)) as [e|data]; [reflexivity|].
  rewrite run_bind, run_log. rewrite run_bind, run_await.
  destruct (o _ (filesToSections data)) as [e|sections]; [reflexivity|].
  rewrite run_bind, run_log. rewrite run_bind, run_exec.
  rewrite run_updateServiceState. reflexivity.
Qed.

(** [loadCacheAndProcess] by the outcome of [loadCache] and of the
    renderer. *)
Lemma run_loadCacheAndProcess (o : Oracle) (w : World) :
  run o CoverageService.loadCacheAndProcess w
  = let finish := with_statusBar (StatusBarToggler.setLoading (Some false)) in
    match run o CoverageService.loadCache
            (with_statusBar (StatusBarToggler.setLoading (Some true)) w) with
    | (w1, inl e) => (finish w1, inl e)
    | (w1, inr _) =>
        let w2 :=
          with_rendered (cache w1, visibleTextEditors w1)
            (appendLine (StateLine (now w1) rendering) w1) in
        match renderer w1 (cache w1) (visibleTextEditors w1) with
        | Some e => (finish w2, inl e)
        | None =>
            (finish
               (appendLine (StateLine (now w1) ready)
                  (with_statusBar
                     (fun _ => bar_after w2 (cache w1) (activeTextEditor w1))
                     w2)),
             inr tt)
        end
    end.
Proof.
  unfold CoverageService.loadCacheAndProcess. cbv zeta.
  rewrite run_try_finally, run_bind, run_setLoading.
  rewrite run_bind, run_await_own.
  destruct (run o CoverageService.loadCache _) as [w1 [e|[]]];
    [rewrite run_setLoading; reflexivity|].
  rewrite run_bind, run_updateServiceState.
  rewrite run_bind, run_renderCoverage.
  cbn [cache visibleTextEditors renderer appendLine].
  destruct (renderer w1 (cache w1) (visibleTextEditors w1)) as [e|];
    [rewrite run_setLoading; reflexivity|].
  rewrite run_bind, run_read. rewrite run_bind, run_read.
  rewrite run_bind, run_setStatusBarCoverage, run_updateServiceState.
  rewrite run_setLoading. reflexivity.
Qed.

Lemma isLoading_update (b : StatusBarToggler.t) :
  StatusBarToggler.isLoading (StatusBarToggler.update b)
  = StatusBarToggler.isLoading b.
Proof. reflexivity. Qed.

Lemma isLoading_setLoading (l : bool) (b : StatusBarToggler.t) :
  StatusBarToggler.isLoading (StatusBarToggler.setLoading (Some l) b) = l.
Proof. reflexivity. Qed.

Lemma states_app (l l' : list LogEntry) :
  states (l ++ l') = states l ++ states l'.
Proof.
  induction l as [|[t s|t m] l IH]; cbn [states app]; [reflexivity| |exact IH].
  now rewrite IH.
Qed.

Lemma states_state (l : list LogEntry) (t : Z) (s : Status) :
  states (l ++ [StateLine t s]) = states l ++ [s].
Proof. now rewrite states_app. Qed.

Lemma states_info (l : list LogEntry) (t : Z) (m : string) :
  states (l ++ [InfoLine t m]) = states l.
Proof. rewrite states_app. cbn [states]. now rewrite app_nil_r. Qed.

Lemma snoc_app {X : Type} (l : list X) (a : X) (rest : list X) :
  (l ++ [a]) ++ rest = l ++ a :: rest.
Proof. now rewrite <- app_assoc. Qed.

Ltac log_states :=
  repeat (rewrite states_state || rewrite states_info);
  repeat rewrite snoc_app.

Ltac fields :=
  cbn [statusBar configStore outputChannel renderer isCoverageDisplayed
       coverageWatcher editorWatcher sectionFinder cache visibleTextEditors
       activeTextEditor workspaceFolders now rendered leakedWatchers
       leakedListeners with_leaked
       with_statusBar appendLine with_isCoverageDisplayed with_watchers
       with_cache with_rendered with_host fst snd].

(** The outcomes of a cycle, with what each leaves behind. *)
Ltac cycle_outcomes o w :=
  rewrite run_loadCacheAndProcess, run_loadCache; cbv zeta; fields;
  let e := fresh "e" in
  let files := fresh "files" in
  let data := fresh "data" in
  let sections := fresh "sections" in
  destruct (o _ findCoverageFiles) as [e|files] eqn:?; fields;
  [|destruct (o _ (loadDataFiles files)) as [e|data] eqn:?; fields;
    [|destruct (o _ (filesToSections data)) as [e|sections] eqn:?; fields;
      [|destruct (renderer w sections (visibleTextEditors w)) as [e|] eqn:?;
        fields]]].

(** C8, as amended.  A cycle that succeeds writes the states Loading,
    Ready, Rendering, Ready, in this order; a cycle in which discovery,
    reading or parsing fails writes Loading only, and one in which
    rendering fails writes Loading, Ready, Rendering; each of the two
    throws the error of that step.  One of the three is the case, so
    Error is never written. *)
Theorem cycle_states (o : Oracle) (w : World) :
  let out := snd (run o CoverageService.loadCacheAndProcess w) in
  let w' := fst (run o CoverageService.loadCacheAndProcess w) in
  (cycle_succeeds o w ->
   out = inr tt
   /\ states (outputChannel w')
      = states (outputChannel w) ++ [loading; ready; rendering; ready])
  /\ (forall e : Error,
        loading_fails o e ->
        out = inl e
        /\ states (outputChannel w') = states (outputChannel w) ++ [loading])
  /\ (forall e : Error,
        rendering_fails o w e ->
        out = inl e
        /\ states (outputChannel w')
           = states (outputChannel w) ++ [loading; ready; rendering])
  /\ (cycle_succeeds o w
      \/ exists e : Error, loading_fails o e \/ rendering_fails o w e).
Proof.
  cbv zeta. unfold cycle_succeeds, rendering_fails, loading_fails, loads.
  split; [|split; [|split]].
  - intros (c & (files & data & E1 & E2 & E3) & R).
    rewrite run_loadCacheAndProcess, run_loadCache. cbv zeta. fields.
    rewrite E1. fields. rewrite E2. fields. rewrite E3. fields.
    rewrite R. fields. log_states. split; reflexivity.
  - intros e [E1|(files & E1 & [E2|(data & E2 & E3)])];
      rewrite run_loadCacheAndProcess, run_loadCache; cbv zeta; fields;
      rewrite E1; fields; try (rewrite E2; fields);
      try (rewrite E3; fields); log_states; split; reflexivity.
  - intros e (c & (files & data & E1 & E2 & E3) & R).
    rewrite run_loadCacheAndProcess, run_loadCache. cbv zeta. fields.
    rewrite E1. fields. rewrite E2. fields. rewrite E3. fields.
    rewrite R. fields. log_states. split; reflexivity.
  - destruct (o _ findCoverageFiles) as [e|files];
      [right; exists e; left; now left|].
    destruct (o _ (loadDataFiles files)) as [e|data] eqn:E2;
      [right; exists e; left; right; exists files; split; [reflexivity|];
       now left|].
    destruct (o _ (filesToSections data)) as [e|c] eqn:E3;
      [right; exists e; left; right; exists files; split; [reflexivity|];
       right; exists data; now split|].
    destruct (renderer w c (visibleTextEditors w)) as [e|] eqn:R.
    + right. exists e. right. exists c. split; [|exact R].
      exists files, data. now repeat split.
    + left. exists c. split; [|exact R].
      exists files, data. now repeat split.
Qed.

(** C8, as stated, fails: [loadCache] itself ends by writing Ready, so
    Ready is observed between Loading and Rendering. *)
Lemma ready_is_written_before_rendering :
  ~ (forall (o : Oracle) (w : World),
        snd (run o CoverageService.loadCacheAndProcess w) = inr tt ->
        states (outputChannel (fst (run o CoverageService.loadCacheAndProcess
                                        w)))
        = states (outputChannel w) ++ [loading; rendering; ready]).
Proof.
  intros H.
  specialize (H Sample.resolves (Sample.world []) eq_refl).
  vm_compute in H. discriminate H.
Qed.

Lemma cycle_clears_loading (o : Oracle) (w : World) :
  StatusBarToggler.isLoading
    (statusBar (fst (run o CoverageService.loadCacheAndProcess w))) = false.
Proof.
  cycle_outcomes o w; apply isLoading_setLoading.
Qed.

Lemma cycle_failure (o : Oracle) (w : World) (e : Error) :
  snd (run o CoverageService.loadCacheAndProcess w) = inl e ->
  failure_of o w e.
Proof.
  unfold failure_of. cycle_outcomes o w; intros H; inversion H; subst;
    eauto 12.
Qed.

(** C4, as amended.  A cycle rejects exactly when discovery, reading,
    parsing or rendering fails, with the error of that step, and the
    loading indicator is cleared.  It writes no Error state and no line
    about the failure: what it writes is the lines of the steps that
    completed and no more, ending with the state Loading when discovery
    failed, with the line of file names when reading failed, with the
    line counting the data files when parsing failed, and with the state
    Rendering when rendering failed. *)
Theorem failed_cycle (o : Oracle) (w : World) (e : Error) :
  let out := snd (run o CoverageService.loadCacheAndProcess w) in
  let w' := fst (run o CoverageService.loadCacheAndProcess w) in
  let t := now w in
  (failure_of o w e <-> out = inl e)
  /\ StatusBarToggler.isLoading (statusBar w') = false
  /\ (o _ findCoverageFiles = inl e ->
      out = inl e
      /\ outputChannel w' = outputChannel w ++ [StateLine t loading])
  /\ (forall files : list string,
        o _ findCoverageFiles = inr files ->
        o _ (loadDataFiles files) = inl e ->
        out = inl e
        /\ outputChannel w'
           = outputChannel w
             ++ [StateLine t loading;
                 InfoLine t ("Loading " ++ CoverageService.size files
                             ++ " file(s)")%string;
                 InfoLine t (join "," files)])
  /\ (forall (files : list string) (dataFiles : list (string * string)),
        o _ findCoverageFiles = inr files ->
        o _ (loadDataFiles files) = inr dataFiles ->
        o _ (filesToSections dataFiles) = inl e ->
        out = inl e
        /\ outputChannel w'
           = outputChannel w
             ++ [StateLine t loading;
                 InfoLine t ("Loading " ++ CoverageService.size files
                             ++ " file(s)")%string;
                 InfoLine t (join "," files);
                 InfoLine t ("Loaded " ++ CoverageService.size dataFiles
                             ++ " data file(s)")%string])
  /\ (forall (files : list string) (dataFiles : list (string * string))
        (dataCoverage : Cache),
        o _ findCoverageFiles = inr files ->
        o _ (loadDataFiles files) = inr dataFiles ->
        o _ (filesToSections dataFiles) = inr dataCoverage ->
        renderer w dataCoverage (visibleTextEditors w) = Some e ->
        out = inl e
        /\ outputChannel w'
           = outputChannel w
             ++ [StateLine t loading;
                 InfoLine t ("Loading " ++ CoverageService.size files
                             ++ " file(s)")%string;
                 InfoLine t (join "," files);
                 InfoLine t ("Loaded " ++ CoverageService.size dataFiles
                             ++ " data file(s)")%string;
                 InfoLine t ("Caching "
                             ++ CoverageService.size dataCoverage
                             ++ " coverage(s)")%string;
                 StateLine t ready;
                 StateLine t rendering]).
Proof.
  cbv zeta.
  assert (D : o _ findCoverageFiles = inl e ->
              snd (run o CoverageService.loadCacheAndProcess w) = inl e
              /\ outputChannel
                   (fst (run o CoverageService.loadCacheAndProcess w))
                 = outputChannel w ++ [StateLine (now w) loading]).
  { intros E1. rewrite run_loadCacheAndProcess, run_loadCache. cbv zeta.
    fields. rewrite E1. fields. split; reflexivity. }
  assert (R : forall files : list string,
             o _ findCoverageFiles = inr files ->
             o _ (loadDataFiles files) = inl e ->
             snd (run o CoverageService.loadCacheAndProcess w) = inl e
             /\ outputChannel
                  (fst (run o CoverageService.loadCacheAndProcess w))
                = outputChannel w
                  ++ [StateLine (now w) loading;
                      InfoLine (now w)
                        ("Loading " ++ CoverageService.size files
                         ++ " file(s)")%string;
                      InfoLine (now w) (join "," files)]).
  { intros files E1 E2. rewrite run_loadCacheAndProcess, run_loadCache.
    cbv zeta. fields. rewrite E1. fields. rewrite E2. fields.
    split; [reflexivity|]. rewrite <- !app_assoc. reflexivity. }
  assert (P : forall (files : list string)
                (dataFiles : list (string * string)),
             o _ findCoverageFiles = inr files ->
             o _ (loadDataFiles files) = inr dataFiles ->
             o _ (filesToSections dataFiles) = inl e ->
             snd (run o CoverageService.loadCacheAndProcess w) = inl e
             /\ outputChannel
                  (fst (run o CoverageService.loadCacheAndProcess w))
                = outputChannel w
                  ++ [StateLine (now w) loading;
                      InfoLine (now w)
                        ("Loading " ++ CoverageService.size files
                         ++ " file(s)")%string;
                      InfoLine (now w) (join "," files);
                      InfoLine (now w)
                        ("Loaded " ++ CoverageService.size dataFiles
                         ++ " data file(s)")%string]).
  { intros files data E1 E2 E3.
    rewrite run_loadCacheAndProcess, run_loadCache.
    cbv zeta. fields. rewrite E1. fields. rewrite E2. fields.
    rewrite E3. fields.
    split; [reflexivity|]. rewrite <- !app_assoc. reflexivity. }
  assert (G : forall (files : list string)
                (dataFiles : list (string * string)) (dataCoverage : Cache),
             o _ findCoverageFiles = inr files ->
             o _ (loadDataFiles files) = inr dataFiles ->
             o _ (filesToSections dataFiles) = inr dataCoverage ->
             renderer w dataCoverage (visibleTextEditors w) = Some e ->
             snd (run o CoverageService.loadCacheAndProcess w) = inl e
             /\ outputChannel
                  (fst (run o CoverageService.loadCacheAndProcess w))
                = outputChannel w
                  ++ [StateLine (now w) loading;
                      InfoLine (now w)
                        ("Loading " ++ CoverageService.size files
                         ++ " file(s)")%string;
                      InfoLine (now w) (join "," files);
                      InfoLine (now w)
                        ("Loaded " ++ CoverageService.size dataFiles
                         ++ " data file(s)")%string;
                      InfoLine (now w)
                        ("Caching " ++ CoverageService.size dataCoverage
                         ++ " coverage(s)")%string;
                      StateLine (now w) ready;
                      StateLine (now w) rendering]).
  { intros files data c E1 E2 E3 E4.
    rewrite run_loadCacheAndProcess, run_loadCache.
    cbv zeta. fields. rewrite E1. fields. rewrite E2. fields.
    rewrite E3. fields. rewrite E4. fields.
    split; [reflexivity|]. rewrite <- !app_assoc. reflexivity. }
  split.
  { split; [|apply cycle_failure].
    intros [E1|(files & E1 & [E2|(data & E2 & [E3|(c & E3 & E4)])])].
    - now apply D.
    - now apply (R files).
    - now apply (P files data).
    - now apply (G files data c). }
  split; [apply cycle_clears_loading|].
  split; [exact D|]. split; [exact R|]. split; [exact P|exact G].
Qed.

(** Discovery rejects. *)
Lemma failed_cycle_witness :
  snd (run Sample.rejects CoverageService.loadCacheAndProcess
         (Sample.world [])) = inl (JsError "glob")
  /\ outputChannel
       (fst (run Sample.rejects CoverageService.loadCacheAndProcess
               (Sample.world [])))
     = [StateLine 1700000000000 loading].
Proof.
  destruct (failed_cycle Sample.rejects (Sample.world []) (JsError "glob"))
    as (_ & _ & D & _).
  apply D. reflexivity.
Defined.

(** C4, as stated, fails: when discovery rejects, the last state written
    is Loading, not Error, and nothing more is logged. *)
Lemma failure_leaves_state_loading :
  ~ (forall (o : Oracle) (w : World) (e : Error),
        snd (run o CoverageService.loadCacheAndProcess w) = inl e ->
        last (states (outputChannel
                        (fst (run o CoverageService.loadCacheAndProcess w))))
             initializing
        = error).
Proof.
  intros H.
  specialize (H Sample.rejects (Sample.world []) (JsError "glob") eq_refl).
  vm_compute in H. discriminate H.
Qed.

Lemma cycle_keeps_flag (o : Oracle) (w : World) :
  isCoverageDisplayed (fst (run o CoverageService.loadCacheAndProcess w))
  = isCoverageDisplayed w.
Proof.
  cycle_outcomes o w; reflexivity.
Qed.

Lemma run_displayForFile (o : Oracle) (w : World) :
  run o CoverageService.displayForFile w
  = match run o CoverageService.loadCacheAndProcess w with
    | (w1, inr _) => (with_isCoverageDisplayed true w1, inr tt)
    | (w1, inl e) => (w1, inl e)
    end.
Proof.
  unfold CoverageService.displayForFile.
  rewrite run_bind, run_await_own.
  destruct (run o CoverageService.loadCacheAndProcess w) as [w1 [e|[]]];
    reflexivity.
Qed.

Lemma run_toggleCoverage_hidden (o : Oracle) (w : World) :
  isCoverageDisplayed w = false ->
  run o CoverageService.toggleCoverage w
  = run o CoverageService.displayForFile w.
Proof.
  intros H. unfold CoverageService.toggleCoverage.
  rewrite run_bind, run_read, H. apply run_await_own.
Qed.

(** C10.  [displayForFile] sets the displayed flag exactly when its cycle
    ends without throwing, and leaves it as it was when the cycle throws;
    so while the flag is false [toggleCoverage] is [displayForFile], also
    right after a display that failed. *)
Theorem displayed_only_after_success (o : Oracle) (w : World) :
  let w' := fst (run o CoverageService.displayForFile w) in
  match snd (run o CoverageService.displayForFile w) with
  | inr _ =>
      snd (run o CoverageService.loadCacheAndProcess w) = inr tt
      /\ isCoverageDisplayed w' = true
  | inl e =>
      snd (run o CoverageService.loadCacheAndProcess w) = inl e
      /\ isCoverageDisplayed w' = isCoverageDisplayed w
  end
  /\ (isCoverageDisplayed w = false ->
      forall o' : Oracle,
        run o' CoverageService.toggleCoverage w
        = run o' CoverageService.displayForFile w)
  /\ (isCoverageDisplayed w = false ->
      forall e : Error,
        snd (run o CoverageService.displayForFile w) = inl e ->
        forall o' : Oracle,
          run o' CoverageService.toggleCoverage w'
          = run o' CoverageService.displayForFile w').
Proof.
  cbv zeta. rewrite run_displayForFile.
  pose proof (cycle_keeps_flag o w) as K.
  destruct (run o CoverageService.loadCacheAndProcess w) as [w1 [e|[]]];
    cbn [fst snd] in *.
  - split; [now split|]. split.
    + intros H o'. now apply run_toggleCoverage_hidden.
    + intros H e' _ o'. apply run_toggleCoverage_hidden. congruence.
  - split; [now split|]. split.
    + intros H o'. now apply run_toggleCoverage_hidden.
    + intros H e' E. discriminate E.
Qed.

(** A first display whose discovery rejects, then a toggle. *)
Lemma displayed_only_after_success_witness :
  let w' :=
    fst (run Sample.rejects CoverageService.displayForFile (Sample.world []))
  in
  isCoverageDisplayed w' = false
  /\ run Sample.resolves CoverageService.toggleCoverage w'
     = run Sample.resolves CoverageService.displayForFile w'.
Proof.
  cbv zeta.
  destruct (displayed_only_after_success Sample.rejects (Sample.world []))
    as (_ & _ & H).
  split; [reflexivity|].
  exact (H eq_refl (JsError "glob") eq_refl Sample.resolves).
Defined.

(* ================================================================= *)
(** ** The editor-focus handler *)

Lemma synchronous_handleEditorEvents :
  synchronous CoverageService.handleEditorEvents.
Proof.
  unfold CoverageService.handleEditorEvents.
  apply synchronous_try_finally; [|apply synchronous_exec].
  apply synchronous_bind; [apply synchronous_exec|intros _].
  apply synchronous_bind; [apply synchronous_exec|intros _].
  apply synchronous_bind; [apply synchronous_call|intros _].
  apply synchronous_bind; [apply synchronous_read|intros sections].
  apply synchronous_bind; [apply synchronous_read|intros editor].
  apply synchronous_bind; [apply synchronous_setStatusBarCoverage|intros _].
  apply synchronous_exec.
Qed.

Lemma synchronous_removeCoverageForCurrentEditor :
  synchronous CoverageService.removeCoverageForCurrentEditor.
Proof.
  unfold CoverageService.removeCoverageForCurrentEditor.
  apply synchronous_try_finally.
  - apply synchronous_bind; [apply synchronous_exec|intros _].
    apply synchronous_call.
  - apply synchronous_bind; [apply synchronous_exec|intros _].
    apply synchronous_exec.
Qed.

Lemma run_handleEditorEvents (o : Oracle) (w : World) :
  run o CoverageService.handleEditorEvents w
  = let finish := with_statusBar (StatusBarToggler.setLoading (Some false)) in
    let w2 :=
      with_rendered (cache w, visible_or_none w)
        (with_statusBar (StatusBarToggler.setLoading (Some true))
           (appendLine (StateLine (now w) rendering) w)) in
    match renderer w (cache w) (visible_or_none w) with
    | Some e => (finish w2, inl e)
    | None =>
        (finish
           (appendLine (StateLine (now w) ready)
              (with_statusBar
                 (fun _ => bar_after w2 (cache w) (activeTextEditor w)) w2)),
         inr tt)
    end.
Proof.
  unfold CoverageService.handleEditorEvents. cbv zeta.
  rewrite run_try_finally, run_bind, run_updateServiceState.
  rewrite run_bind, run_setLoading.
  rewrite run_bind, run_renderCoverage. fields.
  fold (visible_or_none w).
  destruct (renderer w (cache w) (visible_or_none w)) as [e|];
    [rewrite run_setLoading; reflexivity|].
  rewrite run_bind, run_read. rewrite run_bind, run_read.
  rewrite run_bind, run_setStatusBarCoverage, run_updateServiceState.
  rewrite run_setLoading. reflexivity.
Qed.

Lemma run_removeCoverageForCurrentEditor (o : Oracle) (w : World) :
  run o CoverageService.removeCoverageForCurrentEditor w
  = (with_isCoverageDisplayed false
       (with_statusBar (StatusBarToggler.setLoading (Some false))
          (with_rendered ([], visibleTextEditors w)
             (with_statusBar (StatusBarToggler.setLoading (Some true)) w))),
     match renderer w [] (visibleTextEditors w) with
     | Some e => inl e
     | None => inr tt
     end).
Proof.
  unfold CoverageService.removeCoverageForCurrentEditor.
  rewrite run_try_finally, run_bind, run_setLoading, run_renderCoverage.
  fields. rewrite run_bind, run_setLoading, run_exec.
  destruct (renderer w [] (visibleTextEditors w)); reflexivity.
Qed.

(** What [bar_after] reads of the world. *)
Lemma bar_after_frame (w w' : World) (sections : Cache)
  (textEditor : option TextEditor) :
  statusBar w = statusBar w' -> sectionFinder w = sectionFinder w' ->
  bar_after w sections textEditor = bar_after w' sections textEditor.
Proof.
  intros Hb Hf. rewrite !bar_after_eq, Hb, Hf. reflexivity.
Qed.

(** C9.  The handler of an editor-focus change runs in one piece, without
    awaiting discovery, reading or parsing; it leaves the cache as it is,
    calls the renderer once with that cache, and, unless the renderer
    throws, sets the presenter from [setStatusBarCoverage] on that cache
    and the active editor.  In the event loop the notification changes
    neither the cache nor the tasks. *)
Theorem editor_focus_keeps_cache (w : World) :
  let w' := fst (run_sync CoverageService.handleEditorEvents w) in
  (exists r, snd (run_sync CoverageService.handleEditorEvents w) = Finished r)
  /\ cache w' = cache w
  /\ rendered w' = rendered w ++ [(cache w, visible_or_none w)]
  /\ match renderer w (cache w) (visible_or_none w) with
     | None =>
         statusBar w'
         = StatusBarToggler.setLoading (Some false)
             (bar_after
                (with_statusBar (StatusBarToggler.setLoading (Some true)) w)
                (cache w) (activeTextEditor w))
     | Some _ =>
         statusBar w'
         = StatusBarToggler.setLoading (Some false)
             (StatusBarToggler.setLoading (Some true) (statusBar w))
     end
  /\ forall (s : System) (visible : option (list TextEditor))
       (active : option TextEditor),
       cache (world (step (EditorChanged visible active) s))
       = cache (world s)
       /\ tasks (step (EditorChanged visible active) s) = tasks s.
Proof.
  assert (C : forall v, cache (fst (run_sync CoverageService.handleEditorEvents
                                      v)) = cache v).
  { intros v.
    rewrite (run_sync_synchronous silent _ v synchronous_handleEditorEvents).
    rewrite run_handleEditorEvents. cbv zeta.
    destruct (renderer v (cache v) (visible_or_none v)); reflexivity. }
  cbv zeta. split; [|split; [apply C|split; [|split]]].
  - rewrite (run_sync_synchronous silent _ w synchronous_handleEditorEvents).
    eexists. reflexivity.
  - rewrite (run_sync_synchronous silent _ w synchronous_handleEditorEvents).
    rewrite run_handleEditorEvents. cbv zeta.
    destruct (renderer w (cache w) (visible_or_none w)); reflexivity.
  - rewrite (run_sync_synchronous silent _ w synchronous_handleEditorEvents).
    rewrite run_handleEditorEvents. cbv zeta.
    destruct (renderer w (cache w) (visible_or_none w)); fields;
      [reflexivity|].
    f_equal. apply bar_after_frame; reflexivity.
  - intros s visible active. cbn [step].
    destruct (listened _); cbn [world tasks]; [|now split].
    split; [|reflexivity]. now rewrite C.
Qed.

(* ================================================================= *)
(** ** The first piece of a cycle *)

Lemma run_sync_bind {A B : Type} (m : Async A) (k : A -> Async B)
  (w : World) :
  run_sync (bind m k) w
  = match run_sync m w with
    | (w1, Finished (inr a)) => run_sync (k a) w1
    | (w1, Finished (inl e)) => (w1, Finished (inl e))
    | (w1, Pending r k') => (w1, Pending r (fun x => bind (k' x) k))
    | (w1, Queued k') => (w1, Queued (bind k' k))
    end.
Proof.
  revert w. induction m as [a|e|X f k' IH|X r k' IH|k' IH]; intros w;
    cbn [bind run_sync]; try reflexivity.
  destruct (f w) as [w1 x]. apply IH.
Qed.

Lemma run_sync_try_finally {A : Type} (m : Async A) (final : Async unit)
  (w : World) :
  run_sync (try_finally m final) w
  = match run_sync m w with
    | (w1, Finished r) =>
        run_sync (bind final (fun _ => settle r)) w1
    | (w1, Pending r k') =>
        (w1, Pending r (fun x => try_finally (k' x) final))
    | (w1, Queued k') => (w1, Queued (try_finally k' final))
    end.
Proof.
  revert w. induction m as [a|e|X f k' IH|X r k' IH|k' IH]; intros w;
    cbn [try_finally run_sync]; try reflexivity.
  destruct (f w) as [w1 x]. apply IH.
Qed.

Lemma run_sync_await_own {A : Type} (m : Async A) (w : World) :
  run_sync (await_own m) w
  = match run_sync m w with
    | (w1, Finished r) => (w1, Queued (settle r))
    | (w1, Pending r k') => (w1, Pending r (fun x => await_own (k' x)))
    | (w1, Queued k') => (w1, Queued (await_own k'))
    end.
Proof.
  revert w. induction m as [a|e|X f k' IH|X r k' IH|k' IH]; intros w;
    cbn [await_own run_sync]; try reflexivity.
  destruct (f w) as [w1 x]. apply IH.
Qed.

Lemma run_sync_exec (f : World -> World) (w : World) :
  run_sync (exec f) w = (f w, Finished (inr tt)).
Proof. reflexivity. Qed.

(** A cycle sets the loading indicator, writes Loading and suspends on
    discovery. *)
Lemma first_piece (w : World) :
  exists k,
    run_sync CoverageService.loadCacheAndProcess w
    = (appendLine (StateLine (now w) loading)
         (with_statusBar (StatusBarToggler.setLoading (Some true)) w),
       Pending findCoverageFiles k).
Proof.
  unfold CoverageService.loadCacheAndProcess, CoverageService.loadCache,
    CoverageService.setLoading, CoverageService.updateServiceState.
  rewrite run_sync_try_finally, run_sync_bind, run_sync_exec.
  rewrite run_sync_bind, run_sync_await_own.
  rewrite run_sync_bind, run_sync_exec.
  rewrite run_sync_bind. unfold await. cbn [run_sync].
  eexists. reflexivity.
Qed.

(* ================================================================= *)
(** ** Pieces of a method *)

Lemma pieces_impl {A : Type}
  (P Q : list Exchange -> World -> World -> option (Error + A) -> Prop)
  (p : Async A) :
  (forall h w0 w s, P h w0 w s -> Q h w0 w s) ->
  forall h w0 w, pieces P h w0 p w -> pieces Q h w0 p w.
Proof.
  intros PQ. induction p as [a|e|X f k IH|X r k IH|k IH]; intros h w0 w;
    cbn [pieces]; auto.
  - intros (H1 & H2). split; auto.
  - intros (H1 & H2). split; auto.
Qed.

Lemma pieces_bind {A B : Type}
  (P : list Exchange -> World -> World -> option (Error + B) -> Prop)
  (m : Async A) (k : A -> Async B) :
  forall h w0 w,
    pieces (fun h' w0' w' s =>
              match s with
              | Some (inr a) => pieces P h' w0' (k a) w'
              | Some (inl e) => P h' w0' w' (Some (inl e))
              | None => P h' w0' w' None
              end) h w0 m w ->
    pieces P h w0 (bind m k) w.
Proof.
  induction m as [a|e|X f k' IH|X r k' IH|k' IH]; intros h w0 w;
    cbn [bind pieces]; auto.
  - intros (H1 & H2). split; auto.
  - intros (H1 & H2). split; auto.
Qed.

Lemma pieces_try_finally {A : Type}
  (P : list Exchange -> World -> World -> option (Error + A) -> Prop)
  (m : Async A) (final : Async unit) :
  forall h w0 w,
    pieces (fun h' w0' w' s =>
              match s with
              | Some r =>
                  pieces (fun h2 w2 w2' s2 =>
                            P h2 w2 w2'
                              match s2 with
                              | Some (inr _) => Some r
                              | Some (inl e) => Some (inl e)
                              | None => None
                              end) h' w0' final w'
              | None => P h' w0' w' None
              end) h w0 m w ->
    pieces P h w0 (try_finally m final) w.
Proof.
  induction m as [a|e|X f k' IH|X r k' IH|k' IH]; intros h w0 w;
    cbn [try_finally pieces]; auto.
  - intros H. apply pieces_bind. revert H. apply pieces_impl.
    intros h' w0' w' [[e|[]]|]; auto.
  - intros H. apply pieces_bind. revert H. apply pieces_impl.
    intros h' w0' w' [[e'|[]]|]; auto.
  - intros (H1 & H2). split; auto.
  - intros (H1 & H2). split; auto.
Qed.

Lemma pieces_await_own {A : Type}
  (P : list Exchange -> World -> World -> option (Error + A) -> Prop)
  (m : Async A) :
  forall h w0 w,
    pieces (fun h' w0' w' s =>
              match s with
              | Some r =>
                  P h' w0' w' None
                  /\ forall w2, P (h' ++ [Continued]) w2 w2 (Some r)
              | None => P h' w0' w' None
              end) h w0 m w ->
    pieces P h w0 (await_own m) w.
Proof.
  induction m as [a|e|X f k' IH|X r k' IH|k' IH]; intros h w0 w;
    cbn [await_own pieces]; auto.
  - intros (H1 & H2). split; auto.
  - intros (H1 & H2). split; auto.
Qed.

Lemma pieces_exec
  (P : list Exchange -> World -> World -> option (Error + unit) -> Prop)
  (f : World -> World) (h : list Exchange) (w0 w : World) :
  P h w0 (f w) (Some (inr tt)) -> pieces P h w0 (exec f) w.
Proof. intros H. exact H. Qed.

Lemma pieces_await {X : Type}
  (P : list Exchange -> World -> World -> option (Error + X) -> Prop)
  (r : Request X) (h : list Exchange) (w0 w : World) :
  P h w0 w None ->
  (forall a w', P (h ++ [Heard r a]) w' w' (Some a)) ->
  pieces P h w0 (await r) w.
Proof.
  intros H1 H2. unfold await. cbn [pieces]. split; [exact H1|].
  intros [e|x] w'; cbn [settle pieces]; apply H2.
Qed.

(** A part without suspension points is within one piece. *)
Lemma pieces_synchronous {A : Type} (o : Oracle)
  (P : list Exchange -> World -> World -> option (Error + A) -> Prop)
  (p : Async A) :
  synchronous p ->
  forall h w0 w,
    P h w0 (fst (run o p w)) (Some (snd (run o p w))) ->
    pieces P h w0 p w.
Proof.
  induction p as [a|e|X f k IH|X r k IH|k IH]; intros S h w0 w;
    cbn [synchronous pieces run fst snd] in *; auto; try contradiction.
  destruct (f w) as [w1 x]. cbn [fst snd]. apply IH, S.
Qed.

(** What [run_sync] leaves satisfies the predicate of the pieces. *)
Lemma pieces_run_sync {A : Type}
  (P : list Exchange -> World -> World -> option (Error + A) -> Prop)
  (p : Async A) :
  forall h w0 w,
    pieces P h w0 p w ->
    P h w0 (fst (run_sync p w)) (outcome_of (snd (run_sync p w)))
    /\ paused_pieces P h (snd (run_sync p w)).
Proof.
  induction p as [a|e|X f k IH|X r k IH|k IH]; intros h w0 w;
    cbn [pieces run_sync fst snd outcome_of paused_pieces].
  - intros H. split; [exact H|exact I].
  - intros H. split; [exact H|exact I].
  - destruct (f w) as [w1 x]. cbn [fst snd]. apply IH.
  - intros (H1 & H2). split; [exact H1|]. intros a w'. apply H2.
  - intros (H1 & H2). split; [exact H1|]. intros w'. apply H2.
Qed.

Lemma pieces_read {X : Type}
  (P : list Exchange -> World -> World -> option (Error + X) -> Prop)
  (f : World -> X) (h : list Exchange) (w0 w : World) :
  P h w0 w (Some (inr (f w))) -> pieces P h w0 (read f) w.
Proof. intros H. exact H. Qed.

Lemma pieces_call {X : Type}
  (P : list Exchange -> World -> World -> option (Error + X) -> Prop)
  (f : World -> World * (Error + X)) (h : list Exchange) (w0 w : World) :
  P h w0 (fst (f w)) (Some (snd (f w))) -> pieces P h w0 (call f) w.
Proof.
  unfold call. cbn [pieces]. destruct (snd (f w)); intros H; exact H.
Qed.

Lemma pieces_setStatusBarCoverage
  (P : list Exchange -> World -> World -> option (Error + unit) -> Prop)
  (sections : Cache) (textEditor : option TextEditor)
  (h : list Exchange) (w0 w : World) :
  P h w0 (with_statusBar (fun _ => bar_after w sections textEditor) w)
    (Some (inr tt)) ->
  pieces P h w0 (CoverageService.setStatusBarCoverage sections textEditor) w.
Proof.
  intros H.
  apply (pieces_synchronous silent);
    [apply synchronous_setStatusBarCoverage|].
  rewrite run_setStatusBarCoverage. exact H.
Qed.

(* ================================================================= *)
(** ** The pieces of a refresh cycle *)

Ltac no_snapshot :=
  let c := fresh "c" in
  let files := fresh "files" in
  let data := fresh "data" in
  let E := fresh "E" in
  intros c (files & data & E);
  first [ discriminate E
        | apply (f_equal (fun l => rejected (nth 2 l Continued))) in E;
          discriminate E ].

Ltac solve_piece :=
  unfold cycle_piece; cbn [app firstn]; fields;
  split;
  [ first [ right; split; [ no_snapshot | reflexivity ]
          | left; eexists; split;
            [ do 2 eexists; reflexivity | reflexivity ] ]
  | split;
    [ first [ intros N; exfalso; apply N; reflexivity
            | intros _; apply isLoading_setLoading ]
    | split;
      [ first [ intros E; discriminate E
              | intros _; split;
                [ reflexivity | apply isLoading_setLoading ] ]
      | first [ intros E; discriminate E
              | intros _; eexists; do 2 eexists; reflexivity ] ] ] ].

(** The cycle ends by throwing [e]: the [finally] block runs. *)
Ltac thrown :=
  cbv beta iota;
  split; [ solve_piece
         | let w2 := fresh "w" in
           intros w2; cbv beta iota; apply pieces_exec; solve_piece ].

(** Every piece of [loadCacheAndProcess], in whatever world it resumes,
    is as [cycle_piece] says. *)
Lemma cycle_pieces (w : World) :
  pieces cycle_piece [] w CoverageService.loadCacheAndProcess w.
Proof.
  unfold CoverageService.loadCacheAndProcess, CoverageService.setLoading.
  apply pieces_try_finally.
  apply pieces_bind. apply pieces_exec. cbv beta iota.
  apply pieces_bind. apply pieces_await_own.
  unfold CoverageService.loadCache, CoverageService.updateServiceState,
    CoverageService.log.
  apply pieces_bind. apply pieces_exec. cbv beta iota.
  apply pieces_bind. apply pieces_await; [cbv beta iota; solve_piece|].
  clear w. intros [e|files] w; [thrown|]. cbv beta iota.
  apply pieces_bind. apply pieces_exec. cbv beta iota.
  apply pieces_bind. apply pieces_exec. cbv beta iota.
  apply pieces_bind. apply pieces_await; [cbv beta iota; solve_piece|].
  clear w. intros [e|data] w; [thrown|]. cbv beta iota.
  apply pieces_bind. apply pieces_exec. cbv beta iota.
  apply pieces_bind. apply pieces_await; [cbv beta iota; solve_piece|].
  clear w. intros [e|sections] w; [thrown|]. cbv beta iota.
  apply pieces_bind. apply pieces_exec. cbv beta iota.
  apply pieces_bind. apply pieces_exec. cbv beta iota.
  apply pieces_exec. cbv beta iota.
  split; [solve_piece|].
  clear w. intros w. cbv beta iota.
  apply pieces_bind. apply pieces_exec. cbv beta iota.
  apply pieces_bind. unfold CoverageService.renderCoverage.
  apply pieces_call. cbn [fst snd]. fields.
  destruct (renderer w (cache w) (visibleTextEditors w)) as [e|];
    cbv beta iota; [apply pieces_exec; solve_piece|].
  apply pieces_bind. apply pieces_read. cbv beta iota.
  apply pieces_bind. apply pieces_read. cbv beta iota.
  apply pieces_bind. apply pieces_setStatusBarCoverage. cbv beta iota.
  apply pieces_exec. cbv beta iota.
  apply pieces_exec. solve_piece.
Qed.


(* ================================================================= *)
(** ** The event loop *)

Lemma nth_error_replace_same {X : Type} (l : list X) (i : nat) (x y : X) :
  nth_error l i = Some y -> nth_error (replace i x l) i = Some x.
Proof.
  revert i. induction l as [|z l IH]; intros [|i] H; cbn in *;
    try discriminate; auto.
Qed.

Lemma nth_error_replace_other {X : Type} (l : list X) (i j : nat) (x : X) :
  i <> j -> nth_error (replace i x l) j = nth_error l j.
Proof.
  revert i j. induction l as [|z l IH]; intros [|i] [|j] H; cbn;
    try reflexivity; try congruence.
  apply IH. congruence.
Qed.

Lemma Forall_replace {X : Type} (P : X -> Prop) (l : list X) (i : nat)
  (x : X) :
  Forall P l -> P x -> Forall P (replace i x l).
Proof.
  intros H Hx. revert i. induction H as [|z l Hz Hl IH]; intros [|i]; cbn;
    constructor; auto.
Qed.

Lemma handleEditorEvents_keeps_cache (w : World) :
  cache (fst (run_sync CoverageService.handleEditorEvents w)) = cache w.
Proof.
  rewrite (run_sync_synchronous silent _ w synchronous_handleEditorEvents).
  rewrite run_handleEditorEvents. cbv zeta.
  destruct (renderer w (cache w) (visible_or_none w)); reflexivity.
Qed.

Lemma step_effect (e : Event) (s : System) :
  Forall task_ok (tasks s) -> effect s (step e s).
Proof.
  intros Hok. destruct e as [|visible active|i o|t]; cbn [step].
  - destruct (watched (world s)); [|now apply quiet]. unfold spawn.
    destruct (pieces_run_sync cycle_piece _ [] (world s) (world s)
                (cycle_pieces (world s))) as (Hp & Hk).
    destruct (run_sync CoverageService.loadCacheAndProcess (world s))
      as [w' stop]. cbn [fst snd] in Hp, Hk.
    destruct Hp as (Hc & _ & H0 & _). destruct (H0 eq_refl) as (Hs & _).
    apply started with (t' := mkTask stop []); cbn [tasks world heard pc];
      auto.
    destruct Hc as [(c & (files & data & E) & _)|(_ & Hc)];
      [discriminate E|exact Hc].
  - destruct (listened _); apply quiet; cbn [tasks world]; auto.
    now rewrite handleEditorEvents_keeps_cache.
  - unfold wake. destruct (nth_error (tasks s) i) as [t|] eqn:Ht;
      [|now apply quiet].
    assert (Hk : task_ok t).
    { rewrite Forall_forall in Hok. apply Hok. eapply nth_error_In, Ht. }
    destruct t as [[r|X r k|k] h]; [now apply quiet| |];
      unfold task_ok in Hk; cbn [pc heard paused_pieces] in Hk;
      cbn [pc heard].
    + specialize (Hk (o X r) (world s)).
      apply pieces_run_sync in Hk. destruct Hk as (Hp & Hk).
      destruct (run_sync (k (o X r)) (world s)) as [w' stop].
      cbn [fst snd] in Hp, Hk.
      eapply resumed with (i := i) (x := Heard r (o X r));
        [exact Ht|reflexivity|reflexivity|reflexivity|exact Hk|exact Hp].
    + specialize (Hk (world s)).
      apply pieces_run_sync in Hk. destruct Hk as (Hp & Hk).
      destruct (run_sync k (world s)) as [w' stop].
      cbn [fst snd] in Hp, Hk.
      eapply resumed with (i := i) (x := Continued);
        [exact Ht|reflexivity|reflexivity|reflexivity|exact Hk|exact Hp].
  - now apply quiet.
Qed.

Lemma snapshot_length (h : list Exchange) (c : Cache) :
  snapshot h c -> List.length h = 3%nat.
Proof. intros (files & data & E). now subst h. Qed.

Lemma produced_by_extend (t t' : Task) (x : Exchange) (c : Cache) :
  heard t' = heard t ++ [x] -> produced_by t c -> produced_by t' c.
Proof.
  unfold produced_by. intros E H. rewrite E.
  pose proof (snapshot_length _ _ H) as L.
  assert (3 <= List.length (heard t))%nat
    by (rewrite length_firstn in L; lia).
  rewrite firstn_app.
  replace (3 - List.length (heard t))%nat with 0%nat by lia.
  cbn [firstn]. now rewrite app_nil_r.
Qed.

Lemma produced_by_new (t t' : Task) (x : Exchange) (c : Cache) :
  heard t' = heard t ++ [x] -> produced_by t' c ->
  produced_by t c \/ snapshot (heard t') c.
Proof.
  unfold produced_by. intros E H.
  destruct (le_lt_dec 3 (List.length (heard t))) as [L|L].
  - left. rewrite E, firstn_app in H.
    replace (3 - List.length (heard t))%nat with 0%nat in H by lia.
    cbn [firstn] in H. now rewrite app_nil_r in H.
  - right. rewrite firstn_all2 in H; [exact H|].
    rewrite E, length_app. cbn [List.length]. lia.
Qed.

Lemma invariant_step (c0 : Cache) (e : Event) (s : System) :
  invariant c0 s -> invariant c0 (step e s).
Proof.
  intros (Hok & Hc & Hp & He).
  destruct (step_effect e s Hok)
    as [Et Ec|t' Et Eh Ek Eo Ec|i t t' x Ei Eo Et Eh Ek Ep];
    unfold invariant, from_a_cycle in *.
  - rewrite Et, Ec. auto.
  - rewrite Et, Ec.
    assert (Old : forall j u c,
               nth_error (tasks s ++ [t']) j = Some u -> produced_by u c ->
               nth_error (tasks s) j = Some u).
    { intros j u c Hj Hu.
      destruct (lt_dec j (List.length (tasks s))) as [L|L].
      - now rewrite nth_error_app1 in Hj.
      - rewrite nth_error_app2 in Hj by lia.
        destruct (j - List.length (tasks s))%nat as [|n]; cbn in Hj.
        + inversion Hj; subst u. unfold produced_by in Hu. rewrite Eh in Hu.
          apply snapshot_length in Hu. discriminate Hu.
        + destruct n; discriminate Hj. }
    assert (Keep : (exists j u, nth_error (tasks s) j = Some u
                                /\ produced_by u (cache (world s))) ->
                   exists j u, nth_error (tasks s ++ [t']) j = Some u
                               /\ produced_by u (cache (world s))).
    { intros (j & u & Hj & Hu). exists j, u. split; [|exact Hu].
      rewrite nth_error_app1; [exact Hj|].
      apply nth_error_Some. congruence. }
    split; [|split; [|split]].
    + apply Forall_app. split; [exact Hok|]. constructor; [exact Ek|constructor].
    + destruct Hc as [Hc|Hc]; [now left|right; now apply Keep].
    + intros (j & u & c & Hj & Hu). apply Keep, Hp.
      exists j, u, c. split; [|exact Hu]. eapply Old; eauto.
    + apply Forall_app. split; [exact He|]. constructor; [|constructor].
      rewrite Eo. discriminate.
  - rewrite Et.
    assert (Same : forall j u, j <> i ->
               nth_error (replace i t' (tasks s)) j = Some u <->
               nth_error (tasks s) j = Some u).
    { intros j u N. rewrite nth_error_replace_other by congruence. tauto. }
    assert (Here : nth_error (replace i t' (tasks s)) i = Some t')
      by (eapply nth_error_replace_same; eauto).
    assert (Keep : cache (world (step e s)) = cache (world s) ->
                   (exists j u, nth_error (tasks s) j = Some u
                                /\ produced_by u (cache (world s))) ->
                   exists j u, nth_error (replace i t' (tasks s)) j = Some u
                               /\ produced_by u (cache (world (step e s)))).
    { intros Ec (j & u & Hj & Hu). rewrite Ec.
      destruct (Nat.eq_dec j i) as [->|N].
      - exists i, t'. split; [exact Here|].
        rewrite Ei in Hj. inversion Hj; subst u.
        eapply produced_by_extend; eauto.
      - exists j, u. split; [now apply Same|exact Hu]. }
    destruct Ep as (Hcache & _ & _ & Hend).
    split; [|split; [|split]].
    + now apply Forall_replace.
    + destruct Hcache as [(c & Hs & Hw)|(Hn & Hw)].
      * right. exists i, t'. split; [exact Here|].
        unfold produced_by. rewrite firstn_all2, Hw; [exact Hs|].
        apply snapshot_length in Hs. lia.
      * destruct Hc as [Hc|Hc]; [left; congruence|right; now apply Keep].
    + intros (j & u & c & Hj & Hu).
      destruct Hcache as [(c' & Hs & Hw)|(Hn & Hw)].
      * exists i, t'. split; [exact Here|].
        unfold produced_by. rewrite firstn_all2, Hw; [exact Hs|].
        apply snapshot_length in Hs. lia.
      * apply Keep; [exact Hw|]. apply Hp.
        destruct (Nat.eq_dec j i) as [->|N].
        -- rewrite Here in Hj. inversion Hj; subst u.
           destruct (produced_by_new t t' x c Eh Hu) as [Hold|Hnew].
           ++ exists i, t, c. auto.
           ++ exfalso. eapply Hn, Hnew.
        -- exists j, u, c. split; [now apply Same|exact Hu].
    + apply Forall_replace; [exact He|]. exact Hend.
Qed.

Lemma invariant_play (c0 : Cache) (events : list Event) (s : System) :
  invariant c0 s -> invariant c0 (play events s).
Proof.
  revert s. induction events as [|e events IH]; intros s H; [exact H|].
  cbn [play fold_left]. apply IH, invariant_step, H.
Qed.

Lemma invariant_start (w0 : World) : invariant (cache w0) (mkSystem w0 []).
Proof.
  unfold invariant, from_a_cycle. cbn [tasks world].
  split; [constructor|]. split; [now left|]. split; [|constructor].
  intros ([|i] & t & c & H & _); discriminate H.
Qed.

(** C1.  After any sequence of file-change notifications, settled
    promises, editor changes and clock ticks, started with no cycle in
    flight, the cache is the one from before or the sections that one
    single cycle got from its own parse of its own read of its own
    discovery; and once some cycle has ended without error it is such a
    cycle's sections. *)
Theorem cache_is_one_cycle_snapshot (w0 : World) (events : list Event) :
  let s := play events (mkSystem w0 []) in
  (cache (world s) = cache w0 \/ from_a_cycle s)
  /\ ((exists i, ended_well s i) -> from_a_cycle s).
Proof.
  cbv zeta.
  destruct (invariant_play (cache w0) events (mkSystem w0 [])
              (invariant_start w0)) as (_ & Hc & Hp & He).
  split; [exact Hc|].
  intros (i & Hi). unfold ended_well in Hi.
  destruct (nth_error (tasks (play events (mkSystem w0 []))) i) as [t|] eqn:Ht;
    [|contradiction].
  rewrite Forall_forall in He.
  destruct (He t (nth_error_In _ _ Ht) Hi) as (c & Hc').
  apply Hp. exists i, t, c. auto.
Qed.

(** Two notifications in a burst, the second cycle overtaking the first. *)
Lemma cache_is_one_cycle_snapshot_witness :
  from_a_cycle (play Sample.burst (mkSystem (Sample.watching []) [])).
Proof.
  destruct (cache_is_one_cycle_snapshot (Sample.watching []) Sample.burst)
    as (_ & H).
  apply H. exists 0%nat. vm_compute. reflexivity.
Defined.

(** C5.  A cycle sets the loading indicator in its first piece and
    suspends there on discovery; run alone it ends with the indicator
    cleared whatever its outcome, and so do the editor-focus handler and
    [removeCoverageForCurrentEditor]; and in the event loop, whenever a
    cycle ends, by returning or by throwing, the indicator is cleared at
    that moment. *)
Theorem loading_indicator_scoped :
  (forall w : World,
      StatusBarToggler.isLoading
        (statusBar (fst (run_sync CoverageService.loadCacheAndProcess w)))
      = true
      /\ exists k,
           snd (run_sync CoverageService.loadCacheAndProcess w)
           = Pending findCoverageFiles k)
  /\ (forall (o : Oracle) (w : World),
        StatusBarToggler.isLoading
          (statusBar (fst (run o CoverageService.loadCacheAndProcess w)))
        = false)
  /\ (forall w : World,
        StatusBarToggler.isLoading
          (statusBar (fst (run_sync CoverageService.handleEditorEvents w)))
        = false
        /\ StatusBarToggler.isLoading
             (statusBar
                (fst (run_sync CoverageService.removeCoverageForCurrentEditor
                               w)))
           = false)
  /\ (forall (w0 : World) (events : list Event) (i : nat) (o : Oracle),
        let s := play events (mkSystem w0 []) in
        ~ ended s i ->
        ended (step (Settled i o) s) i ->
        StatusBarToggler.isLoading
          (statusBar (world (step (Settled i o) s))) = false).
Proof.
  split; [|split; [exact cycle_clears_loading|split]].
  - intros w. destruct (first_piece w) as (k & E). rewrite E. fields.
    split; [apply isLoading_setLoading|]. now exists k.
  - intros w. split.
    + rewrite (run_sync_synchronous silent _ w
                 synchronous_handleEditorEvents).
      rewrite run_handleEditorEvents. cbv zeta.
      destruct (renderer w (cache w) (visible_or_none w)); fields;
        apply isLoading_setLoading.
    + rewrite (run_sync_synchronous silent _ w
                 synchronous_removeCoverageForCurrentEditor).
      rewrite run_removeCoverageForCurrentEditor. fields.
      apply isLoading_setLoading.
  - intros w0 events i o. cbv zeta.
    destruct (invariant_play (cache w0) events (mkSystem w0 [])
                (invariant_start w0)) as (Hok & _).
    set (s := play events (mkSystem w0 [])) in *.
    intros Hn He. unfold ended in *.
    destruct (step_effect (Settled i o) s Hok)
      as [Et Ec|t' Et Eh Ek Eo Ec|j t t' x Ej Eo Et Eh Ek Ep].
    + rewrite Et in He. contradiction.
    + rewrite Et in He. exfalso.
      destruct (lt_dec i (List.length (tasks s))) as [L|L].
      * rewrite nth_error_app1 in He by exact L. contradiction.
      * rewrite nth_error_app2 in He by lia.
        destruct (i - List.length (tasks s))%nat as [|n]; cbn in He.
        -- now apply He.
        -- destruct n; exact He.
    + rewrite Et in He. destruct (Nat.eq_dec j i) as [->|N].
      * rewrite (nth_error_replace_same _ _ _ _ Ej) in He.
        destruct Ep as (_ & Hl & _). now apply Hl.
      * rewrite nth_error_replace_other in He by exact N. contradiction.
Qed.

(** A cycle whose discovery rejects: it ends, with the indicator cleared,
    when it goes on after the rejection. *)
Lemma loading_indicator_scoped_witness :
  StatusBarToggler.isLoading
    (statusBar
       (world (step (Settled 0 Sample.rejects)
                 (play [FileChanged; Settled 0 Sample.rejects]
                    (mkSystem (Sample.watching []) [])))))
  = false.
Proof.
  destruct loading_indicator_scoped as (_ & _ & _ & H).
  apply (H (Sample.watching []) [FileChanged; Settled 0 Sample.rejects] 0%nat
           Sample.rejects).
  - vm_compute. intros N. apply N. reflexivity.
  - vm_compute. intros E. discriminate E.
Defined.
(* ================================================================= *)
(** * Further properties of the two classes *)

(* ================================================================= *)
(** ** The presenter and its item *)

Lemma update_update (b : StatusBarToggler.t) :
  StatusBarToggler.update (StatusBarToggler.update b)
  = StatusBarToggler.update b.
Proof. destruct b as [a l c i cfg wn]. reflexivity. Qed.

Lemma append_nonempty (a b : string) :
  b <> EmptyString -> (a ++ b)%string <> EmptyString.
Proof. destruct a; [trivial|discriminate]. Qed.

(** [setCoverage] sets the coverage text and the warn flag from its
    arguments alone and refreshes the item; the text is never empty. *)
Lemma setCoverage_fields (l tl br tb : JS.value) :
  exists (c : option string) (wn : bool),
    c <> Some EmptyString
    /\ forall b : StatusBarToggler.t,
         StatusBarToggler.setCoverage l tl br tb b
         = StatusBarToggler.update
             (StatusBarToggler.mk (StatusBarToggler.isActive b)
                (StatusBarToggler.isLoading b) c
                (StatusBarToggler.statusBarItem b)
                (StatusBarToggler.configStore b) wn).
Proof.
  assert (N : forall a b : string,
             b <> EmptyString -> Some (a ++ b)%string <> Some EmptyString).
  { intros a b H E. apply (append_nonempty a b H). congruence. }
  unfold StatusBarToggler.setCoverage.
  destruct (JS.Number_isFinite l);
    [destruct (JS.Number_isFinite tl);
     [destruct (JS.Number_isFinite br && JS.Number_isFinite tb);
      [destruct (JS.lt (JS.or_default tl (JS.of_Z 0)) (JS.of_Z 60)
                 || JS.lt (JS.or_default tb (JS.of_Z 0)) (JS.of_Z 40))|]|]|].
  - eexists; exists true; split;
      [|intros [a lo c i cfg wn]; reflexivity]; apply N; discriminate.
  - eexists; exists false; split;
      [|intros [a lo c i cfg wn]; reflexivity]; apply N; discriminate.
  - eexists; exists false; split;
      [|intros [a lo c i cfg wn]; reflexivity]; apply N; discriminate.
  - eexists; exists false; split;
      [|intros [a lo c i cfg wn]; reflexivity]; apply N; discriminate.
  - exists None, false; split;
      [discriminate|intros [a lo c i cfg wn]; reflexivity].
Qed.

Lemma perform_update (c : Call) (b : StatusBarToggler.t) :
  StatusBarToggler.update (perform c b) = perform c b.
Proof.
  destruct c as [a|lo|l tl br tb]; cbn [perform].
  - apply update_update.
  - apply update_update.
  - destruct (setCoverage_fields l tl br tb) as (c & wn & _ & E).
    rewrite E. apply update_update.
Qed.

Lemma perform_frame (c : Call) (b : StatusBarToggler.t) :
  visible (StatusBarToggler.statusBarItem (perform c b))
  = visible (StatusBarToggler.statusBarItem b)
  /\ disposed (StatusBarToggler.statusBarItem (perform c b))
     = disposed (StatusBarToggler.statusBarItem b)
  /\ StatusBarToggler.configStore (perform c b)
     = StatusBarToggler.configStore b.
Proof.
  destruct c as [a|lo|l tl br tb]; cbn [perform].
  - destruct b; repeat split.
  - destruct b; repeat split.
  - destruct (setCoverage_fields l tl br tb) as (c & wn & _ & E).
    rewrite E. destruct b; repeat split.
Qed.

Lemma after_snoc (calls : list Call) (c : Call) (b : StatusBarToggler.t) :
  after (calls ++ [c]) b = perform c (after calls b).
Proof. unfold after. rewrite fold_left_app. reflexivity. Qed.

Lemma after_update (configStore : Config) (calls : list Call) :
  StatusBarToggler.update (after calls (StatusBarToggler.new configStore))
  = after calls (StatusBarToggler.new configStore).
Proof.
  destruct calls as [|c calls] using rev_ind; [reflexivity|].
  rewrite after_snoc. apply perform_update.
Qed.

(** X1.  Whatever calls of [toggle], [setLoading] and [setCoverage] a new
    presenter receives, its item shows what [update] computes from the
    fields: the text of [getStatusBarText], the remove command and tooltip
    when active and the watch ones otherwise, the error background exactly
    when warned and active.  The item stays shown or hidden as the
    configuration said at construction, and is not disposed. *)
Theorem item_follows_fields (configStore : Config) (calls : list Call) :
  let b := after calls (StatusBarToggler.new configStore) in
  let i := StatusBarToggler.statusBarItem b in
  StatusBarToggler.statusText b = StatusBarToggler.getStatusBarText b
  /\ command i
     = (if StatusBarToggler.active b then StatusBarToggler.removeCommand
        else StatusBarToggler.watchCommand)
  /\ tooltip i
     = (if StatusBarToggler.active b then StatusBarToggler.removeWatchToolTip
        else StatusBarToggler.watchToolTip)
  /\ backgroundColor i
     = (if StatusBarToggler.isWarn b && StatusBarToggler.active b
        then Some "statusBarItem.errorBackground" else None)
  /\ visible i = showStatusBarToggler configStore
  /\ disposed i = false
  /\ StatusBarToggler.configStore b = configStore.
Proof.
  intros b i. subst i.
  assert (F : visible (StatusBarToggler.statusBarItem b)
              = showStatusBarToggler configStore
              /\ disposed (StatusBarToggler.statusBarItem b) = false
              /\ StatusBarToggler.configStore b = configStore).
  { subst b. induction calls as [|c calls IH] using rev_ind;
      [repeat split|].
    rewrite after_snoc.
    destruct (perform_frame c
                (after calls (StatusBarToggler.new configStore)))
      as (V & D & C).
    rewrite V, D, C. exact IH. }
  pose proof (after_update configStore calls) as U. fold b in U.
  assert (I : StatusBarToggler.statusBarItem b
              = StatusBarToggler.statusBarItem (StatusBarToggler.update b))
    by now rewrite U.
  destruct F as (V & D & C). unfold StatusBarToggler.statusText.
  repeat split; trivial; rewrite I; destruct b; reflexivity.
Qed.

(** X2.  The three mutators write separate fields and the item is
    recomputed from all of them: calls of different methods commute, and
    a call overrides an earlier call of the same method. *)
Theorem calls_commute (b : StatusBarToggler.t) (a l : bool)
  (line totalLine branch totalBranch : JS.value) :
  let cover :=
    StatusBarToggler.setCoverage line totalLine branch totalBranch in
  StatusBarToggler.toggle a (StatusBarToggler.setLoading (Some l) b)
  = StatusBarToggler.setLoading (Some l) (StatusBarToggler.toggle a b)
  /\ StatusBarToggler.toggle a (cover b)
     = cover (StatusBarToggler.toggle a b)
  /\ StatusBarToggler.setLoading (Some l) (cover b)
     = cover (StatusBarToggler.setLoading (Some l) b)
  /\ (forall a' : bool,
        StatusBarToggler.toggle a (StatusBarToggler.toggle a' b)
        = StatusBarToggler.toggle a b)
  /\ (forall l' : option bool,
        StatusBarToggler.setLoading (Some l)
          (StatusBarToggler.setLoading l' b)
        = StatusBarToggler.setLoading (Some l) b)
  /\ (forall line' totalLine' branch' totalBranch' : JS.value,
        cover (StatusBarToggler.setCoverage line' totalLine' branch'
                 totalBranch' b)
        = cover b).
Proof.
  intros cover. subst cover.
  destruct (setCoverage_fields line totalLine branch totalBranch)
    as (c & wn & _ & E).
  rewrite !E. destruct b as [a0 l0 c0 i0 cfg0 wn0].
  repeat split.
  intros line' totalLine' branch' totalBranch'.
  destruct (setCoverage_fields line' totalLine' branch' totalBranch')
    as (c' & wn' & _ & E').
  rewrite E', E. reflexivity.
Qed.

(** X3.  [setLoading()] without an argument inverts the loading flag, and
    a second such call gives back the presenter as it was, for every
    presenter a new one becomes by calls of its methods. *)
Theorem setLoading_default_twice (configStore : Config)
  (calls : list Call) :
  let b := after calls (StatusBarToggler.new configStore) in
  StatusBarToggler.isLoading (StatusBarToggler.setLoading None b)
  = negb (StatusBarToggler.isLoading b)
  /\ StatusBarToggler.setLoading None (StatusBarToggler.setLoading None b)
     = b.
Proof.
  intros b. pose proof (after_update configStore calls) as U. fold b in U.
  split; [destruct b; reflexivity|].
  rewrite <- U at 2. destruct b as [a l c i cfg wn].
  unfold StatusBarToggler.setLoading.
  cbn [StatusBarToggler.isLoading StatusBarToggler.isActive
       StatusBarToggler.lineCoverage StatusBarToggler.statusBarItem
       StatusBarToggler.configStore StatusBarToggler.isWarn
       StatusBarToggler.update StatusBarToggler.with_item].
  rewrite negb_involutive. reflexivity.
Qed.

Lemma lineCoverage_setCoverage (l tl br tb : JS.value)
  (b : StatusBarToggler.t) :
  StatusBarToggler.lineCoverage (StatusBarToggler.setCoverage l tl br tb b)
  = None <-> JS.Number_isFinite l = false.
Proof.
  unfold StatusBarToggler.setCoverage.
  destruct (JS.Number_isFinite l);
    [destruct (JS.Number_isFinite tl);
     [destruct (JS.Number_isFinite br && JS.Number_isFinite tb);
      [destruct (JS.lt (JS.or_default tl (JS.of_Z 0)) (JS.of_Z 60)
                 || JS.lt (JS.or_default tb (JS.of_Z 0)) (JS.of_Z 40))|]|]|];
    destruct b; cbn; split; congruence.
Qed.

(** X4.  What the item shows after [setCoverage], [setLoading] and
    [toggle]: the spinner text while loading, whatever else is set; when
    not loading, the watch text if inactive and the coverage text between
    the icon and "Cov" if active, with "No" in its place exactly when the
    line percentage is not a finite number.  The error background is on
    exactly when the presenter is active and warned, loading or not. *)
Theorem shown_text (b : StatusBarToggler.t) (a l : bool)
  (line totalLine branch totalBranch : JS.value) :
  let covered :=
    StatusBarToggler.setCoverage line totalLine branch totalBranch b in
  let b' :=
    StatusBarToggler.toggle a (StatusBarToggler.setLoading (Some l) covered)
  in
  StatusBarToggler.statusText b'
  = (if l then "$(loading~spin) Cov"
     else if a then
       ("$(circle-large-outline) "
        ++ match StatusBarToggler.lineCoverage covered with
           | Some s => s
           | None => "No"
           end ++ " Cov")%string
     else "$(circle-large-outline) Watch")
  /\ (StatusBarToggler.lineCoverage covered = None <-> absent line)
  /\ backgroundColor (StatusBarToggler.statusBarItem b')
     = (if a && StatusBarToggler.isWarn covered
        then Some "statusBarItem.errorBackground" else None).
Proof.
  intros covered b'. split; [|split].
  - subst b' covered.
    destruct (setCoverage_fields line totalLine branch totalBranch)
      as (c & wn & NE & E).
    rewrite E. destruct b as [a0 l0 c0 i0 cfg0 wn0].
    destruct l; [reflexivity|]. destruct a; [|reflexivity].
    destruct c as [[|ch s]|]; [now destruct NE| |]; reflexivity.
  - subst covered. rewrite lineCoverage_setCoverage. symmetry.
    apply absent_isFinite.
  - subst b' covered.
    destruct (setCoverage_fields line totalLine branch totalBranch)
      as (c & wn & NE & E).
    rewrite E. destruct b as [a0 l0 c0 i0 cfg0 wn0].
    destruct a, wn; reflexivity.
Qed.

(* ================================================================= *)
(** ** Loading the cache *)

(** X5.  [loadCache] reads exactly the files it discovered and parses
    exactly the data it read.  When the three promises resolve it replaces
    the cache by the parsed sections and writes six lines: LOADING, the
    number of files, their names joined by commas, the number of data
    files, the number of sections, READY.  When one rejects it throws that
    rejection and leaves the cache alone, LOADING being the only state
    written.  It never touches the status bar or the renderer. *)
Theorem loadCache_outcome (o : Oracle) (w : World) :
  let w' := fst (run o CoverageService.loadCache w) in
  statusBar w' = statusBar w
  /\ rendered w' = rendered w
  /\ match snd (run o CoverageService.loadCache w) with
     | inr _ =>
         exists files dataFiles dataCoverage,
           o _ findCoverageFiles = inr files
           /\ o _ (loadDataFiles files) = inr dataFiles
           /\ o _ (filesToSections dataFiles) = inr dataCoverage
           /\ cache w' = dataCoverage
           /\ outputChannel w'
              = outputChannel w
                ++ [StateLine (now w) loading;
                    InfoLine (now w)
                      ("Loading " ++ JS.decimal (Z.of_nat (List.length files))
                       ++ " file(s)")%string;
                    InfoLine (now w) (join "," files);
                    InfoLine (now w)
                      ("Loaded "
                       ++ JS.decimal (Z.of_nat (List.length dataFiles))
                       ++ " data file(s)")%string;
                    InfoLine (now w)
                      ("Caching "
                       ++ JS.decimal (Z.of_nat (List.length dataCoverage))
                       ++ " coverage(s)")%string;
                    StateLine (now w) ready]
     | inl e =>
         cache w' = cache w
         /\ states (outputChannel w') = states (outputChannel w) ++ [loading]
         /\ (o _ findCoverageFiles = inl e
             \/ exists files,
                  o _ findCoverageFiles = inr files
                  /\ (o _ (loadDataFiles files) = inl e
                      \/ exists dataFiles,
                           o _ (loadDataFiles files) = inr dataFiles
                           /\ o _ (filesToSections dataFiles) = inl e))
     end.
Proof.
  rewrite run_loadCache. cbv zeta.
  destruct (o _ findCoverageFiles) as [e|files] eqn:E1; fields;
    [|destruct (o _ (loadDataFiles files)) as [e|data] eqn:E2; fields;
      [|destruct (o _ (filesToSections data)) as [e|sections] eqn:E3;
        fields]].
  - repeat split; trivial. log_states. reflexivity. now left.
  - repeat split; trivial. log_states. reflexivity.
    right. exists files. split; trivial. now left.
  - repeat split; trivial. log_states. reflexivity.
    right. exists files. split; trivial. right. exists data. now split.
  - repeat split; trivial. exists files, data, sections.
    repeat split; trivial. unfold CoverageService.size.
    rewrite <- !app_assoc. reflexivity.
Qed.

(* ================================================================= *)
(** ** What a refresh cycle leaves alone *)

Lemma isActive_setLoading (l : option bool) (b : StatusBarToggler.t) :
  StatusBarToggler.isActive (StatusBarToggler.setLoading l b)
  = StatusBarToggler.isActive b.
Proof. destruct b; reflexivity. Qed.

Lemma lineCoverage_setLoading (l : option bool) (b : StatusBarToggler.t) :
  StatusBarToggler.lineCoverage (StatusBarToggler.setLoading l b)
  = StatusBarToggler.lineCoverage b.
Proof. destruct b; reflexivity. Qed.

Lemma isWarn_setLoading (l : option bool) (b : StatusBarToggler.t) :
  StatusBarToggler.isWarn (StatusBarToggler.setLoading l b)
  = StatusBarToggler.isWarn b.
Proof. destruct b; reflexivity. Qed.

Lemma isActive_setCoverage (l tl br tb : JS.value)
  (b : StatusBarToggler.t) :
  StatusBarToggler.isActive (StatusBarToggler.setCoverage l tl br tb b)
  = StatusBarToggler.isActive b.
Proof.
  destruct (setCoverage_fields l tl br tb) as (c & wn & _ & E).
  rewrite E. destruct b; reflexivity.
Qed.

Lemma isActive_bar_after (w : World) (sections : Cache)
  (textEditor : option TextEditor) :
  StatusBarToggler.isActive (bar_after w sections textEditor)
  = StatusBarToggler.isActive (statusBar w).
Proof.
  rewrite bar_after_eq. unfold CoverageService.no_coverage.
  destruct textEditor as [editor|]; [|apply isActive_setCoverage].
  destruct (sectionFinder w editor sections); apply isActive_setCoverage.
Qed.

Lemma statusText_setLoading_false (b : StatusBarToggler.t) :
  StatusBarToggler.statusText (StatusBarToggler.setLoading (Some false) b)
  = if StatusBarToggler.active b then
      join " " [StatusBarToggler.idleIcon;
                StatusBarToggler.lineCoverage_or b "No";
                StatusBarToggler.coverageText]
    else StatusBarToggler.watchText.
Proof. destruct b as [[[|]|] l c i cfg wn]; reflexivity. Qed.

(** The host and the collaborators are as before a cycle. *)
Lemma cycle_frame (o : Oracle) (w : World) :
  let w' := fst (run o CoverageService.loadCacheAndProcess w) in
  coverageWatcher w' = coverageWatcher w
  /\ editorWatcher w' = editorWatcher w
  /\ configStore w' = configStore w
  /\ workspaceFolders w' = workspaceFolders w
  /\ now w' = now w
  /\ visibleTextEditors w' = visibleTextEditors w
  /\ activeTextEditor w' = activeTextEditor w
  /\ leakedWatchers w' = leakedWatchers w
  /\ leakedListeners w' = leakedListeners w.
Proof.
  cycle_outcomes o w; repeat split.
Qed.

(** X6.  A cycle never changes whether the presenter is active, and it
    ends with the loading flag off: the text it leaves is the watch text
    on an inactive presenter and the coverage text, or "No", between the
    icon and "Cov" on an active one.  A cycle that throws does not reach
    [setStatusBarCoverage]: the coverage text and the warn flag of the
    cycle before stay on display. *)
Theorem cycle_status_bar (o : Oracle) (w : World) :
  let b := statusBar w in
  let b' := statusBar (fst (run o CoverageService.loadCacheAndProcess w)) in
  StatusBarToggler.isActive b' = StatusBarToggler.isActive b
  /\ StatusBarToggler.statusText b'
     = (if StatusBarToggler.active b then
          join " " [StatusBarToggler.idleIcon;
                    StatusBarToggler.lineCoverage_or b' "No";
                    StatusBarToggler.coverageText]
        else StatusBarToggler.watchText)
  /\ (forall e : Error,
        snd (run o CoverageService.loadCacheAndProcess w) = inl e ->
        StatusBarToggler.lineCoverage b' = StatusBarToggler.lineCoverage b
        /\ StatusBarToggler.isWarn b' = StatusBarToggler.isWarn b).
Proof.
  cbv zeta.
  assert (T : forall x : StatusBarToggler.t,
             StatusBarToggler.isActive x
             = StatusBarToggler.isActive (statusBar w) ->
             StatusBarToggler.statusText
               (StatusBarToggler.setLoading (Some false) x)
             = (if StatusBarToggler.active (statusBar w) then
                  join " " [StatusBarToggler.idleIcon;
                            StatusBarToggler.lineCoverage_or
                              (StatusBarToggler.setLoading (Some false) x)
                              "No";
                            StatusBarToggler.coverageText]
                else StatusBarToggler.watchText)).
  { intros x A. rewrite statusText_setLoading_false.
    unfold StatusBarToggler.active, StatusBarToggler.lineCoverage_or.
    rewrite lineCoverage_setLoading, A. reflexivity. }
  cycle_outcomes o w;
    (split; [|split; [apply T|]]);
    rewrite ?isActive_setLoading, ?isActive_bar_after; fields;
    rewrite ?isActive_setLoading; trivial;
    intros e' He'; try discriminate;
    rewrite !lineCoverage_setLoading, !isWarn_setLoading; split; reflexivity.
Qed.

Lemma play_cons (e : Event) (events : list Event) (s : System) :
  play (e :: events) s = play events (step e s).
Proof. reflexivity. Qed.

Section Cycles.

Variable P : list Exchange -> World -> World -> option (Error + unit) -> Prop.
Hypothesis cycle_P :
  forall w : World, pieces P [] w CoverageService.loadCacheAndProcess w.

(** The tasks of the event loop stay cycles whose pieces satisfy [P]. *)
Lemma step_follows (e : Event) (s : System) :
  Forall (task_follows P) (tasks s) ->
  Forall (task_follows P) (tasks (step e s)).
Proof.
  intros Hok. destruct e as [|visible active|i o|t]; cbn [step].
  - destruct (watched (world s)); [|exact Hok]. unfold spawn.
    destruct (pieces_run_sync P _ [] (world s) (world s)
                (cycle_P (world s))) as (_ & Hk).
    destruct (run_sync CoverageService.loadCacheAndProcess (world s))
      as [w' stop]. cbn [fst snd tasks] in *.
    apply Forall_app. split; [exact Hok|]. constructor; [exact Hk|constructor].
  - destruct (listened _); exact Hok.
  - unfold wake. destruct (nth_error (tasks s) i) as [t|] eqn:Ht;
      [|exact Hok].
    assert (Hk : task_follows P t).
    { rewrite Forall_forall in Hok. apply Hok. eapply nth_error_In, Ht. }
    destruct t as [[r|X r k|k] h]; [exact Hok| |];
      unfold task_follows in Hk; cbn [pc heard paused_pieces] in Hk;
      cbn [pc heard].
    + specialize (Hk (o X r) (world s)).
      apply pieces_run_sync in Hk. destruct Hk as (_ & Hk).
      destruct (run_sync (k (o X r)) (world s)) as [w' stop].
      cbn [fst snd tasks] in *. apply Forall_replace; assumption.
    + specialize (Hk (world s)).
      apply pieces_run_sync in Hk. destruct Hk as (_ & Hk).
      destruct (run_sync k (world s)) as [w' stop].
      cbn [fst snd tasks] in *. apply Forall_replace; assumption.
  - exact Hok.
Qed.

Lemma play_follows (events : list Event) (s : System) :
  Forall (task_follows P) (tasks s) ->
  Forall (task_follows P) (tasks (play events s)).
Proof.
  revert s. induction events as [|e events IH]; intros s H; [exact H|].
  rewrite play_cons. apply IH, step_follows, H.
Qed.

(** Resuming a task that has not ended runs one more piece. *)
Lemma wake_piece (i : nat) (o : Oracle) (s : System) (t : Task) :
  Forall (task_follows P) (tasks s) ->
  nth_error (tasks s) i = Some t ->
  outcome_of (pc t) = None ->
  exists (t' : Task) (x : Exchange),
    nth_error (tasks (wake i o s)) i = Some t'
    /\ heard t' = heard t ++ [x]
    /\ P (heard t') (world s) (world (wake i o s)) (outcome_of (pc t')).
Proof.
  intros Hok Ht Hn. unfold wake. rewrite Ht.
  assert (Hk : task_follows P t).
  { rewrite Forall_forall in Hok. apply Hok. eapply nth_error_In, Ht. }
  destruct t as [[r|X r k|k] h]; [discriminate Hn| |];
    unfold task_follows in Hk; cbn [pc heard paused_pieces] in Hk;
    cbn [pc heard].
  - specialize (Hk (o X r) (world s)).
    apply pieces_run_sync in Hk. destruct Hk as (Hp & _).
    destruct (run_sync (k (o X r)) (world s)) as [w' stop].
    cbn [fst snd tasks world] in *.
    exists (mkTask stop (h ++ [Heard r (o X r)])), (Heard r (o X r)).
    split; [eapply nth_error_replace_same, Ht|]. split; [reflexivity|].
    exact Hp.
  - specialize (Hk (world s)).
    apply pieces_run_sync in Hk. destruct Hk as (Hp & _).
    destruct (run_sync k (world s)) as [w' stop].
    cbn [fst snd tasks world] in *.
    exists (mkTask stop (h ++ [Continued])), Continued.
    split; [eapply nth_error_replace_same, Ht|]. split; [reflexivity|].
    exact Hp.
Qed.

End Cycles.

Lemma wake_ended (i : nat) (o : Oracle) (s : System) :
  match nth_error (tasks s) i with
  | Some t => outcome_of (pc t) <> None
  | None => True
  end ->
  wake i o s = s.
Proof.
  unfold wake. destruct (nth_error (tasks s) i) as [[[r|X r k|k] h]|];
    cbn [pc outcome_of]; intros H; try reflexivity; now destruct H.
Qed.

Lemma ended_step (e : Event) (s : System) (i : nat) :
  ended s i -> ended (step e s) i.
Proof.
  unfold ended. destruct (nth_error (tasks s) i) as [t|] eqn:Ht;
    [|contradiction].
  intros Ho. destruct e as [|visible active|j o|z]; cbn [step].
  - destruct (watched (world s)); [|now rewrite Ht]. unfold spawn.
    destruct (run_sync CoverageService.loadCacheAndProcess (world s))
      as [w' stop]. cbn [tasks].
    rewrite nth_error_app1, Ht; [exact Ho|].
    apply nth_error_Some. now rewrite Ht.
  - destruct (listened _); cbn [tasks]; now rewrite Ht.
  - destruct (Nat.eq_dec j i) as [->|N].
    + rewrite wake_ended; rewrite Ht; exact Ho.
    + unfold wake. destruct (nth_error (tasks s) j) as [[[r|X r k|k] h]|];
        cbn [pc heard]; try (rewrite Ht; exact Ho).
      * destruct (run_sync (k (o X r)) (world s)) as [w' stop]. cbn [tasks].
        rewrite nth_error_replace_other, Ht; [exact Ho|exact N].
      * destruct (run_sync k (world s)) as [w' stop]. cbn [tasks].
        rewrite nth_error_replace_other, Ht; [exact Ho|exact N].
  - cbn [tasks]. now rewrite Ht.
Qed.

Ltac render_solve :=
  unfold render_piece; cbn [app firstn]; fields;
  first [ left; reflexivity
        | right; split;
          [ reflexivity
          | split; [ eexists; do 2 eexists; reflexivity | discriminate ] ] ].

Ltac render_thrown :=
  cbv beta iota;
  split; [ render_solve
         | let w2 := fresh "w" in
           intros w2; cbv beta iota; apply pieces_exec; render_solve ].

(** Every piece of [loadCacheAndProcess], in whatever world it resumes,
    is as [render_piece] says. *)
Lemma render_pieces (w : World) :
  pieces render_piece [] w CoverageService.loadCacheAndProcess w.
Proof.
  unfold CoverageService.loadCacheAndProcess, CoverageService.setLoading.
  apply pieces_try_finally.
  apply pieces_bind. apply pieces_exec. cbv beta iota.
  apply pieces_bind. apply pieces_await_own.
  unfold CoverageService.loadCache, CoverageService.updateServiceState,
    CoverageService.log.
  apply pieces_bind. apply pieces_exec. cbv beta iota.
  apply pieces_bind. apply pieces_await; [cbv beta iota; render_solve|].
  clear w. intros [e|files] w; [render_thrown|]. cbv beta iota.
  apply pieces_bind. apply pieces_exec. cbv beta iota.
  apply pieces_bind. apply pieces_exec. cbv beta iota.
  apply pieces_bind. apply pieces_await; [cbv beta iota; render_solve|].
  clear w. intros [e|data] w; [render_thrown|]. cbv beta iota.
  apply pieces_bind. apply pieces_exec. cbv beta iota.
  apply pieces_bind. apply pieces_await; [cbv beta iota; render_solve|].
  clear w. intros [e|sections] w; [render_thrown|]. cbv beta iota.
  apply pieces_bind. apply pieces_exec. cbv beta iota.
  apply pieces_bind. apply pieces_exec. cbv beta iota.
  apply pieces_exec. cbv beta iota.
  split; [render_solve|].
  clear w. intros w. cbv beta iota.
  apply pieces_bind. apply pieces_exec. cbv beta iota.
  apply pieces_bind. unfold CoverageService.renderCoverage.
  apply pieces_call. cbn [fst snd]. fields.
  destruct (renderer w (cache w) (visibleTextEditors w)) as [e|];
    cbv beta iota; [apply pieces_exec; render_solve|].
  apply pieces_bind. apply pieces_read. cbv beta iota.
  apply pieces_bind. apply pieces_read. cbv beta iota.
  apply pieces_bind. apply pieces_setStatusBarCoverage. cbv beta iota.
  apply pieces_exec. cbv beta iota.
  apply pieces_exec. render_solve.
Qed.

(** X7.  Whatever cycles run interleaved, a cycle calls the renderer at
    most once: in the piece that ends it, after its own three promises
    resolved, with the cache and the visible editors as they are then,
    which in a burst may be the sections another cycle has stored since.
    When the cycle runs alone they are the sections it has just stored.
    A cycle one of whose promises rejected does not call the renderer,
    starting a cycle does not either, and a cycle that has ended stays
    ended. *)
Theorem cycle_renders_once (w : World) (events : list Event) (i : nat)
  (o : Oracle) :
  let s := play events (mkSystem w []) in
  let s' := step (Settled i o) s in
  (rendered (world s') = rendered (world s)
   \/ (rendered (world s')
       = rendered (world s)
         ++ [(cache (world s), visibleTextEditors (world s))]
       /\ ~ ended s i /\ ended s' i
       /\ exists t c, nth_error (tasks s') i = Some t /\ produced_by t c))
  /\ rendered (world (step FileChanged s)) = rendered (world s)
  /\ (forall e : Event, ended s i -> ended (step e s) i)
  /\ forall u : World,
       let u' := fst (run o CoverageService.loadCacheAndProcess u) in
       match snd (run o CoverageService.loadCache u) with
       | inr _ =>
           rendered u' = rendered u ++ [(cache u', visibleTextEditors u)]
       | inl e =>
           rendered u' = rendered u
           /\ cache u' = cache u
           /\ snd (run o CoverageService.loadCacheAndProcess u) = inl e
       end.
Proof.
  intros s s'.
  assert (F : Forall (task_follows render_piece) (tasks s)).
  { subst s. apply (play_follows render_piece render_pieces).
    constructor. }
  split; [|split; [|split; [intros e; apply ended_step|]]].
  - subst s'. cbn [step].
    destruct (nth_error (tasks s) i) as [t|] eqn:Ht;
      [|left; rewrite wake_ended; [reflexivity|now rewrite Ht]].
    destruct (outcome_of (pc t)) as [r|] eqn:Hr;
      [left; rewrite wake_ended; [reflexivity|rewrite Ht, Hr; discriminate]|].
    destruct (wake_piece render_piece i o s t F Ht Hr)
      as (t' & x & Ht' & Hh & [R|(R & (c & Hc) & Hs)]);
      [left; exact R|right].
    split; [exact R|]. split; [|split].
    + unfold ended. rewrite Ht. intros N. now apply N.
    + unfold ended. rewrite Ht'. exact Hs.
    + exists t', c. split; [exact Ht'|exact Hc].
  - cbn [step]. destruct (watched (world s)); [|reflexivity].
    unfold spawn. destruct (first_piece (world s)) as (k & E).
    rewrite E. reflexivity.
  - intros u. cbv zeta.
    rewrite run_loadCacheAndProcess, !run_loadCache. cbv zeta. fields.
    destruct (o _ findCoverageFiles) as [e|files]; fields;
      [|destruct (o _ (loadDataFiles files)) as [e|data]; fields;
        [|destruct (o _ (filesToSections data)) as [e|sections]; fields;
          [|destruct (renderer u sections (visibleTextEditors u)); fields]]];
      repeat split.
Qed.

(* ================================================================= *)
(** ** Removing and toggling the display *)

(** X8.  [removeCoverageForCurrentEditor] has no suspension point.  It
    calls the renderer once, with an empty map and the visible editors,
    and whether or not that call throws it ends with the loading flag
    and the displayed flag off; it throws exactly what the renderer
    throws.  The cache, the output channel and the coverage text of the
    status bar stay as they were. *)
Theorem removeCoverage_always_hides (o : Oracle) (w : World) :
  let w' := fst (run o CoverageService.removeCoverageForCurrentEditor w) in
  run_sync CoverageService.removeCoverageForCurrentEditor w
  = (w', Finished (snd (run o CoverageService.removeCoverageForCurrentEditor
                            w)))
  /\ snd (run o CoverageService.removeCoverageForCurrentEditor w)
     = match renderer w [] (visibleTextEditors w) with
       | Some e => inl e
       | None => inr tt
       end
  /\ rendered w' = rendered w ++ [([], visibleTextEditors w)]
  /\ isCoverageDisplayed w' = false
  /\ StatusBarToggler.isLoading (statusBar w') = false
  /\ cache w' = cache w
  /\ outputChannel w' = outputChannel w
  /\ StatusBarToggler.lineCoverage (statusBar w')
     = StatusBarToggler.lineCoverage (statusBar w).
Proof.
  cbv zeta. split.
  - apply (run_sync_synchronous o).
    apply synchronous_removeCoverageForCurrentEditor.
  - rewrite run_removeCoverageForCurrentEditor. fields.
    rewrite isLoading_setLoading, !lineCoverage_setLoading.
    repeat split.
Qed.

Lemma run_toggleCoverage_displayed (o : Oracle) (w : World) :
  isCoverageDisplayed w = true ->
  run o CoverageService.toggleCoverage w
  = (fst (run o CoverageService.removeCoverageForCurrentEditor w), inr tt).
Proof.
  intros H. unfold CoverageService.toggleCoverage, CoverageService.unawaited.
  rewrite run_bind, run_read, H, run_try_catch.
  destruct (run o CoverageService.removeCoverageForCurrentEditor w)
    as [w1 [e|[]]]; reflexivity.
Qed.

Lemma synchronous_toggleCoverage_displayed (w : World) :
  isCoverageDisplayed w = true ->
  exists r, run_sync CoverageService.toggleCoverage w
            = (fst (run silent CoverageService.toggleCoverage w), Finished r).
Proof.
  intros H. unfold CoverageService.toggleCoverage, CoverageService.unawaited.
  rewrite run_sync_bind, run_bind, run_read.
  unfold read at 1. cbn [run_sync fst snd]. rewrite H.
  eexists. apply (run_sync_synchronous silent).
  apply synchronous_try_catch;
    [apply synchronous_removeCoverageForCurrentEditor|intros e; exact I].
Qed.

(** X9.  While coverage is displayed, [toggleCoverage] removes it: it
    does what [removeCoverageForCurrentEditor] does, awaits nothing, and
    resolves even when the renderer throws, the rejection of the call it
    does not await being lost.  The flag is off afterwards, so the next
    [toggleCoverage] is a [displayForFile]. *)
Theorem toggleCoverage_displayed (o : Oracle) (w : World) :
  isCoverageDisplayed w = true ->
  let w' := fst (run o CoverageService.removeCoverageForCurrentEditor w) in
  run o CoverageService.toggleCoverage w = (w', inr tt)
  /\ (exists r,
        run_sync CoverageService.toggleCoverage w = (w', Finished r))
  /\ isCoverageDisplayed w' = false
  /\ forall o' : Oracle,
       run o' CoverageService.toggleCoverage w'
       = run o' CoverageService.displayForFile w'.
Proof.
  intros H w'.
  assert (D : isCoverageDisplayed w' = false).
  { subst w'. rewrite run_removeCoverageForCurrentEditor. reflexivity. }
  split; [now apply run_toggleCoverage_displayed|]. split.
  - destruct (synchronous_toggleCoverage_displayed w H) as (r & E).
    exists r. rewrite E. rewrite (run_toggleCoverage_displayed silent w H).
    subst w'. rewrite !run_removeCoverageForCurrentEditor. reflexivity.
  - split; [exact D|].
    intros o'. now apply run_toggleCoverage_hidden.
Qed.

Lemma toggleCoverage_displayed_witness :
  isCoverageDisplayed (Sample.watching Sample.half) = true
  /\ run Sample.resolves CoverageService.toggleCoverage
       (Sample.watching Sample.half)
     = (fst (run Sample.resolves
                 CoverageService.removeCoverageForCurrentEditor
                 (Sample.watching Sample.half)), inr tt).
Proof.
  split; [reflexivity|].
  apply (toggleCoverage_displayed Sample.resolves
           (Sample.watching Sample.half) eq_refl).
Defined.

Lemma step_EditorChanged (o : Oracle) (s : System)
  (visible : option (list TextEditor)) (active : option TextEditor) :
  editorWatcher (world s) = true ->
  world (step (EditorChanged visible active) s)
  = fst (run o CoverageService.handleEditorEvents
           (with_host visible active (now (world s)) (world s))).
Proof.
  intros H. cbn [step]. unfold listened. fields. rewrite H. cbn [orb world].
  now rewrite (run_sync_synchronous o _ _ synchronous_handleEditorEvents).
Qed.

(** X10.  The editor-focus handler does not look at the displayed flag.
    After coverage was removed, the next change of the active editor
    renders the whole cache again on the editors then visible, while the
    flag stays off. *)
Theorem focus_renders_after_removal (o : Oracle) (w : World)
  (ts : list Task) (visible : option (list TextEditor))
  (active : option TextEditor) :
  editorWatcher w = true ->
  let removed :=
    fst (run o CoverageService.removeCoverageForCurrentEditor w) in
  let w' := world (step (EditorChanged visible active)
                        (mkSystem removed ts)) in
  rendered w'
  = rendered w
    ++ [([], visibleTextEditors w);
        (cache w, Some (match visible with
                        | Some editors => editors
                        | None => []
                        end))]
  /\ isCoverageDisplayed removed = false
  /\ isCoverageDisplayed w' = false.
Proof.
  intros H removed w'.
  assert (R : removed
              = with_isCoverageDisplayed false
                  (with_statusBar (StatusBarToggler.setLoading (Some false))
                     (with_rendered ([], visibleTextEditors w)
                        (with_statusBar
                           (StatusBarToggler.setLoading (Some true)) w)))).
  { subst removed. now rewrite run_removeCoverageForCurrentEditor. }
  clearbody removed. subst w'.
  rewrite (step_EditorChanged o);
    [|cbn [world]; rewrite R; exact H].
  cbn [world]. rewrite run_handleEditorEvents. cbv zeta.
  generalize (now removed). intros t.
  assert (E : rendered
                (with_rendered
                   (cache (with_host visible active t removed),
                    visible_or_none (with_host visible active t removed))
                   (with_statusBar (StatusBarToggler.setLoading (Some true))
                      (appendLine
                         (StateLine
                            (now (with_host visible active t removed))
                            rendering)
                         (with_host visible active t removed))))
              = rendered w
                ++ [([], visibleTextEditors w);
                    (cache w, Some (match visible with
                                    | Some editors => editors
                                    | None => []
                                    end))]).
  { rewrite R. unfold visible_or_none. fields. now rewrite <- app_assoc. }
  split; [|split; [now rewrite R|]].
  - destruct (renderer _ _ _); cbn [fst]; fields; exact E.
  - destruct (renderer _ _ _); cbn [fst]; rewrite R; reflexivity.
Qed.

Lemma focus_renders_after_removal_witness :
  rendered
    (world (step (EditorChanged None (Some Sample.editor))
              (mkSystem
                 (fst (run Sample.resolves
                         CoverageService.removeCoverageForCurrentEditor
                         (Sample.watching Sample.half))) [])))
  = [([], Some [Sample.editor]); (Sample.half, Some [])].
Proof.
  apply (focus_renders_after_removal Sample.resolves
           (Sample.watching Sample.half) [] None (Some Sample.editor)
           eq_refl).
Defined.

(* ================================================================= *)
(** ** Watching the workspace *)

Lemma run_listenToFileSystem (o : Oracle) (w : World) :
  run o CoverageService.listenToFileSystem w
  = let pattern :=
      CoverageService.blobPattern (configStore w) (workspaceFolders w) in
    (CoverageService.set_coverageWatcher pattern
       (appendLine
          (InfoLine (now w) ("Listening to file system at " ++ pattern)%string)
          w),
     inr tt).
Proof.
  unfold CoverageService.listenToFileSystem.
  rewrite run_bind, run_read. cbv beta iota.
  rewrite run_bind, run_read. cbv beta iota zeta.
  rewrite run_bind, run_log. cbv beta iota. rewrite run_exec. reflexivity.
Qed.

Lemma run_watchWorkspace (o : Oracle) (w : World) :
  run o CoverageService.watchWorkspace w
  = match run o CoverageService.displayForFile w with
    | (w1, inr _) =>
        let pattern :=
          CoverageService.blobPattern (configStore w1) (workspaceFolders w1)
        in
        (CoverageService.set_editorWatcher
           (CoverageService.set_coverageWatcher pattern
              (appendLine
                 (InfoLine (now w1)
                    ("Listening to file system at " ++ pattern)%string) w1)),
         inr tt)
    | (w1, inl e) => (w1, inl e)
    end.
Proof.
  unfold CoverageService.watchWorkspace, CoverageService.listenToEditorEvents.
  rewrite run_bind, run_await_own.
  destruct (run o CoverageService.displayForFile w) as [w1 [e|[]]];
    [reflexivity|].
  rewrite run_bind, run_listenToFileSystem. cbv beta iota zeta.
  rewrite run_exec. reflexivity.
Qed.

(** X11.  [watchWorkspace] registers its watchers only after a first
    cycle that did not throw.  Then the file-system watcher watches the
    pattern built from the configuration and the workspace folders, the
    brace list of the manual paths alone when there are any; the editor
    watcher is registered, the displayed flag is on, and the last line
    written names the pattern.  When the first cycle throws,
    [watchWorkspace] throws the same, and the watchers and the flag are
    as before. *)
Theorem watchWorkspace_outcome (o : Oracle) (w : World) :
  let w' := fst (run o CoverageService.watchWorkspace w) in
  match snd (run o CoverageService.watchWorkspace w) with
  | inr _ =>
      let pattern :=
        CoverageService.blobPattern (configStore w) (workspaceFolders w) in
      snd (run o CoverageService.loadCacheAndProcess w) = inr tt
      /\ coverageWatcher w' = Some pattern
      /\ (manualCoverageFilePaths (configStore w) <> [] ->
          pattern
          = ("{" ++ join "," (manualCoverageFilePaths (configStore w))
             ++ "}")%string)
      /\ editorWatcher w' = true
      /\ isCoverageDisplayed w' = true
      /\ last (outputChannel w') (StateLine 0 error)
         = InfoLine (now w)
             ("Listening to file system at " ++ pattern)%string
  | inl e =>
      snd (run o CoverageService.loadCacheAndProcess w) = inl e
      /\ coverageWatcher w' = coverageWatcher w
      /\ editorWatcher w' = editorWatcher w
      /\ isCoverageDisplayed w' = isCoverageDisplayed w
  end.
Proof.
  cbv zeta. rewrite run_watchWorkspace, run_displayForFile.
  pose proof (cycle_frame o w) as F. cbv zeta in F.
  pose proof (cycle_keeps_flag o w) as K.
  destruct (run o CoverageService.loadCacheAndProcess w) as [w1 [e|[]]];
    cbn [fst snd] in *; destruct F as (F1 & F2 & F3 & F4 & F5 & _).
  - repeat split; trivial.
  - unfold CoverageService.set_editorWatcher,
      CoverageService.set_coverageWatcher. fields.
    rewrite F3, F4, F5. repeat split.
    + intros M. unfold CoverageService.blobPattern.
      destruct (manualCoverageFilePaths (configStore w)); [now destruct M|].
      reflexivity.
    + apply last_last.
Qed.

(* ================================================================= *)
(** ** Disposal *)

Lemma run_dispose (o : Oracle) (w : World) :
  run o CoverageService.dispose w
  = (with_rendered ([], visibleTextEditors w)
       (with_cache [] (with_watchers None false w)),
     match renderer w [] (visibleTextEditors w) with
     | Some e => inl e
     | None => inr tt
     end).
Proof.
  unfold CoverageService.dispose.
  rewrite run_bind, run_exec. cbv beta iota.
  rewrite run_bind, run_exec. cbv beta iota. rewrite run_renderCoverage.
  reflexivity.
Qed.

Lemma synchronous_dispose : synchronous CoverageService.dispose.
Proof.
  unfold CoverageService.dispose.
  repeat (apply synchronous_bind; [|intros ?]);
    try apply synchronous_exec. apply synchronous_call.
Qed.

Lemma step_FileChanged (s : System) :
  watched (world s) = true ->
  exists k,
    step FileChanged s
    = mkSystem
        (appendLine (StateLine (now (world s)) loading)
           (with_statusBar (StatusBarToggler.setLoading (Some true))
              (world s)))
        (tasks s ++ [mkTask (Pending findCoverageFiles k) []]).
Proof.
  intros H. cbn [step]. rewrite H. unfold spawn.
  destruct (first_piece (world s)) as (k & E). exists k. now rewrite E.
Qed.

Lemma step_EditorChanged_quiet (s : System)
  (visible : option (list TextEditor)) (active : option TextEditor) :
  listened (world s) = false ->
  step (EditorChanged visible active) s
  = mkSystem (with_host visible active (now (world s)) (world s)) (tasks s).
Proof.
  intros H. cbn [step].
  replace (listened (with_host visible active (now (world s)) (world s)))
    with (listened (world s)) by reflexivity.
  now rewrite H.
Qed.

Lemma step_EditorChanged_live (o : Oracle) (s : System)
  (visible : option (list TextEditor)) (active : option TextEditor) :
  listened (world s) = true ->
  world (step (EditorChanged visible active) s)
  = fst (run o CoverageService.handleEditorEvents
           (with_host visible active (now (world s)) (world s))).
Proof.
  intros H. cbn [step].
  replace (listened (with_host visible active (now (world s)) (world s)))
    with (listened (world s)) by reflexivity.
  rewrite H. cbn [world].
  now rewrite (run_sync_synchronous o _ _ synchronous_handleEditorEvents).
Qed.

Lemma run_watchWorkspace_leaks (o : Oracle) (w : World) :
  snd (run o CoverageService.watchWorkspace w) = inr tt ->
  let w' := fst (run o CoverageService.watchWorkspace w) in
  leakedWatchers w'
  = leakedWatchers w ++ match coverageWatcher w with
                        | Some held => [held]
                        | None => []
                        end
  /\ leakedListeners w'
     = if editorWatcher w then S (leakedListeners w) else leakedListeners w.
Proof.
  cbv zeta. rewrite run_watchWorkspace, run_displayForFile.
  pose proof (cycle_frame o w) as F. cbv zeta in F.
  destruct (run o CoverageService.loadCacheAndProcess w) as [w1 [e|[]]];
    cbn [fst snd] in *; [discriminate|].
  destruct F as (F1 & F2 & _ & _ & _ & _ & _ & F8 & F9). intros _.
  unfold CoverageService.set_editorWatcher,
    CoverageService.set_coverageWatcher. fields.
  now rewrite F1, F2, F8, F9.
Qed.

(** X12.  [dispose] empties the cache and has the renderer draw the empty
    map on the visible editors; it throws what the renderer throws, the
    cache being empty all the same.  The status bar and the displayed
    flag are not reset.  It disposes the two watchers the fields hold and
    no other: a [watchWorkspace] that succeeds while watchers are
    registered leaves those live without a field holding them, and they
    outlive [dispose].  So after [dispose] a file change starts a cycle,
    and a change of the active editor has the handler render the empty
    cache, exactly when such a watcher is left; when none is, neither
    event starts or renders anything. *)
Theorem dispose_resets (o : Oracle) (w : World) (ts : list Task) :
  let w' := fst (run o CoverageService.dispose w) in
  let visible_or (visible : option (list TextEditor)) :=
    Some (match visible with
          | Some editors => editors
          | None => []
          end) in
  run_sync CoverageService.dispose w
  = (w', Finished (snd (run o CoverageService.dispose w)))
  /\ snd (run o CoverageService.dispose w)
     = match renderer w [] (visibleTextEditors w) with
       | Some e => inl e
       | None => inr tt
       end
  /\ cache w' = []
  /\ rendered w' = rendered w ++ [([], visibleTextEditors w)]
  /\ statusBar w' = statusBar w
  /\ isCoverageDisplayed w' = isCoverageDisplayed w
  /\ coverageWatcher w' = None
  /\ editorWatcher w' = false
  /\ leakedWatchers w' = leakedWatchers w
  /\ leakedListeners w' = leakedListeners w
  /\ (snd (run o CoverageService.watchWorkspace w) = inr tt ->
      let again := fst (run o CoverageService.watchWorkspace w) in
      leakedWatchers again
      = leakedWatchers w ++ match coverageWatcher w with
                            | Some held => [held]
                            | None => []
                            end
      /\ leakedListeners again
         = if editorWatcher w then S (leakedListeners w)
           else leakedListeners w)
  /\ (leakedWatchers w = [] ->
      step FileChanged (mkSystem w' ts) = mkSystem w' ts)
  /\ (leakedWatchers w <> [] ->
      exists k,
        step FileChanged (mkSystem w' ts)
        = mkSystem
            (appendLine (StateLine (now w) loading)
               (with_statusBar (StatusBarToggler.setLoading (Some true)) w'))
            (ts ++ [mkTask (Pending findCoverageFiles k) []]))
  /\ (leakedListeners w = O ->
      forall (visible : option (list TextEditor))
        (active : option TextEditor),
        step (EditorChanged visible active) (mkSystem w' ts)
        = mkSystem (with_host visible active (now w) w') ts)
  /\ (leakedListeners w <> O ->
      forall (visible : option (list TextEditor))
        (active : option TextEditor),
        let s := step (EditorChanged visible active) (mkSystem w' ts) in
        tasks s = ts
        /\ cache (world s) = []
        /\ rendered (world s) = rendered w' ++ [([], visible_or visible)]).
Proof.
  cbv zeta.
  assert (D : fst (run o CoverageService.dispose w)
              = with_rendered ([], visibleTextEditors w)
                  (with_cache [] (with_watchers None false w)))
    by now rewrite run_dispose.
  split; [apply (run_sync_synchronous o), synchronous_dispose|].
  split; [now rewrite run_dispose|].
  do 8 (split; [now rewrite D|]).
  split; [apply run_watchWorkspace_leaks|].
  set (w' := fst (run o CoverageService.dispose w)) in *. clearbody w'.
  assert (W : watched w' = match leakedWatchers w with
                           | [] => false
                           | _ :: _ => true
                           end) by now rewrite D.
  assert (L : listened w' = negb (Nat.eqb (leakedListeners w) 0))
    by now rewrite D.
  assert (N : now w' = now w) by now rewrite D.
  split; [|split; [|split]].
  - intros H. cbn [step world]. rewrite W, H. reflexivity.
  - intros H. destruct (step_FileChanged (mkSystem w' ts)) as (k & E).
    { cbn [world]. rewrite W. destruct (leakedWatchers w); [now destruct H|].
      reflexivity. }
    exists k. rewrite E. cbn [world tasks]. now rewrite N.
  - intros H visible active.
    rewrite step_EditorChanged_quiet; cbn [world tasks].
    + now rewrite N.
    + rewrite L, H. reflexivity.
  - intros H visible active.
    assert (Li : listened (world (mkSystem w' ts)) = true).
    { cbn [world]. rewrite L. destruct (leakedListeners w);
        [now destruct H|reflexivity]. }
    split; [|split].
    + cbn [step]. cbn [world] in Li.
      replace (listened (with_host visible active (now (world (mkSystem w' ts)))
                           (world (mkSystem w' ts))))
        with (listened w') by reflexivity.
      rewrite Li. reflexivity.
    + rewrite (step_EditorChanged_live o _ _ _ Li). cbn [world].
      rewrite run_handleEditorEvents. cbv zeta.
      destruct (renderer _ _ _); cbn [fst]; fields; now rewrite D.
    + rewrite (step_EditorChanged_live o _ _ _ Li). cbn [world].
      rewrite run_handleEditorEvents. cbv zeta.
      assert (C : cache w' = []) by now rewrite D.
      destruct (renderer _ _ _); cbn [fst]; unfold visible_or_none; fields;
        rewrite C; reflexivity.
Qed.

(* ================================================================= *)
(** ** A cycle in the event loop *)

Lemma replace_same {X : Type} (l : list X) (i : nat) (x : X) :
  nth_error l i = Some x -> replace i x l = l.
Proof.
  revert i. induction l as [|y l IH]; intros [|i] H; cbn in *;
    try discriminate; [congruence|]. now rewrite IH.
Qed.

Lemma replace_replace {X : Type} (l : list X) (i : nat) (x y : X) :
  replace i x (replace i y l) = replace i x l.
Proof.
  revert i. induction l as [|z l IH]; intros [|i]; cbn; trivial.
  now rewrite IH.
Qed.

(** Resuming task [i] as its promises settle, with no other event in
    between, takes a method from any of its suspensions to the end the
    uninterrupted run reaches. *)
Lemma drive (o : Oracle) (i : nat) (p : Async unit) :
  forall (w : World) (h : list Exchange) (ts : list Task),
    nth_error ts i = Some (mkTask (snd (run_sync p w)) h) ->
    exists (n : nat) (h' : list Exchange),
      play (repeat (Settled i o) n) (mkSystem (fst (run_sync p w)) ts)
      = mkSystem (fst (run o p w))
          (replace i (mkTask (Finished (snd (run o p w))) h') ts).
Proof.
  induction p as [a|e|X f k IH|X r k IH|k IH]; intros w h ts H.
  - exists O, h. cbn in *. now rewrite replace_same.
  - exists O, h. cbn in *. now rewrite replace_same.
  - cbn [run_sync run] in *. destruct (f w) as [w' x]. now apply (IH x w' h).
  - cbn [run_sync run fst snd] in *.
    destruct (IH (o X r) w (h ++ [Heard r (o X r)])
                (replace i (mkTask (snd (run_sync (k (o X r)) w))
                                   (h ++ [Heard r (o X r)])) ts))
      as (n & h' & E).
    { now apply nth_error_replace_same with (y := mkTask (Pending r k) h). }
    exists (S n), h'. cbn [repeat]. rewrite play_cons.
    cbn [step]. unfold wake. cbn [tasks world]. rewrite H. cbn [pc heard].
    destruct (run_sync (k (o X r)) w) as [w2 stop2]. cbn [fst snd] in E.
    rewrite E, replace_replace. reflexivity.
  - cbn [run_sync run fst snd] in *.
    destruct (IH w (h ++ [Continued])
                (replace i (mkTask (snd (run_sync k w)) (h ++ [Continued]))
                         ts))
      as (n & h' & E).
    { now apply nth_error_replace_same with (y := mkTask (Queued k) h). }
    exists (S n), h'. cbn [repeat]. rewrite play_cons.
    cbn [step]. unfold wake. cbn [tasks world]. rewrite H. cbn [pc heard].
    destruct (run_sync k w) as [w2 stop2]. cbn [fst snd] in E.
    rewrite E, replace_replace. reflexivity.
Qed.

Lemma first_piece_uniform :
  exists k,
    forall w : World,
      run_sync CoverageService.loadCacheAndProcess w
      = (appendLine (StateLine (now w) loading)
           (with_statusBar (StatusBarToggler.setLoading (Some true)) w),
         Pending findCoverageFiles k).
Proof.
  eexists. intros w.
  unfold CoverageService.loadCacheAndProcess, CoverageService.loadCache,
    CoverageService.setLoading, CoverageService.updateServiceState.
  rewrite run_sync_try_finally, run_sync_bind, run_sync_exec.
  rewrite run_sync_bind, run_sync_await_own.
  rewrite run_sync_bind, run_sync_exec.
  rewrite run_sync_bind. unfold await. cbn [run_sync].
  reflexivity.
Qed.

(** X14.  [dispose] does not cancel a cycle that is waiting for its
    promises.  The cache it emptied is filled again when the promises
    resolve, and the renderer then draws the new sections after having
    drawn the empty map: the cycle ends as one started right after the
    disposal would. *)
Theorem dispose_does_not_cancel (o : Oracle) (w : World)
  (files : list string) (dataFiles : list (string * string))
  (dataCoverage : Cache) :
  coverageWatcher w <> None ->
  o _ findCoverageFiles = inr files ->
  o _ (loadDataFiles files) = inr dataFiles ->
  o _ (filesToSections dataFiles) = inr dataCoverage ->
  let started := step FileChanged (mkSystem w []) in
  let stopped :=
    mkSystem (fst (run_sync CoverageService.dispose (world started)))
             (tasks started) in
  cache (world stopped) = []
  /\ coverageWatcher (world stopped) = None
  /\ exists (n : nat) (h : list Exchange),
       let final := play (repeat (Settled 0 o) n) stopped in
       final
       = mkSystem
           (fst (run o CoverageService.loadCacheAndProcess
                   (fst (run o CoverageService.dispose w))))
           [mkTask
              (Finished
                 (snd (run o CoverageService.loadCacheAndProcess
                         (fst (run o CoverageService.dispose w)))))
              h]
       /\ cache (world final) = dataCoverage
       /\ rendered (world final)
          = rendered w
            ++ [([], visibleTextEditors w);
                (dataCoverage, visibleTextEditors w)].
Proof.
  intros H E1 E2 E3 started stopped.
  destruct first_piece_uniform as (k & P).
  assert (S0 : started
               = mkSystem
                   (appendLine (StateLine (now w) loading)
                      (with_statusBar
                         (StatusBarToggler.setLoading (Some true)) w))
                   [mkTask (Pending findCoverageFiles k) []]).
  { subst started. cbn [step world].
    assert (L : watched w = true)
      by (unfold watched; destruct (coverageWatcher w);
          [reflexivity|now destruct H]).
    rewrite L. unfold spawn. cbn [world tasks]. now rewrite P. }
  clearbody started. subst started.
  assert (S1 : stopped
               = mkSystem
                   (fst (run_sync CoverageService.loadCacheAndProcess
                           (fst (run o CoverageService.dispose w))))
                   [mkTask
                      (snd (run_sync CoverageService.loadCacheAndProcess
                              (fst (run o CoverageService.dispose w))))
                      []]).
  { subst stopped. cbn [world tasks].
    rewrite (run_sync_synchronous o _ _ synchronous_dispose).
    rewrite !P, !run_dispose. cbn [fst snd]. reflexivity. }
  clearbody stopped. subst stopped.
  split; [rewrite P, run_dispose; reflexivity|].
  split; [rewrite P, run_dispose; reflexivity|].
  destruct (drive o 0 CoverageService.loadCacheAndProcess
              (fst (run o CoverageService.dispose w)) []
              [mkTask
                 (snd (run_sync CoverageService.loadCacheAndProcess
                         (fst (run o CoverageService.dispose w))))
                 []] eq_refl)
    as (n & h & E).
  exists n, h. cbv zeta. rewrite E. cbn [replace world].
  split; [reflexivity|].
  rewrite run_loadCacheAndProcess, run_loadCache, run_dispose.
  cbv zeta. fields. rewrite E1. fields. rewrite E2. fields. rewrite E3.
  fields.
  destruct (renderer w dataCoverage (visibleTextEditors w)); fields;
    rewrite <- app_assoc; split; reflexivity.
Qed.

Lemma dispose_does_not_cancel_witness :
  exists (n : nat) (h : list Exchange),
    cache
      (world
         (play (repeat (Settled 0 Sample.resolves) n)
            (mkSystem
               (fst (run_sync CoverageService.dispose
                       (world (step FileChanged
                                 (mkSystem (Sample.watching []) [])))))
               (tasks (step FileChanged
                         (mkSystem (Sample.watching []) []))))))
    = Sample.half.
Proof.
  destruct (dispose_does_not_cancel Sample.resolves (Sample.watching [])
              ["lcov.info"] [("lcov.info", "SF:a.ts")] Sample.half)
    as (_ & _ & n & h & _ & C & _);
    [discriminate|reflexivity|reflexivity|reflexivity|].
  exists n, h. exact C.
Defined.

(* ================================================================= *)
(** ** Percentages of natural counts *)

Lemma Qfloor_below (y : Q) (n : Z) :
  (y < inject_Z (n + 1))%Q -> Qfloor y <= n.
Proof.
  intros H. pose proof (Qfloor_le y) as L.
  assert (Q : (inject_Z (Qfloor y) < inject_Z (n + 1))%Q)
    by (eapply Qle_lt_trans; eassumption).
  rewrite <- Zlt_Qlt in Q. lia.
Qed.

Lemma Qfloor_above (y : Q) (n : Z) : (inject_Z n <= y)%Q -> n <= Qfloor y.
Proof.
  intros H. rewrite <- (Qfloor_Z n). now apply Qfloor_resp_le.
Qed.

Lemma exact_percentage_between (h f lo hi : Z) :
  0 < f -> lo * f <= 100 * h <= hi * f ->
  (inject_Z lo <= exact_percentage h f <= inject_Z hi)%Q.
Proof.
  intros Hf [L U]. unfold exact_percentage.
  assert (F : (0 < inject_Z f)%Q)
    by (change 0%Q with (inject_Z 0); now rewrite <- Zlt_Qlt).
  split.
  - apply Qle_shift_div_l; [exact F|]. rewrite <- inject_Z_mult.
    now rewrite <- Zle_Qle.
  - apply Qle_shift_div_r; [exact F|]. rewrite <- inject_Z_mult.
    now rewrite <- Zle_Qle.
Qed.

Lemma rounded_between (x : Q) (lo hi : Z) :
  0 <= lo -> hi <= 100 ->
  (inject_Z lo <= x <= inject_Z hi)%Q ->
  lo <= rounded (x - x * slack) /\ rounded (x + x * slack) <= hi.
Proof.
  intros Hlo Hhi [L U]. unfold rounded.
  assert (L0 : (0 <= inject_Z lo)%Q)
    by (change 0%Q with (inject_Z 0); now rewrite <- Zle_Qle).
  assert (U0 : (inject_Z hi <= 100)%Q)
    by (change 100%Q with (inject_Z 100); now rewrite <- Zle_Qle).
  split.
  - apply Qfloor_above. unfold slack.
    set (a := inject_Z lo) in *. set (b := inject_Z hi) in *.
    clearbody a b. lra.
  - apply Qfloor_below. rewrite inject_Z_plus. unfold slack.
    set (a := inject_Z lo) in *. set (b := inject_Z hi) in *.
    clearbody a b. change (inject_Z 1) with 1%Q. lra.
Qed.

(** [Math.round((h / f) * 100)] for [h] of [f]: an integer from 0 to 100,
    100 when all are hit and 0 when none is. *)
Lemma percent_range (h f : Z) :
  0 <= h <= f -> 0 < f < 2 ^ 53 ->
  exists z : Z,
    CoverageService.percent (JS.of_Z h) (JS.of_Z f) = JS.of_Z z
    /\ 0 <= z <= 100
    /\ (h = f -> z = 100)
    /\ (h = 0 -> z = 0).
Proof.
  intros Hh Hf.
  destruct (percent_of_counts h f) as (z & E & L & U); [lia|lia|].
  exists z. split; [exact E|].
  assert (B : forall lo hi : Z,
             0 <= lo -> hi <= 100 -> lo * f <= 100 * h <= hi * f ->
             lo <= z <= hi).
  { intros lo hi Hlo Hhi Hb.
    destruct (rounded_between (exact_percentage h f) lo hi Hlo Hhi)
      as (L' & U'); [apply exact_percentage_between; lia|lia]. }
  split; [apply B; lia|].
  split; intros ->.
  - assert (100 <= z <= 100) by (apply B; lia). lia.
  - assert (0 <= z <= 0) by (apply B; lia). lia.
Qed.

Lemma or_default_of_N (n : N) (d : Z) :
  JS.or_default (JS.Num (JS.of_N n)) (JS.of_Z d)
  = if (n =? 0)%N then JS.of_Z d else JS.of_Z (Z.of_N n).
Proof. destruct n; reflexivity. Qed.

Lemma coverage_counts (s : Section) (h f : N) :
  lines s = Some (counts h f) ->
  CoverageService.coverage (Some s)
  = CoverageService.percent (JS.of_Z (Z.of_N h)) (JS.of_Z (Z.of_N f)).
Proof. destruct s as [t fi l b]. cbn [lines]. intros ->. reflexivity. Qed.

Lemma b_coverage_counts (s : Section) (h f : N) :
  branch_counted (file s, s) (h, f) ->
  CoverageService.b_coverage (Some s)
  = CoverageService.percent (JS.of_Z (Z.of_N h))
      (JS.of_Z (if (f =? 0)%N then 1 else Z.of_N f)).
Proof.
  destruct s as [t fi l b]. unfold branch_counted. cbn [snd branches fst].
  destruct b as [c|]; intros E.
  - subst c. unfold CoverageService.b_coverage.
    cbn [CoverageService.branches_hit CoverageService.branches_found
         counts hit found].
    rewrite !or_default_of_N. destruct h, f; reflexivity.
  - injection E as -> ->. reflexivity.
Qed.

(** X15.  For the section of the editor's file with [h] lines hit of [f]
    found, [h <= f] and [f] positive, the line percentage is an integer
    from 0 to 100: 100 when every line is hit, 0 when none is. *)
Theorem file_line_percentage (s : Section) (h f : N) :
  lines s = Some (counts h f) ->
  (h <= f)%N -> (0 < f)%N -> Z.of_N f < 2 ^ 53 ->
  exists z : Z,
    CoverageService.coverage (Some s) = JS.of_Z z
    /\ 0 <= z <= 100
    /\ (h = f -> z = 100)
    /\ (h = 0%N -> z = 0).
Proof.
  intros Hs Hh Hf Hb. rewrite (coverage_counts s h f Hs).
  destruct (percent_range (Z.of_N h) (Z.of_N f)) as (z & E & R & A & Z0);
    [lia|lia|].
  exists z. repeat split; try tauto; lia.
Qed.

Lemma file_line_percentage_witness :
  exists z : Z,
    CoverageService.coverage (Some (line_section "a.ts" 5 10)) = JS.of_Z z
    /\ 0 <= z <= 100.
Proof.
  destruct (file_line_percentage (line_section "a.ts" 5 10) 5 10)
    as (z & E & R & _); [reflexivity|lia|lia|lia|].
  exists z. split; assumption.
Defined.

(** X16.  The branch percentage of the editor's file never lacks a
    value: with [h] branches hit of [f] found, [h <= f], it is an integer
    from 0 to 100, and a section that found no branch, or has no branch
    data, reads 0, the divisor being 1 then. *)
Theorem file_branch_percentage (s : Section) (h f : N) :
  branch_counted (file s, s) (h, f) ->
  (h <= f)%N -> Z.of_N f < 2 ^ 53 ->
  exists z : Z,
    CoverageService.b_coverage (Some s) = JS.of_Z z
    /\ 0 <= z <= 100
    /\ (f = 0%N -> z = 0)
    /\ (h = f -> (0 < f)%N -> z = 100).
Proof.
  intros Hs Hh Hb. rewrite (b_coverage_counts s h f Hs).
  destruct (N.eqb_spec f 0) as [F|F].
  - subst f. assert (h = 0%N) by lia. subst h.
    destruct (percent_range 0 1) as (z & E & R & _ & Z0); [lia|lia|].
    exists z. repeat split; try tauto; lia.
  - destruct (percent_range (Z.of_N h) (Z.of_N f)) as (z & E & R & A & _);
      [lia|lia|].
    exists z. repeat split; try tauto; lia.
Qed.

Lemma file_branch_percentage_witness :
  exists z : Z,
    CoverageService.b_coverage
      (Some (mkSection "a.ts" "a.ts" (Some (counts 5 10))
               (Some (counts 0 0))))
    = JS.of_Z z
    /\ z = 0.
Proof.
  destruct (file_branch_percentage
              (mkSection "a.ts" "a.ts" (Some (counts 5 10))
                 (Some (counts 0 0))) 0 0)
    as (z & E & _ & Z0 & _); [reflexivity|lia|lia|].
  exists z. split; [exact E|now apply Z0].
Defined.

Lemma totals_branches (sections : Cache) (tallies : list (N * N)) :
  Forall2 branch_counted sections tallies ->
  forall (t : CoverageService.Totals) (a b : Z),
    CoverageService.total_branches_hit t = JS.of_Z a ->
    CoverageService.total_branches_found t = JS.of_Z b ->
    0 <= a -> 0 <= b ->
    a + sum_hit tallies < 2 ^ 53 -> b + sum_found tallies < 2 ^ 53 ->
    let r := fold_left CoverageService.accumulate (map snd sections) t in
    CoverageService.total_branches_hit r = JS.of_Z (a + sum_hit tallies)
    /\ CoverageService.total_branches_found r
       = JS.of_Z (b + sum_found tallies).
Proof.
  induction 1 as [|[k s] [h f] sections tallies Hc _ IH];
    intros t a b Ha Hb Na Nb Sa Sb; cbn [map fold_left snd].
  - simpl. now rewrite !Z.add_0_r.
  - cbn [sum_hit sum_found fold_right fst snd] in Sa, Sb |- *.
    fold (sum_hit tallies) in *. fold (sum_found tallies) in *.
    pose proof (sum_hit_nonneg tallies). pose proof (sum_found_nonneg tallies).
    unfold branch_counted in Hc. cbn [fst snd] in Hc.
    destruct s as [ti fi li bi]. cbn [branches] in Hc.
    rewrite !Z.add_assoc.
    assert (A : JS.or_default
                  (CoverageService.branches_hit
                     (Some (mkSection ti fi li bi))) (JS.of_Z 0)
                = JS.of_Z (Z.of_N h)
                /\ JS.or_default
                     (CoverageService.branches_found
                        (Some (mkSection ti fi li bi))) (JS.of_Z 0)
                   = JS.of_Z (Z.of_N f)).
    { destruct bi as [c|].
      - subst c. cbn [CoverageService.branches_hit
                      CoverageService.branches_found counts hit found].
        rewrite !or_default_of_N. destruct h, f; split; reflexivity.
      - injection Hc as -> ->. split; reflexivity. }
    destruct A as (A1 & A2).
    apply IH; try lia.
    + cbn [CoverageService.accumulate CoverageService.total_branches_hit].
      rewrite A1, Ha. apply add_exact; lia.
    + cbn [CoverageService.accumulate CoverageService.total_branches_found].
      rewrite A2, Hb. apply add_exact; lia.
Qed.

Lemma b_total_coverage_counted (sections : Cache)
  (tallies : list (N * N)) :
  Forall2 branch_counted sections tallies ->
  sum_hit tallies < 2 ^ 53 -> sum_found tallies < 2 ^ 53 ->
  CoverageService.b_total_coverage sections
  = if sum_found tallies =? 0 then JS.of_Z 0
    else CoverageService.percent (JS.of_Z (sum_hit tallies))
           (JS.of_Z (sum_found tallies)).
Proof.
  intros Hc Hh Hf. unfold CoverageService.b_total_coverage.
  destruct (totals_branches sections tallies Hc
              (CoverageService.mkTotals (JS.of_Z 0) (JS.of_Z 0) (JS.of_Z 0)
                 (JS.of_Z 0)) 0 0 eq_refl eq_refl ltac:(lia) ltac:(lia)
              ltac:(lia) ltac:(lia)) as (T1 & T2).
  fold (CoverageService.totals sections) in T1, T2.
  rewrite T1, T2, !Z.add_0_l, eq_zero_of_Z. reflexivity.
Qed.

Lemma sound_sums (tallies : list (N * N)) :
  Forall sound tallies -> sum_hit tallies <= sum_found tallies.
Proof.
  induction 1 as [|[h f] tallies H _ IH]; cbn; [lia|].
  unfold sound in H. cbn in H. fold (sum_hit tallies) (sum_found tallies).
  lia.
Qed.

Lemma aggregate_range (h f : Z) :
  0 <= h <= f -> f < 2 ^ 53 ->
  exists z : Z,
    (if f =? 0 then JS.of_Z 0
     else CoverageService.percent (JS.of_Z h) (JS.of_Z f)) = JS.of_Z z
    /\ 0 <= z <= 100
    /\ (f = 0 -> z = 0)
    /\ (h = f -> 0 < f -> z = 100).
Proof.
  intros Hh Hf. destruct (Z.eqb_spec f 0) as [F|F].
  - exists 0. repeat split; lia.
  - destruct (percent_range h f) as (z & E & R & A & _); [lia|lia|].
    exists z. repeat split; try tauto; lia.
Qed.

(** X17.  For a cache of sections with natural counts, none hit more
    often than found, the two aggregate percentages are integers from 0
    to 100: 0 when nothing was found, 100 when all that was found is
    hit.  Sections without branch data count as 0 of 0 branches. *)
Theorem total_percentages_range (sections : Cache)
  (tallies branch_tallies : list (N * N)) :
  Forall2 counted sections tallies ->
  Forall2 branch_counted sections branch_tallies ->
  Forall sound tallies -> Forall sound branch_tallies ->
  sum_found tallies < 2 ^ 53 -> sum_found branch_tallies < 2 ^ 53 ->
  exists tl tb : Z,
    CoverageService.total_coverage sections = JS.of_Z tl
    /\ CoverageService.b_total_coverage sections = JS.of_Z tb
    /\ 0 <= tl <= 100 /\ 0 <= tb <= 100
    /\ (sum_found tallies = 0 -> tl = 0)
    /\ (sum_found branch_tallies = 0 -> tb = 0)
    /\ (sum_hit tallies = sum_found tallies ->
        0 < sum_found tallies -> tl = 100)
    /\ (sum_hit branch_tallies = sum_found branch_tallies ->
        0 < sum_found branch_tallies -> tb = 100).
Proof.
  intros Hc Hb Sc Sb Fc Fb.
  pose proof (sound_sums _ Sc). pose proof (sound_sums _ Sb).
  pose proof (sum_hit_nonneg tallies).
  pose proof (sum_hit_nonneg branch_tallies).
  rewrite (total_coverage_counted sections tallies Hc) by lia.
  rewrite (b_total_coverage_counted sections branch_tallies Hb) by lia.
  destruct (aggregate_range (sum_hit tallies) (sum_found tallies))
    as (tl & E1 & R1 & Z1 & A1); [lia|lia|].
  destruct (aggregate_range (sum_hit branch_tallies)
              (sum_found branch_tallies))
    as (tb & E2 & R2 & Z2 & A2); [lia|lia|].
  exists tl, tb. repeat split; try tauto; lia.
Qed.

Lemma total_percentages_range_witness :
  exists tl tb : Z,
    CoverageService.total_coverage Sample.half = JS.of_Z tl
    /\ CoverageService.b_total_coverage Sample.half = JS.of_Z tb
    /\ 0 <= tl <= 100 /\ tb = 0.
Proof.
  destruct (total_percentages_range Sample.half [(5, 10)%N] [(0, 0)%N])
    as (tl & tb & E1 & E2 & R1 & _ & _ & Z2 & _).
  - repeat constructor.
  - repeat constructor.
  - repeat constructor; unfold sound; cbn; lia.
  - repeat constructor; unfold sound; cbn; lia.
  - reflexivity.
  - reflexivity.
  - exists tl, tb. repeat split; tauto.
Defined.

(* ================================================================= *)
(** ** The text for a report *)

(** A template literal prints a whole percentage in decimal digits. *)
Lemma template_percentage (z : Z) :
  0 <= z <= 100 -> JS.template (JS.Num (JS.of_Z z)) = JS.decimal z.
Proof.
  intros H.
  assert (A : forallb
                (fun n => String.eqb
                            (JS.template (JS.Num (JS.of_Z (Z.of_nat n))))
                            (JS.decimal (Z.of_nat n)))
                (seq 0 101) = true) by (vm_compute; reflexivity).
  rewrite forallb_forall in A.
  specialize (A (Z.to_nat z)). rewrite Z2Nat.id in A by lia.
  apply String.eqb_eq, A, in_seq. lia.
Qed.

Lemma lt_or_default_Z (z k : Z) :
  JS.lt (JS.or_default (JS.Num (JS.of_Z z)) (JS.of_Z 0)) (JS.of_Z k)
  = (z <? k).
Proof.
  assert (E : JS.or_default (JS.Num (JS.of_Z z)) (JS.of_Z 0) = JS.of_Z z)
    by (destruct z; reflexivity).
  rewrite E. unfold JS.lt, JS.of_Z, Qcompare, inject_Z. cbn [Qnum Qden].
  rewrite !Z.mul_1_r. unfold Z.ltb. destruct (z ?= k); reflexivity.
Qed.

(** [setCoverage] on four whole percentages. *)
Lemma setCoverage_integers (b : StatusBarToggler.t) (l br tl tb : Z) :
  0 <= l <= 100 -> 0 <= br <= 100 -> 0 <= tl <= 100 -> 0 <= tb <= 100 ->
  let b' :=
    StatusBarToggler.setCoverage (JS.Num (JS.of_Z l)) (JS.Num (JS.of_Z tl))
      (JS.Num (JS.of_Z br)) (JS.Num (JS.of_Z tb)) b in
  StatusBarToggler.lineCoverage b'
  = Some (JS.decimal l ++ "," ++ JS.decimal br ++ "%/"
          ++ JS.decimal tl ++ "," ++ JS.decimal tb ++ "%")%string
  /\ StatusBarToggler.isWarn b' = ((tl <? 60) || (tb <? 40)).
Proof.
  intros Hl Hbr Htl Htb. cbv zeta. unfold StatusBarToggler.setCoverage.
  cbn [JS.Number_isFinite JS.of_Z andb].
  change (JS.Fin (inject_Z l)) with (JS.of_Z l).
  change (JS.Fin (inject_Z tl)) with (JS.of_Z tl).
  change (JS.Fin (inject_Z br)) with (JS.of_Z br).
  change (JS.Fin (inject_Z tb)) with (JS.of_Z tb).
  change (JS.Fin (inject_Z 0)) with (JS.of_Z 0).
  change (JS.Fin (inject_Z 60)) with (JS.of_Z 60).
  change (JS.Fin (inject_Z 40)) with (JS.of_Z 40).
  rewrite !lt_or_default_Z, !template_percentage by assumption.
  destruct b as [a lo c i cfg wn].
  destruct ((tl <? 60) || (tb <? 40)); split; reflexivity.
Qed.

Lemma warn_below (tl tb : Z) :
  (tl <? 60) || (tb <? 40) = true <-> tl < 60 \/ tb < 40.
Proof. rewrite orb_true_iff, !Z.ltb_lt. reflexivity. Qed.

(** X18.  For a cache of sections with natural counts, none hit more
    often than found, and an editor whose first section has found some
    line, the coverage text is always of the form
    "{line},{branch}%/{totalLine},{totalBranch}%", each part a whole
    percentage from 0 to 100 in decimal digits: the shorter forms of the
    presenter do not arise.  The presenter is warned exactly when the
    total line percentage is below 60 or the total branch percentage
    below 40. *)
Theorem status_text_of_report (w : World) (sections : Cache)
  (editor : TextEditor) (s : Section) (rest : list Section)
  (h f bh bf : N) (tallies branch_tallies : list (N * N)) :
  sectionFinder w editor sections = inr (s :: rest) ->
  lines s = Some (counts h f) ->
  branch_counted (file s, s) (bh, bf) ->
  (h <= f)%N -> (0 < f)%N -> (bh <= bf)%N ->
  Z.of_N f < 2 ^ 53 -> Z.of_N bf < 2 ^ 53 ->
  Forall2 counted sections tallies ->
  Forall2 branch_counted sections branch_tallies ->
  Forall sound tallies -> Forall sound branch_tallies ->
  sum_found tallies < 2 ^ 53 -> sum_found branch_tallies < 2 ^ 53 ->
  let b' := bar_after w sections (Some editor) in
  exists l b tl tb : Z,
    (0 <= l <= 100 /\ 0 <= b <= 100 /\ 0 <= tl <= 100 /\ 0 <= tb <= 100)
    /\ CoverageService.coverage (Some s) = JS.of_Z l
    /\ CoverageService.b_coverage (Some s) = JS.of_Z b
    /\ CoverageService.total_coverage sections = JS.of_Z tl
    /\ CoverageService.b_total_coverage sections = JS.of_Z tb
    /\ StatusBarToggler.lineCoverage b'
       = Some (JS.decimal l ++ "," ++ JS.decimal b ++ "%/"
               ++ JS.decimal tl ++ "," ++ JS.decimal tb ++ "%")%string
    /\ (StatusBarToggler.isWarn b' = true <-> tl < 60 \/ tb < 40).
Proof.
  intros Hm Hs Hbs Hh Hf Hbh Ff Fbf Hc Hb Sc Sb Fc Fb b'.
  pose proof (sound_sums _ Sc). pose proof (sound_sums _ Sb).
  pose proof (sum_hit_nonneg tallies).
  pose proof (sum_hit_nonneg branch_tallies).
  destruct (percent_range (Z.of_N h) (Z.of_N f)) as (l & El & Rl & _);
    [lia|lia|].
  destruct (percent_range (Z.of_N bh)
              (if (bf =? 0)%N then 1 else Z.of_N bf)) as (b & Eb & Rb & _);
    [destruct (N.eqb_spec bf 0); lia|destruct (N.eqb_spec bf 0); lia|].
  destruct (aggregate_range (sum_hit tallies) (sum_found tallies))
    as (tl & Etl & Rtl & _); [lia|lia|].
  destruct (aggregate_range (sum_hit branch_tallies)
              (sum_found branch_tallies))
    as (tb & Etb & Rtb & _); [lia|lia|].
  rewrite <- (coverage_counts s h f Hs) in El.
  rewrite <- (b_coverage_counts s bh bf Hbs) in Eb.
  rewrite <- (total_coverage_counted sections tallies Hc) in Etl by lia.
  rewrite <- (b_total_coverage_counted sections branch_tallies Hb) in Etb
    by lia.
  exists l, b, tl, tb. split; [tauto|]. repeat (split; [assumption|]).
  subst b'. rewrite bar_after_eq, Hm. cbn [hd_error].
  rewrite El, Eb, Etl, Etb.
  destruct (setCoverage_integers (statusBar w) l b tl tb Rl Rb Rtl Rtb)
    as (T & W).
  split; [exact T|]. rewrite W. apply warn_below.
Qed.

Lemma status_text_of_report_witness :
  exists l b tl tb : Z,
    StatusBarToggler.lineCoverage
      (bar_after (Sample.world Sample.half) Sample.half
         (Some Sample.editor))
    = Some (JS.decimal l ++ "," ++ JS.decimal b ++ "%/"
            ++ JS.decimal tl ++ "," ++ JS.decimal tb ++ "%")%string.
Proof.
  destruct (status_text_of_report (Sample.world Sample.half) Sample.half
              Sample.editor (line_section "a.ts" 5 10) [] 5 10 0 0
              [(5, 10)%N] [(0, 0)%N])
    as (l & b & tl & tb & _ & _ & _ & _ & _ & T & _);
    [reflexivity|reflexivity|reflexivity|lia|lia|lia|reflexivity|reflexivity
    |repeat constructor|repeat constructor
    |repeat constructor; unfold sound; cbn; lia
    |repeat constructor; unfold sound; cbn; lia
    |reflexivity|reflexivity|].
  exists l, b, tl, tb. exact T.
Defined.





(* ================================================================= *)
(** ** The editor-focus handler and the life of a service *)

(** X20.  The editor-focus handler writes RENDERING and, unless the
    renderer throws, READY; it throws what the renderer throws, having
    switched the loading flag off either way.  It changes neither the
    displayed flag nor the watchers, and never whether the presenter is
    active. *)
Theorem handleEditorEvents_outcome (o : Oracle) (w : World) :
  let w' := fst (run o CoverageService.handleEditorEvents w) in
  match snd (run o CoverageService.handleEditorEvents w) with
  | inr _ =>
      renderer w (cache w) (visible_or_none w) = None
      /\ states (outputChannel w')
         = states (outputChannel w) ++ [rendering; ready]
  | inl e =>
      renderer w (cache w) (visible_or_none w) = Some e
      /\ states (outputChannel w') = states (outputChannel w) ++ [rendering]
  end
  /\ StatusBarToggler.isLoading (statusBar w') = false
  /\ StatusBarToggler.isActive (statusBar w')
     = StatusBarToggler.isActive (statusBar w)
  /\ isCoverageDisplayed w' = isCoverageDisplayed w
  /\ coverageWatcher w' = coverageWatcher w
  /\ editorWatcher w' = editorWatcher w.
Proof.
  cbv zeta. rewrite run_handleEditorEvents. cbv zeta.
  destruct (renderer w (cache w) (visible_or_none w)); fields;
    rewrite isLoading_setLoading, ?isActive_setLoading, ?isActive_bar_after;
    fields; rewrite ?isActive_setLoading; log_states;
    rewrite <- ?app_assoc; repeat split.
Qed.

(** X21.  A service that is constructed and then told to watch, its
    promises resolving and its renderer not throwing, has written
    INITIALIZING, LOADING, READY, RENDERING, READY after what the channel
    held; it holds the parsed sections, has rendered them once, shows
    coverage and has both watchers registered. *)
Theorem fresh_service_watch (o : Oracle) (config : Config)
  (channel : list LogEntry) (bar : StatusBarToggler.t)
  (render : Cache -> option (list TextEditor) -> option Error)
  (finder : TextEditor -> Cache -> Error + list Section)
  (visible : option (list TextEditor)) (active : option TextEditor)
  (folders : option (list string)) (t : Z)
  (files : list string) (dataFiles : list (string * string))
  (dataCoverage : Cache) :
  o _ findCoverageFiles = inr files ->
  o _ (loadDataFiles files) = inr dataFiles ->
  o _ (filesToSections dataFiles) = inr dataCoverage ->
  render dataCoverage visible = None ->
  let w :=
    CoverageService.new config channel bar render finder visible active
      folders t in
  let w' := fst (run o CoverageService.watchWorkspace w) in
  cache w = [] /\ isCoverageDisplayed w = false
  /\ coverageWatcher w = None /\ editorWatcher w = false
  /\ snd (run o CoverageService.watchWorkspace w) = inr tt
  /\ states (outputChannel w')
     = states channel ++ [initializing; loading; ready; rendering; ready]
  /\ cache w' = dataCoverage
  /\ rendered w' = [(dataCoverage, visible)]
  /\ isCoverageDisplayed w' = true
  /\ coverageWatcher w' = Some (CoverageService.blobPattern config folders)
  /\ editorWatcher w' = true.
Proof.
  intros E1 E2 E3 R w w'. subst w' w.
  rewrite run_watchWorkspace, run_displayForFile, run_loadCacheAndProcess,
    run_loadCache.
  unfold CoverageService.new, CoverageService.set_editorWatcher,
    CoverageService.set_coverageWatcher. cbv zeta. fields.
  rewrite E1. fields. rewrite E2. fields. rewrite E3. fields.
  rewrite R. fields. log_states. rewrite <- ?app_assoc. repeat split.
Qed.

Lemma fresh_service_watch_witness :
  states
    (outputChannel
       (fst (run Sample.resolves CoverageService.watchWorkspace
               (CoverageService.new Sample.config [] Sample.bar
                  (fun _ _ => None) Sample.finder (Some [Sample.editor])
                  (Some Sample.editor) None 0))))
  = [initializing; loading; ready; rendering; ready].
Proof.
  apply (fresh_service_watch Sample.resolves Sample.config [] Sample.bar
           (fun _ _ => None) Sample.finder (Some [Sample.editor])
           (Some Sample.editor) None 0 ["lcov.info"]
           [("lcov.info", "SF:a.ts")] Sample.half eq_refl eq_refl eq_refl
           eq_refl).
Defined.
